(** * Variability: per-band magnitude offsets of variable sources

    A shallow embedding of [Variability.py] (class [Variability]) and the
    properties of its light-curve evaluators.

    Conventions of the embedding.
    - A numpy [float64] is a real number ([R]); rounding is not modelled.
      Where numpy would produce [inf] or [nan] (a division by zero inside
      an array expression) the model divides in [R], and the theorems that
      say something about such a quotient carry the hypothesis that the
      divisor is not zero. [numpy.log] and [numpy.log10] are [ln] and
      [ln x / ln 10], also where numpy gives [nan] or [-inf].
    - The observation epochs [self.obs_metadata.metadata['Opsim_expmjd'][0]]
      are either one number (numpy turns it into a 0-d array, and arithmetic
      on it gives immutable [numpy.float64] scalars) or a 1-d array (mutable,
      shared by reference): type [ndarray].
    - A Python [dict] with string keys is a [gmap string _].
    - The attributes of [self], the template files on disk, the log of calls
      to [numpy.loadtxt] and the state of numpy's global random generator
      make up the record [World]; a method is a function
      [World -> result A * World], so that what a call changes survives the
      exception it may raise afterwards.
    - scipy's [interp1d] is written out as the scipy releases that run this
      Python 2 code have it: piecewise-linear, at least two knots,
      [ValueError] outside of the knots. [InterpolatedUnivariateSpline],
      numpy's generator and the parsing of numbers out of strings are
      fields of the class [Externals]. [json.loads] is not modelled:
      [applyVariability] takes the decoded command. *)

From Stdlib Require Import Reals Lra Lia ZArith.
From Stdlib Require Import Reals.Zfloor Sorting.Sorted.
From stdpp Require Import gmap strings list fin_maps.

Open Scope R_scope.

(** ** Exceptions and results *)

(** [InvalidParameters] stands for the failure of line 171 of [applyAgn],
    [raise("WARNING: Time offset greater than minimum epoch.  Not applying
    variability")], whatever class Python gives to an exception raised
    from a string; the other constructors are Python's. *)
Inductive exn :=
  | KeyError
  | TypeError
  | ValueError
  | IndexError
  | IOError
  | OverflowError
  | ZeroDivisionError
  | AttributeError
  | InvalidParameters.

Inductive result (A : Type) :=
  | Ok (a : A)
  | Raise (e : exn).
Arguments Ok {A} a.
Arguments Raise {A} e.

#[global] Instance result_ret : MRet result := @Ok.
#[global] Instance result_bind : MBind result := fun A B f r =>
  match r with
  | Ok a => f a
  | Raise e => Raise e
  end.
#[global] Instance result_fmap : FMap result := fun A B f r =>
  match r with
  | Ok a => Ok (f a)
  | Raise e => Raise e
  end.

Definition is_Ok {A} (r : result A) : Prop := exists a, r = Ok a.

Definition option_or_raise {A} (e : exn) (o : option A) : result A :=
  match o with
  | Some a => Ok a
  | None => Raise e
  end.

(** [mapM] written out for [result]: the first failure wins. *)
Fixpoint traverse {A B} (f : A -> result B) (l : list A) : result (list B) :=
  match l with
  | [] => Ok []
  | a :: l' =>
      match f a with
      | Ok b =>
          match traverse f l' with
          | Ok bs => Ok (b :: bs)
          | Raise e => Raise e
          end
      | Raise e => Raise e
      end
  end.

(** ** Numbers *)

#[global] Instance R_eq_dec : EqDecision R := Req_dec_T.
#[global] Instance Rlt_decision (x y : R) : Decision (x < y) := Rlt_dec x y.
#[global] Instance Rle_decision (x y : R) : Decision (x <= y) := Rle_dec x y.

(** [numpy.log10] *)
Definition log10 (x : R) : R := ln x / ln 10.

(** [a // b] on floats: the floor of the quotient. *)
Definition floor_divide (a b : R) : R := IZR (Zfloor (a / b)).

(** [int(x)] on a float: truncation towards zero. *)
Definition truncate (x : R) : Z :=
  if Rle_dec 0 x then Zfloor x else Zceil x.

(** [min] of a sequence; [None] on the empty one. *)
Definition list_min (l : list R) : option R :=
  match l with
  | [] => None
  | x :: l' => Some (fold_left Rmin l' x)
  end.

Definition list_max (l : list R) : option R :=
  match l with
  | [] => None
  | x :: l' => Some (fold_left Rmax l' x)
  end.

(** [numpy.linspace(start, stop, num)]: [num] evenly spaced samples, both
    ends included; one sample is [start]; none for [num <= 0]. *)
Definition linspace (start stop : R) (num : nat) : list R :=
  match num with
  | O => []
  | S O => [start]
  | S n =>
      map (fun i : nat => start + INR i * ((stop - start) / INR n)) (seq 0 num)
  end.

(** ** Arrays *)

Inductive ndarray :=
  | Scalar (x : R)
  | Array (xs : list R).

Definition elems (a : ndarray) : list R :=
  match a with
  | Scalar x => [x]
  | Array xs => xs
  end.

Definition asize (a : ndarray) : nat := length (elems a).

(** An elementwise operation keeps the shape. *)
Definition amap (f : R -> R) (a : ndarray) : ndarray :=
  match a with
  | Scalar x => Scalar (f x)
  | Array xs => Array (map f xs)
  end.

(** ** Interpolators *)

(** An interpolator object, seen through its call on one abscissa. *)
Definition interpolator : Type := R -> result R.

(** What [interpFactory] is: a constructor from the two columns. *)
Definition factory : Type := list R -> list R -> result interpolator.

(** Calling an interpolator on an array evaluates it elementwise. *)
Definition acall (f : interpolator) (a : ndarray) : result ndarray :=
  match a with
  | Scalar x => Scalar <$> f x
  | Array xs => Array <$> traverse f xs
  end.

(** The segment formula of [interp1d]: the first knot [x1] (past the first
    one) with [t <= x1] closes the segment used. *)
Fixpoint linear_eval (xs ys : list R) (t : R) : option R :=
  match xs, ys with
  | x0 :: ((x1 :: _) as xs'), y0 :: ((y1 :: _) as ys') =>
      if Rle_dec t x1
      then Some ((y1 - y0) / (x1 - x0) * (t - x0) + y0)
      else linear_eval xs' ys' t
  | _, _ => None
  end.

(** [scipy.interpolate.interp1d(x, y)] with its defaults: linear, at least
    two knots, [ValueError] outside of [[x[0], x[-1]]]. *)
Definition interp1d : factory := fun xs ys =>
  if negb (length xs =? length ys)%nat then Raise ValueError
  else if (length xs <? 2)%nat then Raise ValueError
  else Ok (fun t =>
    match head xs, last xs with
    | Some lo, Some hi =>
        if Rlt_dec t lo then Raise ValueError
        else if Rlt_dec hi t then Raise ValueError
        else option_or_raise ValueError (linear_eval xs ys t)
    | _, _ => Raise ValueError
    end).

(** ** Parameters *)

(** The values of a decoded JSON object. *)
Inductive value :=
  | VNone
  | VBool (b : bool)
  | VNum (x : R)
  | VStr (s : string).

Abbreviation dict := (gmap string value).

(** [d[k]] *)
Definition getitem {V} (d : gmap string V) (k : string) : result V :=
  option_or_raise KeyError (d !! k).

(** ** What the libraries provide *)

Class Externals := {
  (** the state of numpy's global generator *)
  rng_state : Type;
  (** [numpy.random.seed(seed)]; [None] where numpy refuses the seed *)
  random_seed : Z -> option rng_state;
  (** [numpy.random.normal(0., 1., n)] *)
  random_normal : rng_state -> nat -> list R * rng_state;
  random_normal_length : forall s n, length (random_normal s n).1 = n;
  (** [scipy.interpolate.InterpolatedUnivariateSpline(x, y)]: the fitted
      spline is defined everywhere (it extrapolates). *)
  InterpolatedUnivariateSpline : list R -> list R -> result (R -> R);
  (** [float(s)] and [int(s)] on a string *)
  float_of_string : string -> option R;
  int_of_string : string -> option Z;
}.

(** The spline as an [interpFactory]. *)
Definition spline_factory `{Externals} : factory := fun xs ys =>
  f ← InterpolatedUnivariateSpline xs ys;
  Ok (fun t => Ok (f t)).

(** [float(v)] *)
Definition py_float `{Externals} (v : value) : result R :=
  match v with
  | VNum x => Ok x
  | VBool b => Ok (if b then 1 else 0)
  | VStr s => option_or_raise ValueError (float_of_string s)
  | VNone => Raise TypeError
  end.

(** [int(v)] *)
Definition py_int `{Externals} (v : value) : result Z :=
  match v with
  | VNum x => Ok (truncate x)
  | VBool b => Ok (if b then 1%Z else 0%Z)
  | VStr s => option_or_raise ValueError (int_of_string s)
  | VNone => Raise TypeError
  end.

(** A parameter used as a number in arithmetic. *)
Definition py_num (v : value) : result R :=
  match v with
  | VNum x => Ok x
  | VBool b => Ok (if b then 1 else 0)
  | VStr _ | VNone => Raise TypeError
  end.

(** A parameter used as a string. *)
Definition py_str (v : value) : result string :=
  match v with
  | VStr s => Ok s
  | _ => Raise TypeError
  end.

(** The truth value of [if v:] *)
Definition py_truth (v : value) : bool :=
  match v with
  | VNone => false
  | VBool b => b
  | VNum x => if Req_dec_T x 0 then false else true
  | VStr s => negb (String.eqb s EmptyString)
  end.

(** ** The state a call runs in *)

(** An entry of [self.variabilityLcCache]: [{'splines': .., 'period': ..}].
    The period is kept as the Python value it was given as. *)
Record template := {
  splines : gmap string interpolator;
  period : value;
}.

Record World `{Externals} := {
  (** [self.obs_metadata.metadata['Opsim_expmjd'][0]] *)
  Opsim_expmjd : ndarray;
  (** [os.environ.get("CAT_SHARE_DATA")] *)
  CAT_SHARE_DATA : option string;
  (** what [numpy.loadtxt(path, unpack=True, comments='#')] returns for
      the files that exist: the columns of the file, first the time axis
      (a file of one row or of one column gives a 1-d array in numpy, on
      which [lc[0][1]] raises [IndexError]; so do the lists here, at
      [lc[0][1]] or at [lc[1]]) *)
  files : gmap string (list (list R));
  (** the paths [numpy.loadtxt] was called on, latest first *)
  loadtxt_log : list string;
  variabilityInitialized : bool;
  (** the three attributes below exist once [initializeVariability] ran
      (the last one only if it did not raise) *)
  variabilityLcCache : gmap string template;
  variabilityCache : bool;
  variabilityDataDir : option string;
  (** numpy's global generator *)
  rng : rng_state;
}.

Section Methods.
Context `{Ext : Externals}.

Definition set_loadtxt_log (l : list string) (w : World) : World :=
  {| Opsim_expmjd := Opsim_expmjd w; CAT_SHARE_DATA := CAT_SHARE_DATA w;
     files := files w; loadtxt_log := l;
     variabilityInitialized := variabilityInitialized w;
     variabilityLcCache := variabilityLcCache w;
     variabilityCache := variabilityCache w;
     variabilityDataDir := variabilityDataDir w; rng := rng w |}.

Definition set_variabilityLcCache (c : gmap string template) (w : World)
  : World :=
  {| Opsim_expmjd := Opsim_expmjd w; CAT_SHARE_DATA := CAT_SHARE_DATA w;
     files := files w; loadtxt_log := loadtxt_log w;
     variabilityInitialized := variabilityInitialized w;
     variabilityLcCache := c;
     variabilityCache := variabilityCache w;
     variabilityDataDir := variabilityDataDir w; rng := rng w |}.

Definition set_rng (g : rng_state) (w : World) : World :=
  {| Opsim_expmjd := Opsim_expmjd w; CAT_SHARE_DATA := CAT_SHARE_DATA w;
     files := files w; loadtxt_log := loadtxt_log w;
     variabilityInitialized := variabilityInitialized w;
     variabilityLcCache := variabilityLcCache w;
     variabilityCache := variabilityCache w;
     variabilityDataDir := variabilityDataDir w; rng := g |}.

Definition set_Opsim_expmjd (a : ndarray) (w : World) : World :=
  {| Opsim_expmjd := a; CAT_SHARE_DATA := CAT_SHARE_DATA w;
     files := files w; loadtxt_log := loadtxt_log w;
     variabilityInitialized := variabilityInitialized w;
     variabilityLcCache := variabilityLcCache w;
     variabilityCache := variabilityCache w;
     variabilityDataDir := variabilityDataDir w; rng := rng w |}.

(** A method: it returns or raises, and leaves a state behind either way. *)
Definition M (A : Type) : Type := World -> result A * World.

#[global] Instance M_ret : MRet M := fun A a w => (Ok a, w).
#[global] Instance M_bind : MBind M := fun A B f m w =>
  match m w with
  | (Ok a, w') => f a w'
  | (Raise e, w') => (Raise e, w')
  end.

Definition lift {A} (r : result A) : M A := fun w => (r, w).
Definition raise {A} (e : exn) : M A := fun w => (Raise e, w).
Definition gets {A} (f : World -> A) : M A := fun w => (Ok (f w), w).
Definition modify (f : World -> World) : M unit := fun w => (Ok tt, f w).

(** [self.variabilityLcCache], [self.variabilityCache],
    [self.variabilityDataDir]: [AttributeError] while unset. *)
Definition self_variabilityLcCache : M (gmap string template) := fun w =>
  if variabilityInitialized w then (Ok (variabilityLcCache w), w)
  else (Raise AttributeError, w).

Definition self_variabilityCache : M bool := fun w =>
  if variabilityInitialized w then (Ok (variabilityCache w), w)
  else (Raise AttributeError, w).

Definition self_variabilityDataDir : M string := fun w =>
  (option_or_raise AttributeError (variabilityDataDir w), w).

(** [numpy.loadtxt(path, unpack=True, comments='#')] *)
Definition loadtxt (path : string) : M (list (list R)) := fun w =>
  (option_or_raise IOError (files w !! path),
   set_loadtxt_log (path :: loadtxt_log w) w).

(** [a[i]] on a sequence *)
Definition index {A} (l : list A) (i : nat) : result A :=
  option_or_raise IndexError (l !! i).

(** [a[-1]] *)
Definition index_last {A} (l : list A) : result A :=
  option_or_raise IndexError (last l).

(** [os.path.join(a, b)] *)
Definition os_path_join (a b : string) : string :=
  if String.eqb a EmptyString then b
  else if String.eqb (String.substring (String.length a - 1) 1 a) "/"
       then a +:+ b
  else a +:+ "/" +:+ b.

(** ** initializeVariability (lines 18-47) *)

(** All nine model methods exist on the class, so the [hasattr] tests all
    succeed; the registry they fill is [variabilityMethods] below. *)
Definition initializeVariability (doCache : bool) : M unit := fun w =>
  let w1 :=
    {| Opsim_expmjd := Opsim_expmjd w; CAT_SHARE_DATA := CAT_SHARE_DATA w;
       files := files w; loadtxt_log := loadtxt_log w;
       variabilityInitialized := true;
       variabilityLcCache := ∅;
       variabilityCache := doCache;
       variabilityDataDir := variabilityDataDir w; rng := rng w |} in
  match CAT_SHARE_DATA w with
  | Some d =>
      (Ok tt,
       {| Opsim_expmjd := Opsim_expmjd w1; CAT_SHARE_DATA := CAT_SHARE_DATA w1;
          files := files w1; loadtxt_log := loadtxt_log w1;
          variabilityInitialized := true;
          variabilityLcCache := ∅;
          variabilityCache := doCache;
          variabilityDataDir :=
            Some (os_path_join (os_path_join d "data") "LightCurves");
          rng := rng w1 |})
  | None => (Raise AttributeError, w1)
  end.

(** ** applyStdPeriodic (lines 63-109) *)

(** Lines 85-92 and 96-101: one interpolator per band, over the time axis
    and the band's column. *)
Definition build_splines (mk : factory) (lc : list (list R))
  : result (gmap string interpolator) :=
  t ← index lc 0; c ← index lc 1; su ← mk t c;
  t ← index lc 0; c ← index lc 2; sg ← mk t c;
  t ← index lc 0; c ← index lc 3; sr ← mk t c;
  t ← index lc 0; c ← index lc 4; si ← mk t c;
  t ← index lc 0; c ← index lc 5; sz ← mk t c;
  t ← index lc 0; c ← index lc 6; sy ← mk t c;
  Ok (<["y" := sy]> (<["z" := sz]> (<["i" := si]> (<["r" := sr]>
        (<["g" := sg]> (<["u" := su]> ∅)))))).

(** Lines 76-80: the period of a freshly loaded template. *)
Definition template_period (inPeriod : value) (lc : list (list R))
  : result value :=
  match inPeriod with
  | VNone =>
      t ← index lc 0; t1 ← index t 1;
      t ← index lc 0; t0 ← index t 0;
      let dt := t1 - t0 in
      t ← index lc 0; tlast ← index_last t;
      Ok (VNum (tlast + dt))
  | p => Ok p
  end.

(** Lines 82-83: [lc[0] /= period] *)
Definition normalize_axis (inDays : bool) (period : value)
  (lc : list (list R)) : result (list (list R)) :=
  if inDays then
    t ← index lc 0; p ← py_num period;
    Ok (<[0%nat := map (fun x => x / p) t]> lc)
  else Ok lc.

(** Lines 71-103: the interpolators and the period, from the cache or from
    the file. *)
Definition load_template (filename : value) (inPeriod : value)
  (inDays : bool) (interpFactory : option factory)
  : M (gmap string interpolator * value) :=
  cache ← self_variabilityLcCache;
  match (match filename with VStr f => cache !! f | _ => None end) with
  | Some t => mret (splines t, period t)
  | None =>
      dir ← self_variabilityDataDir;
      f ← lift (py_str filename);
      lc ← loadtxt (dir +:+ "/" +:+ f);
      period ← lift (template_period inPeriod lc);
      lc ← lift (normalize_axis inDays period lc);
      spl ← lift (build_splines (default interp1d interpFactory) lc);
      doCache ← self_variabilityCache;
      (if doCache : bool
       then modify (fun w =>
              set_variabilityLcCache
                (<[f := {| splines := spl; period := period |}]>
                   (variabilityLcCache w)) w)
       else mret tt);;
      mret (spl, period)
  end.

(** Line 105 *)
Definition fold_phase (period : R) (epoch : R) : R :=
  epoch / period - floor_divide epoch period.

(** Lines 106-108: every interpolator of the dictionary on the phases. *)
Definition eval_splines (spl : gmap string interpolator) (phase : ndarray)
  : result (gmap string ndarray) :=
  list_to_map <$>
    traverse (fun kf : string * interpolator =>
                pair kf.1 <$> acall kf.2 phase) (map_to_list spl).

Definition applyStdPeriodic (params : dict) (keymap : gmap string string)
  (inPeriod : value) (inDays : bool) (interpFactory : option factory)
  : M (gmap string ndarray) :=
  expmjd ← gets Opsim_expmjd;
  filename ← lift (k ← getitem keymap "filename"; getitem params k);
  toff ← lift (k ← getitem keymap "t0"; v ← getitem params k; py_float v);
  let epoch := amap (fun t => t - toff) expmjd in
  '(spl, period) ← load_template filename inPeriod inDays interpFactory;
  p ← lift (py_num period);
  let phase := amap (fold_phase p) epoch in
  lift (eval_splines spl phase).

(** ** The periodic models (lines 111-138) *)

(** [s[:-5]] *)
Definition drop_last5 (s : string) : string :=
  String.substring 0 (String.length s - 5) s.

Definition applyMflare (params : dict) : M (gmap string ndarray) :=
  name ← lift (v ← getitem params "lcfilename"; py_str v);
  let params :=
    <["lcfilename" := VStr ("mflare/" +:+ drop_last5 name +:+ "1.dat")]>
      params in
  let keymap : gmap string string :=
    <["t0" := "t0"]> (<["filename" := "lcfilename"]> ∅) in
  length ← lift (getitem params "length");
  magoff ← applyStdPeriodic params keymap length true None;
  mret (amap Ropp <$> magoff).

Definition applyRRly (params : dict) : M (gmap string ndarray) :=
  let keymap : gmap string string :=
    <["t0" := "tStartMjd"]> (<["filename" := "filename"]> ∅) in
  applyStdPeriodic params keymap VNone true (Some spline_factory).

Definition applyCepheid (params : dict) : M (gmap string ndarray) :=
  let keymap : gmap string string :=
    <["t0" := "t0"]> (<["filename" := "lcfile"]> ∅) in
  period ← lift (getitem params "period");
  applyStdPeriodic params keymap period false (Some spline_factory).

Definition applyEb (params : dict) : M (gmap string ndarray) :=
  let keymap : gmap string string :=
    <["t0" := "t0"]> (<["filename" := "lcfile"]> ∅) in
  dMags ← applyStdPeriodic params keymap VNone true (Some spline_factory);
  mret (amap (fun x => -2.5 * log10 x) <$> dMags).

(** ** The microlensing models (lines 140-153 and 193-206) *)

(** The same array [dmag] under the six band labels. *)
Definition six_bands {A} (a : A) : gmap string A :=
  <["y" := a]> (<["z" := a]> (<["i" := a]> (<["r" := a]>
    (<["g" := a]> (<["u" := a]> ∅))))).

(** Lines 144 and 196 *)
Definition lens_u (umin that epoch : R) : R :=
  sqrt (umin ^ 2 + (2.0 * epoch / that) ^ 2).

(** Line 145 *)
Definition magnification_Microlens (u : R) : R :=
  (u ^ 2 + 2.0) / (u * sqrt (u ^ 2 + 4.0)).

(** Line 198 *)
Definition magnification_Microlensing (u : R) : R :=
  (u + 2.0) / (u * sqrt (u ^ 2 + 4.0)).

Definition applyMicrolens (params : dict) : M (gmap string ndarray) :=
  expmjd ← gets Opsim_expmjd;
  t0 ← lift (v ← getitem params "t0"; py_num v);
  let epochs := amap (fun t => t - t0) expmjd in
  umin ← lift (v ← getitem params "umin"; py_num v);
  that ← lift (v ← getitem params "that"; py_num v);
  let u := amap (lens_u umin that) epochs in
  let magnification := amap magnification_Microlens u in
  let dmag := amap (fun m => -2.5 * log10 m) magnification in
  mret (six_bands dmag).

Definition applyMicrolensing (params : dict) : M (gmap string ndarray) :=
  expmjd ← gets Opsim_expmjd;
  t0 ← lift (v ← getitem params "t0"; py_num v);
  let epochs := amap (fun t => t - t0) expmjd in
  umin ← lift (v ← getitem params "umin"; py_num v);
  that ← lift (v ← getitem params "that"; py_num v);
  let u := amap (lens_u umin that) epochs in
  let magnification := amap magnification_Microlensing u in
  let dmag := amap (fun m => -2.5 * log10 m) magnification in
  mret (six_bands dmag).

(** ** applyAgn (lines 156-191) *)

(** Lines 181-186: [dx[i+1], dx[i+2], ...] from [x = dx[i]]; [n] steps. *)
Fixpoint agn_walk (dt sdt sf : R) (es : list R) (n i : nat) (x : R)
  : list R :=
  match n with
  | O => []
  | S n' =>
      let x' := - x * dt + sf * nth i es 0 * sdt + x in
      x' :: agn_walk dt sdt sf es n' (S i) x'
  end.

(** The body of the loop over the bands, lines 181-190. The amplitude is
    used as a number only inside the inner loop, that is when [nbins > 0]. *)
Definition agn_band (nbins : nat) (dt sdt : R) (es : list R)
  (endepoch : R) (epochs : ndarray) (sf : value) : result ndarray :=
  dx ← match nbins with
       | O => Ok [0]
       | S _ => s ← py_num sf; Ok (0 :: agn_walk dt sdt s es nbins 0 0)
       end;
  let x := linspace 0 endepoch (nbins + 1) in
  intdx ← interp1d x dx;
  acall intdx epochs.

Definition applyAgn (params : dict) : M (gmap string ndarray) :=
  expmjd ← gets Opsim_expmjd;
  toff ← lift (v ← getitem params "t0_mjd"; py_float v);
  seed ← lift (v ← getitem params "seed"; py_int v);
  sfu ← lift (getitem params "agn_sfu");
  sfg ← lift (getitem params "agn_sfg");
  sfr ← lift (getitem params "agn_sfr");
  sfi ← lift (getitem params "agn_sfi");
  sfz ← lift (getitem params "agn_sfz");
  sfy ← lift (getitem params "agn_sfy");
  tau ← lift (getitem params "agn_tau");
  let epochs := amap (fun t => t - toff) expmjd in
  epochs_min ← lift (option_or_raise ValueError (list_min (elems epochs)));
  if Rlt_dec epochs_min 0 then (raise InvalidParameters : M (gmap string ndarray)) else
  endepoch ← lift (option_or_raise ValueError (list_max (elems epochs)));
  tau ← lift (py_num tau);
  let dt := tau / 100 in
  (* [endepoch/dt] is [inf] or [nan] for [dt = 0]: [int] refuses both *)
  if Req_dec_T dt 0 then
    (raise (if Req_dec_T endepoch 0 then ValueError else OverflowError)
       : M (gmap string ndarray))
  else
  let nbins := Zceil (endepoch / dt) in
  let dt := (endepoch / IZR nbins) / tau in
  (* [nbins = 0] and [endepoch > 0] make [dt] minus infinity, which
     [math.sqrt] refuses *)
  if decide (nbins = 0%Z /\ endepoch <> 0) then (raise ValueError : M (gmap string ndarray)) else
  let sdt := sqrt dt in
  g ← lift (option_or_raise ValueError (random_seed seed));
  modify (set_rng g);;
  (* a negative size is refused by [numpy.random.normal] *)
  if decide (nbins < 0)%Z then (raise ValueError : M (gmap string ndarray)) else
  let nbins := Z.to_nat nbins in
  let draw := random_normal g nbins in
  modify (set_rng draw.2);;
  let es := draw.1 in
  u ← lift (agn_band nbins dt sdt es endepoch epochs sfu);
  g ← lift (agn_band nbins dt sdt es endepoch epochs sfg);
  r ← lift (agn_band nbins dt sdt es endepoch epochs sfr);
  i ← lift (agn_band nbins dt sdt es endepoch epochs sfi);
  z ← lift (agn_band nbins dt sdt es endepoch epochs sfz);
  y ← lift (agn_band nbins dt sdt es endepoch epochs sfy);
  mret (<["y" := y]> (<["z" := z]> (<["i" := i]> (<["r" := r]>
          (<["g" := g]> (<["u" := u]> ∅)))))).

(** ** applyAmcvn (lines 208-242) *)

(** What a name is bound to: an immutable [numpy.float64], or a reference
    to an array object of the store. [gLc = uLc] copies the binding, so two
    names may hold the same reference. *)
Inductive npvalue :=
  | Float64 (x : R)
  | Ref (l : nat).

Abbreviation store := (list (list R)).

(** [x += rhs]: on an array the object is updated in place, for every name
    bound to it; a [numpy.float64] has no in-place addition, the name is
    bound to the new array [x + rhs]. *)
Definition iadd (x : npvalue) (rhs : list R) (h : store)
  : npvalue * store :=
  match x with
  | Float64 a => (Ref (length h), h ++ [map (Rplus a) rhs])
  | Ref l => (Ref l, alter (fun xs => zip_with Rplus xs rhs) l h)
  end.

(** The value a name denotes at the end. *)
Definition deref (h : store) (x : npvalue) : ndarray :=
  match x with
  | Float64 a => Scalar a
  | Ref l => Array (default [] (h !! l))
  end.

Fixpoint foldM {A B} (f : A -> B -> result A) (a : A) (l : list B)
  : result A :=
  match l with
  | [] => Ok a
  | b :: l' =>
      match f a b with
      | Ok a' => foldM f a' l'
      | Raise e => Raise e
      end
  end.

(** Line 226, for one epoch *)
Definition burst_tmp (burst_scale o epoch : R) : R :=
  exp (-1 * (epoch - o) / burst_scale) / exp (-1).

(** Lines 226-227: the pulse of the burst at time [o], taken off [adds]. *)
Definition burst_pulse (params : dict) (epochs : list R) (adds : list R)
  (o : R) : result (list R) :=
  burst_scale ← (v ← getitem params "burst_scale"; py_num v);
  let tmp := map (burst_tmp burst_scale o) epochs in
  amp_burst ← (v ← getitem params "amp_burst"; py_num v);
  Ok (zip_with
        (fun a t => a - amp_burst * t * (if Rlt_dec t 1.0 then 1 else 0))
        adds tmp).

(** Lines 222-227: the array [adds] after the loop over the bursts. *)
Definition amcvn_adds (params : dict) (maxyears : R) (epochs : list R)
  : result (list R) :=
  let adds := repeat 0 (length epochs) in
  t0 ← (v ← getitem params "t0"; py_num v);
  burst_freq ← (v ← getitem params "burst_freq"; py_num v);
  if Req_dec_T burst_freq 0 then Raise ZeroDivisionError else
  let num := Z.to_nat (Zceil (maxyears * 365.25 / burst_freq)) in
  foldM (burst_pulse params epochs) adds
    (linspace (t0 + burst_freq) (t0 + maxyears * 365.25) num).

(** The weights of the colour excess as lines 229-234 write them: none on
    the last three lines. *)
Definition color_excess_weight (band : string) : R :=
  if String.eqb band "u" then 2.0
  else if String.eqb band "g" then 1
  else if String.eqb band "r" then 0.5
  else 0.

Definition applyAmcvn (params : dict) : M (gmap string ndarray) :=
  let maxyears := 10 in
  epochs ← gets Opsim_expmjd;
  amplitude ← lift (getitem params "amplitude");
  t0 ← lift (v ← getitem params "t0"; py_num v);
  period ← lift (v ← getitem params "period"; py_num v);
  amplitude ← lift (py_num amplitude);
  let lc := fun e => amplitude * cos ((e - t0) / period) in
  let '(uLc, h) :=
    match epochs with
    | Scalar e => (Float64 (lc e), [])
    | Array es => (Ref 0, [map lc es])
    end in
  let gLc := uLc in
  let rLc := uLc in
  let iLc := uLc in
  let zLc := uLc in
  let yLc := uLc in
  does_burst ← lift (getitem params "does_burst");
  '(uLc, gLc, rLc, iLc, zLc, yLc, h) ←
    (if py_truth does_burst then
       adds ← lift (amcvn_adds params maxyears (elems epochs));
       c ← lift (v ← getitem params "color_excess_during_burst"; py_num v);
       m ← lift (option_or_raise ValueError (list_min adds));
       let '(uLc, h) := iadd uLc (map (fun a => a + 2.0 * c * a / m) adds) h in
       let '(gLc, h) := iadd gLc (map (fun a => a + c * a / m) adds) h in
       let '(rLc, h) := iadd rLc (map (fun a => a + 0.5 * c * a / m) adds) h in
       let '(iLc, h) := iadd iLc adds h in
       let '(zLc, h) := iadd zLc adds h in
       let '(yLc, h) := iadd yLc adds h in
       mret (uLc, gLc, rLc, iLc, zLc, yLc, h)
     else mret (uLc, gLc, rLc, iLc, zLc, yLc, h)
     : M (npvalue * npvalue * npvalue * npvalue * npvalue * npvalue * store));
  mret (<["y" := deref h yLc]> (<["z" := deref h zLc]>
         (<["i" := deref h iLc]> (<["r" := deref h rLc]>
           (<["g" := deref h gLc]> (<["u" := deref h uLc]> ∅)))))).

(** ** applyBHMicrolens (lines 244-274) *)

(** Lines 267-270: the magnification at one epoch. *)
Definition bh_moff (minage maxage : R) (magnification : R -> R) (ep : R)
  : R :=
  if Rlt_dec ep minage then 1
  else if Rlt_dec maxage ep then 1
  else magnification ep.

Definition applyBHMicrolens (params : dict) : M (gmap string ndarray) :=
  expmjd ← gets Opsim_expmjd;
  filename ← lift (getitem params "filename");
  toff ← lift (v ← getitem params "t0"; py_float v);
  let epoch := amap (fun t => t - toff) expmjd in
  dir ← self_variabilityDataDir;
  f ← lift (py_str filename);
  lc ← loadtxt (dir +:+ "/" +:+ f);
  t ← lift (index lc 0);
  t1 ← lift (index t 1);
  t0 ← lift (index t 0);
  let dt := t1 - t0 in
  period ← lift (index_last t);
  (* BH lightcurves are in years *)
  let t := map (fun x => x * 365) t in
  minage ← lift (index t 0);
  maxage ← lift (index_last t);
  c ← lift (index lc 1);
  magnification ← lift (InterpolatedUnivariateSpline t c);
  let moff := map (bh_moff minage maxage magnification) (elems epoch) in
  mret (six_bands (Array (map (fun m => -2.5 * ln m) moff))).

(** ** applyVariability (lines 50-61) *)

(** The registry [self.variabilityMethods] that [initializeVariability]
    builds. *)
Definition variabilityMethods (method : string)
  : option (dict -> M (gmap string ndarray)) :=
  if String.eqb method "applyMflare" then Some applyMflare
  else if String.eqb method "applyRRly" then Some applyRRly
  else if String.eqb method "applyCepheid" then Some applyCepheid
  else if String.eqb method "applyEb" then Some applyEb
  else if String.eqb method "applyMicrolens" then Some applyMicrolens
  else if String.eqb method "applyAgn" then Some applyAgn
  else if String.eqb method "applyMicrolensing" then Some applyMicrolensing
  else if String.eqb method "applyAmcvn" then Some applyAmcvn
  else if String.eqb method "applyBHMicrolens" then Some applyBHMicrolens
  else None.

(** The command is taken as [json.loads] decoded it: [varMethodName] and
    [pars]. *)
Definition applyVariability (varMethodName : string) (pars : dict)
  : M (gmap string ndarray) :=
  initialized ← gets variabilityInitialized;
  (if initialized : bool then mret tt else initializeVariability false);;
  method ← lift (option_or_raise KeyError (variabilityMethods varMethodName));
  method pars.

End Methods.

(** ** Notions the properties are stated with *)

Section Notions.
Context `{Ext : Externals}.

(** The six band labels. *)
Definition band_labels : gset string :=
  list_to_set ["u"; "g"; "r"; "i"; "z"; "y"].

(** What a miss of the template cache computes from the file (lines
    75-101), before the result is stored. *)
Definition fresh_template (inPeriod : value) (inDays : bool)
  (interpFactory : option factory) (file : option (list (list R)))
  : result (gmap string interpolator * value) :=
  lc ← option_or_raise IOError file;
  period ← template_period inPeriod lc;
  lc ← normalize_axis inDays period lc;
  spl ← build_splines (default interp1d interpFactory) lc;
  Ok (spl, period).

(** The inferred period as the specification words it: (last sample time
    - first sample time) + (spacing between the first two points). *)
Definition spec_inferred_period (t : list R) : option R :=
  match t !! 0%nat, t !! 1%nat, last t with
  | Some t0, Some t1, Some tlast => Some ((tlast - t0) + (t1 - t0))
  | _, _, _ => None
  end.

(** The template files on disk change. *)
Definition set_files (fs : gmap string (list (list R))) (w : World)
  : World :=
  {| Opsim_expmjd := Opsim_expmjd w; CAT_SHARE_DATA := CAT_SHARE_DATA w;
     files := fs; loadtxt_log := loadtxt_log w;
     variabilityInitialized := variabilityInitialized w;
     variabilityLcCache := variabilityLcCache w;
     variabilityCache := variabilityCache w;
     variabilityDataDir := variabilityDataDir w; rng := rng w |}.

(** What happens to an engine between two calls: a periodic evaluation with
    any arguments, a dispatched evaluation of any model, new observation
    epochs, other files on disk. ([initializeVariability] runs inside
    [applyVariability], and only on an engine that is not initialised.) *)
Inductive step : World -> World -> Prop :=
  | step_applyStdPeriodic params keymap inPeriod inDays interpFactory w :
      step w (applyStdPeriodic params keymap inPeriod inDays interpFactory w).2
  | step_applyVariability name pars w :
      step w (applyVariability name pars w).2
  | step_observe a w :
      step w (set_Opsim_expmjd a w)
  | step_files fs w :
      step w (set_files fs w).

Definition steps : World -> World -> Prop := rtc step.

(** How an initialised engine evolves: it stays initialised, keeps its
    caching flag and its data directory; cached templates stay as they are;
    nothing is cached while caching is off; what is new in the cache holds
    interpolators for the six bands. *)
Definition evolves (w w' : World) : Prop :=
  variabilityInitialized w = true ->
  variabilityInitialized w' = true
  /\ variabilityCache w' = variabilityCache w
  /\ variabilityDataDir w' = variabilityDataDir w
  /\ (forall f t, variabilityLcCache w !! f = Some t ->
                  variabilityLcCache w' !! f = Some t)
  /\ (variabilityCache w = false ->
      variabilityLcCache w' = variabilityLcCache w)
  /\ (forall f t, variabilityLcCache w' !! f = Some t ->
                  variabilityLcCache w !! f = Some t
                  \/ dom (splines t) = band_labels).

Definition preserves {A} (m : M A) : Prop := forall w, evolves w (m w).2.

(** Every cached template holds the interpolators of the six bands. *)
Definition cache_ok (w : World) : Prop :=
  forall f t, variabilityLcCache w !! f = Some t ->
              dom (splines t) = band_labels.

(** A result of an evaluator as it should be: the six bands, each with one
    value per observation epoch. *)
Definition six_band_result (expmjd : ndarray) (d : gmap string ndarray)
  : Prop :=
  dom d = band_labels
  /\ forall b a, d !! b = Some a -> asize a = asize expmjd.

(** The offset applyMicrolens (lines 142-146) and applyMicrolensing (lines
    195-199) compute at time [t]. *)
Definition dmag_Microlens (t0 umin that t : R) : R :=
  -2.5 * log10 (magnification_Microlens (lens_u umin that (t - t0))).

Definition dmag_Microlensing (t0 umin that t : R) : R :=
  -2.5 * log10 (magnification_Microlensing (lens_u umin that (t - t0))).

(** The model evaluators of the class: the methods of the registry, the
    dispatcher, and the periodic evaluator with any arguments. *)
Inductive evaluator : M (gmap string ndarray) -> Prop :=
  | evaluator_registered name method pars :
      variabilityMethods name = Some method -> evaluator (method pars)
  | evaluator_applyVariability name pars :
      evaluator (applyVariability name pars)
  | evaluator_applyStdPeriodic params keymap inPeriod inDays interpFactory :
      evaluator
        (applyStdPeriodic params keymap inPeriod inDays interpFactory).

(** The colour excess as the specification words it: the two reddest bands
    [z] and [y], and only they, get the plain burst contribution [plain]
    (the baseline plus [adds]). *)
Definition spec_plain_bands (d : gmap string ndarray) (plain : ndarray)
  : Prop :=
  forall b, b ∈ band_labels ->
            (d !! b = Some plain <-> b = "z" \/ b = "y").

(** The bands of applyAgn with the parameter that holds their amplitude
    (lines 162-167). *)
Definition agn_bands : list (string * string) :=
  [("u", "agn_sfu"); ("g", "agn_sfg"); ("r", "agn_sfr");
   ("i", "agn_sfi"); ("z", "agn_sfz"); ("y", "agn_sfy")].

(** The parameters applyAgn reads (lines 159-168) are there, and <<t0_mjd>>
    and <<seed>> convert. *)
Definition agn_params (params : dict) (toff : R) (seed : Z)
  (sfu sfg sfr sfi sfz sfy tau : value) : Prop :=
  (v ← getitem params "t0_mjd"; py_float v) = Ok toff
  /\ (v ← getitem params "seed"; py_int v) = Ok seed
  /\ getitem params "agn_sfu" = Ok sfu
  /\ getitem params "agn_sfg" = Ok sfg
  /\ getitem params "agn_sfr" = Ok sfr
  /\ getitem params "agn_sfi" = Ok sfi
  /\ getitem params "agn_sfz" = Ok sfz
  /\ getitem params "agn_sfy" = Ok sfy
  /\ getitem params "agn_tau" = Ok tau.

End Notions.

(** ** Notions for the rest of the class *)

Section MoreNotions.
Context `{Ext : Externals}.

(** The names under which [initializeVariability] registers the methods
    (lines 22-39). *)
Definition registered_names : list string :=
  ["applyMflare"; "applyRRly"; "applyCepheid"; "applyEb"; "applyMicrolens";
   "applyAgn"; "applyMicrolensing"; "applyAmcvn"; "applyBHMicrolens"].

(** The parameters [applyAgn] reads, in the order of lines 159-168. *)
Definition agn_keys : list string :=
  ["t0_mjd"; "seed"; "agn_sfu"; "agn_sfg"; "agn_sfr"; "agn_sfi"; "agn_sfz";
   "agn_sfy"; "agn_tau"].

(** Two states of the engine that differ at most in the state of the
    random generator. *)
Definition same_but_rng (w w' : World) : Prop :=
  Opsim_expmjd w' = Opsim_expmjd w
  /\ CAT_SHARE_DATA w' = CAT_SHARE_DATA w
  /\ files w' = files w
  /\ loadtxt_log w' = loadtxt_log w
  /\ variabilityInitialized w' = variabilityInitialized w
  /\ variabilityLcCache w' = variabilityLcCache w
  /\ variabilityCache w' = variabilityCache w
  /\ variabilityDataDir w' = variabilityDataDir w.

(** A method that leaves the engine as it found it, and looks at nothing
    of it but the observation epochs. *)
Definition epochs_only {A} (m : M A) : Prop :=
  forall w w', Opsim_expmjd w = Opsim_expmjd w' -> m w = ((m w').1, w).

(** What applyStdPeriodic returns once the template is there (lines
    105-108). *)
Definition periodic_offsets (spl : gmap string interpolator) (per : value)
  (toff : R) (expmjd : ndarray) : result (gmap string ndarray) :=
  p ← py_num per;
  eval_splines spl (amap (fold_phase p) (amap (fun t => t - toff) expmjd)).

(** Line 118: every band negated. *)
Definition negate_bands (d : gmap string ndarray) : gmap string ndarray :=
  amap Ropp <$> d.

(** Line 137: every value of every band as a magnitude. *)
Definition to_magnitudes (d : gmap string ndarray) : gmap string ndarray :=
  amap (fun x => -2.5 * log10 x) <$> d.

(** The file applyMflare asks for (line 115): the name without its last
    five characters, under <<mflare/>> and with <<1.dat>> appended. *)
Definition mflare_file (name : string) : string :=
  "mflare/" +:+ drop_last5 name +:+ "1.dat".


(** The phase of an epoch lies between the first and the last sample of
    the normalised time axis. *)
Definition phase_in_template (L t0 tfirst tlast : R) (e : R) : Prop :=
  tfirst / L <= fold_phase L (e - t0) <= tlast / L.

End MoreNotions.

(** ** A small instance for the examples *)

(** A generator that accepts the seeds numpy accepts and draws the seed
    itself; a "spline" that is the constant 2. *)
Definition example_externals : Externals := {|
  rng_state := Z;
  random_seed := fun seed =>
    if decide (0 <= seed < 2 ^ 32)%Z then Some seed else None;
  random_normal := fun s n => (repeat (IZR s) n, (s + 1)%Z);
  random_normal_length := fun s n => repeat_length (IZR s) n;
  InterpolatedUnivariateSpline := fun _ _ => Ok (fun _ => 2);
  float_of_string := fun _ => None;
  int_of_string := fun _ => None;
|}.

Section Examples.
#[local] Existing Instance example_externals.

(** A template whose time axis starts at 1. *)
Definition example_lc : list (list R) :=
  [ [1; 2; 3];
    [10; 20; 30]; [11; 21; 31]; [12; 22; 32];
    [13; 23; 33]; [14; 24; 34]; [15; 25; 35] ].

(** A template whose time axis starts at 0. *)
Definition example_lc0 : list (list R) :=
  [ [0; 1; 2];
    [10; 20; 30]; [11; 21; 31]; [12; 22; 32];
    [13; 23; 33]; [14; 24; 34]; [15; 25; 35] ].

Definition example_files : gmap string (list (list R)) :=
  <["LightCurves/rr.dat" := example_lc0]>
    (<["LightCurves/lc.dat" := example_lc]> ∅).

(** An initialised engine with caching on and nothing cached yet. *)
Definition periodic_world : World := {|
  Opsim_expmjd := Array [59000; 59001];
  CAT_SHARE_DATA := Some "share";
  files := example_files;
  loadtxt_log := [];
  variabilityInitialized := true;
  variabilityLcCache := ∅;
  variabilityCache := true;
  variabilityDataDir := Some "LightCurves";
  rng := 0%Z;
|}.

Definition periodic_keymap : gmap string string :=
  <["t0" := "tStartMjd"]> (<["filename" := "filename"]> ∅).

Definition periodic_params : dict :=
  <["tStartMjd" := VNum 59000]> (<["filename" := VStr "lc.dat"]> ∅).

Definition periodic_params0 : dict :=
  <["tStartMjd" := VNum 59000]> (<["filename" := VStr "rr.dat"]> ∅).

(** One burst, at day 3652.5, decaying over 3652.5 days. *)
Definition amcvn_params : dict :=
  <["color_excess_during_burst" := VNum 1]>
    (<["amp_burst" := VNum 1]>
      (<["burst_scale" := VNum 3652.5]>
        (<["burst_freq" := VNum 3652.5]>
          (<["does_burst" := VBool true]>
            (<["period" := VNum 1]>
              (<["t0" := VNum 0]>
                (<["amplitude" := VNum 0.1]> ∅))))))).

Definition engine_at (expmjd : ndarray) : World := {|
  Opsim_expmjd := expmjd;
  CAT_SHARE_DATA := Some "share";
  files := example_files;
  loadtxt_log := [];
  variabilityInitialized := true;
  variabilityLcCache := ∅;
  variabilityCache := false;
  variabilityDataDir := Some "LightCurves";
  rng := 0%Z;
|}.

(** What the first periodic evaluation on [periodic_world] loads. *)
Definition example_period : R := 3 + (2 - 1).

Definition example_splines : gmap string interpolator :=
  match
    build_splines interp1d
      (map (fun x => x / example_period) [1; 2; 3] :: tail example_lc)
  with
  | Ok spl => spl
  | Raise _ => ∅
  end.

Definition loaded_world : World :=
  (load_template (VStr "lc.dat") VNone true None periodic_world).2.

(** An engine with a cached template of period 2. *)
Definition cached_world : World := {|
  Opsim_expmjd := Array [59000; 59001.5];
  CAT_SHARE_DATA := Some "share";
  files := ∅;
  loadtxt_log := [];
  variabilityInitialized := true;
  variabilityLcCache :=
    <["lc.dat" := {| splines := six_bands (fun t => Ok (10 * t));
                     period := VNum 2 |}]> ∅;
  variabilityCache := true;
  variabilityDataDir := Some "LightCurves";
  rng := 0%Z;
|}.

Definition lens_params : dict :=
  <["that" := VNum 10]> (<["umin" := VNum 0.5]> (<["t0" := VNum 59000]> ∅)).

Definition bh_params : dict :=
  <["t0" := VNum 0]> (<["filename" := VStr "lc.dat"]> ∅).

Definition agn_example_params : dict :=
  <["agn_tau" := VNum 100]>
    (<["agn_sfy" := VNum 0.1]>
      (<["agn_sfz" := VNum 0.2]>
        (<["agn_sfi" := VNum 0.3]>
          (<["agn_sfr" := VNum 0.4]>
            (<["agn_sfg" := VNum 0.5]>
              (<["agn_sfu" := VNum 0.6]>
                (<["seed" := VNum 42]>
                  (<["t0_mjd" := VNum 59000]> ∅)))))))).

(** The same epochs on an engine with another generator state, caching on
    and a template cached. *)
Definition other_engine_at (expmjd : ndarray) : World := {|
  Opsim_expmjd := expmjd;
  CAT_SHARE_DATA := None;
  files := ∅;
  loadtxt_log := ["LightCurves/lc.dat"];
  variabilityInitialized := true;
  variabilityLcCache := variabilityLcCache cached_world;
  variabilityCache := true;
  variabilityDataDir := Some "LightCurves";
  rng := 7%Z;
|}.

(** The entry of [adds] at day 10957.5, two decay scales after the one
    burst. *)
Definition outburst_add : R :=
  let tmp := burst_tmp 3652.5 (0 + 3652.5) 10957.5 in
  0 - 1 * tmp * (if Rlt_dec tmp 1.0 then 1 else 0).

End Examples.

(** ** More engines and commands for the examples *)

Section MoreExamples.
#[local] Existing Instance example_externals.

(** An engine nobody has initialised, in an environment that has
    CAT_SHARE_DATA. *)
Definition fresh_engine : World := {|
  Opsim_expmjd := Array [59000; 59001];
  CAT_SHARE_DATA := Some "share";
  files := example_files;
  loadtxt_log := [];
  variabilityInitialized := false;
  variabilityLcCache := ∅;
  variabilityCache := false;
  variabilityDataDir := None;
  rng := 0%Z;
|}.

(** The same in an environment without CAT_SHARE_DATA. *)
Definition bare_engine : World := {|
  Opsim_expmjd := Array [59000; 59001];
  CAT_SHARE_DATA := None;
  files := example_files;
  loadtxt_log := [];
  variabilityInitialized := false;
  variabilityLcCache := ∅;
  variabilityCache := false;
  variabilityDataDir := None;
  rng := 0%Z;
|}.

(** A flare template sampled at 0, 1 and 2 days, for a flare of 4 days. *)
Definition mflare_files : gmap string (list (list R)) :=
  <["LightCurves/mflare/flare1.dat" := example_lc0]> ∅.

Definition mflare_params : dict :=
  <["length" := VNum 4]>
    (<["t0" := VNum 59000]> (<["lcfilename" := VStr "flare3.dat"]> ∅)).

(** An initialised engine that observes at the given epochs and has the
    flare template on disk. *)
Definition mflare_engine_at (expmjd : ndarray) : World := {|
  Opsim_expmjd := expmjd;
  CAT_SHARE_DATA := Some "share";
  files := mflare_files;
  loadtxt_log := [];
  variabilityInitialized := true;
  variabilityLcCache := ∅;
  variabilityCache := false;
  variabilityDataDir := Some "LightCurves";
  rng := 0%Z;
|}.

Definition cepheid_params : dict :=
  <["t0" := VNum 59000]> (<["lcfile" := VStr "lc.dat"]> ∅).

Definition missing_file_params : dict :=
  <["tStartMjd" := VNum 59000]> (<["filename" := VStr "nofile.dat"]> ∅).

(** An AM CVn system that does not burst. *)
Definition quiet_amcvn_params : dict :=
  <["does_burst" := VBool false]>
    (<["period" := VNum 2]>
      (<["t0" := VNum 0]> (<["amplitude" := VNum 0.1]> ∅))).

(** An AGN command without its amplitudes. *)
Definition agn_partial_params : dict :=
  <["seed" := VNum 42]> (<["t0_mjd" := VNum 59000]> ∅).

End MoreExamples.

(** * Properties *)

(** ** Results, lists and arrays *)

Lemma traverse_length {A B} (f : A -> result B) (l : list A) (bs : list B) :
  traverse f l = Ok bs -> length bs = length l.
Proof.
  revert bs. induction l as [|a l IH]; intros bs; simpl.
  - intros [= <-]. reflexivity.
  - destruct (f a) as [b|e]; [|discriminate].
    destruct (traverse f l) as [bs'|e]; [|discriminate].
    intros [= <-]. simpl. f_equal. apply IH. reflexivity.
Qed.

Lemma traverse_pointwise {A B} (f : A -> result B) (g : A -> B)
  (l : list A) :
  Forall (fun a => f a = Ok (g a)) l -> traverse f l = Ok (map g l).
Proof.
  induction 1 as [|a l Ha _ IH]; simpl; [reflexivity|].
  rewrite Ha, IH. reflexivity.
Qed.

Lemma traverse_lookup {A B} (f : A -> result B) (l : list A) (bs : list B)
  (i : nat) (b : B) :
  traverse f l = Ok bs -> bs !! i = Some b ->
  exists a, l !! i = Some a /\ f a = Ok b.
Proof.
  revert bs i. induction l as [|a l IH]; intros bs i; simpl.
  - intros [= <-]. rewrite lookup_nil. discriminate.
  - destruct (f a) as [b0|e] eqn:Hfa; [|discriminate].
    destruct (traverse f l) as [bs'|e]; [|discriminate].
    intros [= <-]. destruct i as [|i]; simpl.
    + intros [= <-]. eauto.
    + intros Hi. eapply IH; eauto.
Qed.

Lemma asize_amap (f : R -> R) (a : ndarray) : asize (amap f a) = asize a.
Proof. destruct a; unfold asize; simpl; [reflexivity|]. apply length_map. Qed.

Lemma elems_amap (f : R -> R) (a : ndarray) :
  elems (amap f a) = map f (elems a).
Proof. destruct a; reflexivity. Qed.

Lemma amap_amap (f g : R -> R) (a : ndarray) :
  amap f (amap g a) = amap (fun x => f (g x)) a.
Proof. destruct a; simpl; [reflexivity|]. f_equal. apply map_map. Qed.

Lemma amap_ext_in (f g : R -> R) (a : ndarray) :
  (forall x, In x (elems a) -> f x = g x) -> amap f a = amap g a.
Proof.
  destruct a as [x|xs]; simpl; intros H.
  - f_equal. apply H. now left.
  - f_equal. apply map_ext_in. exact H.
Qed.

Lemma acall_asize (f : interpolator) (a b : ndarray) :
  acall f a = Ok b -> asize b = asize a.
Proof.
  destruct a as [x|xs]; simpl.
  - destruct (f x); simpl; [|discriminate]. intros [= <-]. reflexivity.
  - destruct (traverse f xs) as [bs|e] eqn:Ht; simpl; [|discriminate].
    intros [= <-]. unfold asize. simpl. eapply traverse_length; eauto.
Qed.

(** ** Real arithmetic *)

(** The decimal constants of the source, as fractions. *)
Lemma dec_1_0 : 1.0 = 1.
Proof. lra. Qed.

Lemma dec_2_0 : 2.0 = 2.
Proof. lra. Qed.

Lemma dec_4_0 : 4.0 = 4.
Proof. lra. Qed.

Lemma dec_0_5 : 0.5 = 1 / 2.
Proof. lra. Qed.

Lemma dec_2_5 : 2.5 = 5 / 2.
Proof. lra. Qed.

Lemma dec_365_25 : 365.25 = 1461 / 4.
Proof. lra. Qed.


Ltac decimals :=
  rewrite ?dec_1_0, ?dec_2_0, ?dec_4_0, ?dec_0_5, ?dec_2_5, ?dec_365_25 in *.

Lemma div_le_div (a b c d : R) :
  0 < b -> 0 < d -> a * d <= c * b -> a / b <= c / d.
Proof.
  intros Hb Hd H.
  replace (a / b) with (a * d / (b * d)) by (field; lra).
  replace (c / d) with (c * b / (b * d)) by (field; lra).
  unfold Rdiv. apply Rmult_le_compat_r; [|exact H].
  left. apply Rinv_0_lt_compat. nra.
Qed.

Lemma le_of_sqr_le (x y : R) : 0 <= x -> 0 < y -> x ^ 2 <= y ^ 2 -> x <= y.
Proof. intros. nra. Qed.

Lemma ln10_pos : 0 < ln 10.
Proof. rewrite <- ln_1. apply ln_increasing; lra. Qed.

(** [-2.5 * log10] turns a larger magnification into a smaller (brighter)
    offset. *)
Lemma dmag_antitone (m1 m2 : R) :
  0 < m1 -> m1 <= m2 -> -2.5 * log10 m2 <= -2.5 * log10 m1.
Proof.
  intros H1 H12. unfold log10.
  assert (Hln : ln m1 <= ln m2).
  { destruct H12 as [Hlt| ->]; [left; apply ln_increasing; lra|lra]. }
  pose proof ln10_pos as H10.
  assert (ln m1 / ln 10 <= ln m2 / ln 10).
  { unfold Rdiv. apply Rmult_le_compat_r; [|exact Hln].
    left. now apply Rinv_0_lt_compat. }
  lra.
Qed.

Lemma truncate_IZR (z : Z) : truncate (IZR z) = z.
Proof.
  unfold truncate. destruct (Rle_dec 0 (IZR z)).
  - apply ZfloorZ.
  - unfold Zceil. rewrite <- opp_IZR, ZfloorZ. lia.
Qed.

(** ** Phase folding (line 105) *)

Lemma fold_phase_range (P e : R) : 0 <= fold_phase P e < 1.
Proof.
  unfold fold_phase, floor_divide.
  pose proof (Zfloor_bound (e / P)). lra.
Qed.

Lemma fold_phase_shift (P e : R) (k : Z) :
  P <> 0 -> fold_phase P (e + IZR k * P) = fold_phase P e.
Proof.
  intros HP. unfold fold_phase, floor_divide.
  replace ((e + IZR k * P) / P) with (e / P + IZR k) by (field; exact HP).
  rewrite Zfloor_addz, plus_IZR. lra.
Qed.

(** ** The lens geometry (lines 144-146 and 196-199) *)

Lemma lens_u_pos (umin that e : R) : umin <> 0 -> 0 < lens_u umin that e.
Proof.
  intros Hu. unfold lens_u. apply sqrt_lt_R0.
  assert (0 < umin ^ 2) by nra.
  pose proof (pow2_ge_0 (2.0 * e / that)). lra.
Qed.

Lemma lens_u_min (umin that e : R) :
  lens_u umin that 0 <= lens_u umin that e.
Proof.
  unfold lens_u. apply sqrt_le_1_alt.
  replace (2.0 * 0 / that) with 0 by (unfold Rdiv; ring).
  pose proof (pow2_ge_0 (2.0 * e / that)). lra.
Qed.

Lemma lens_u_sym (umin that e : R) :
  lens_u umin that (- e) = lens_u umin that e.
Proof. unfold lens_u. f_equal. unfold Rdiv. ring. Qed.

Lemma sqrt_u4_pos (u : R) : 0 < sqrt (u ^ 2 + 4.0).
Proof. apply sqrt_lt_R0. pose proof (pow2_ge_0 u). lra. Qed.

Lemma sqrt_u4_sqr (u : R) : sqrt (u ^ 2 + 4.0) ^ 2 = u ^ 2 + 4.0.
Proof.
  rewrite <- Rsqr_pow2. apply Rsqr_sqrt. pose proof (pow2_ge_0 u). lra.
Qed.

Lemma magnification_Microlens_pos (u : R) :
  0 < u -> 0 < magnification_Microlens u.
Proof.
  intros Hu. unfold magnification_Microlens.
  pose proof (sqrt_u4_pos u). apply Rdiv_lt_0_compat; nra.
Qed.

Lemma magnification_Microlensing_pos (u : R) :
  0 < u -> 0 < magnification_Microlensing u.
Proof.
  intros Hu. unfold magnification_Microlensing.
  pose proof (sqrt_u4_pos u). apply Rdiv_lt_0_compat; nra.
Qed.

Lemma magnification_Microlens_sqr (u : R) :
  0 < u ->
  magnification_Microlens u ^ 2 = 1 + 4 / (u ^ 2 * (u ^ 2 + 4.0)).
Proof.
  intros Hu. unfold magnification_Microlens.
  pose proof (sqrt_u4_pos u) as Hq. pose proof (sqrt_u4_sqr u) as Hq2.
  set (q := sqrt (u ^ 2 + 4.0)) in *.
  replace (((u ^ 2 + 2.0) / (u * q)) ^ 2)
    with ((u ^ 2 + 2.0) ^ 2 / (u ^ 2 * q ^ 2)) by (field; lra).
  rewrite Hq2. decimals. field. nra.
Qed.

(** The point-lens magnification decreases with the separation [u]. *)
Lemma magnification_Microlens_antitone (u1 u2 : R) :
  0 < u1 -> u1 <= u2 ->
  magnification_Microlens u2 <= magnification_Microlens u1.
Proof.
  intros H1 H12.
  apply le_of_sqr_le.
  - left. apply magnification_Microlens_pos. lra.
  - now apply magnification_Microlens_pos.
  - rewrite !magnification_Microlens_sqr by lra.
    assert (4 / (u2 ^ 2 * (u2 ^ 2 + 4.0)) <= 4 / (u1 ^ 2 * (u1 ^ 2 + 4.0))).
    { assert (0 < u1 ^ 2) by nra. assert (u1 ^ 2 <= u2 ^ 2) by nra.
      apply div_le_div; nra. }
    lra.
Qed.

Lemma magnification_Microlensing_antitone (u1 u2 : R) :
  0 < u1 -> u1 <= u2 ->
  magnification_Microlensing u2 <= magnification_Microlensing u1.
Proof.
  intros H1 H12. unfold magnification_Microlensing.
  pose proof (sqrt_u4_pos u1) as Hq1. pose proof (sqrt_u4_pos u2) as Hq2.
  assert (Hq : sqrt (u1 ^ 2 + 4.0) <= sqrt (u2 ^ 2 + 4.0)).
  { apply sqrt_le_1_alt. nra. }
  set (q1 := sqrt (u1 ^ 2 + 4.0)) in *. set (q2 := sqrt (u2 ^ 2 + 4.0)) in *.
  apply div_le_div; [nra|nra|].
  (* (u2+2) u1 q1 <= (u1+2) u2 q1 <= (u1+2) u2 q2 *)
  assert ((u2 + 2.0) * u1 <= (u1 + 2.0) * u2) by nra.
  assert (0 <= (u1 + 2.0) * u2) by nra.
  nra.
Qed.

(** ** Minimum, maximum, samples and linear interpolation *)

Lemma fold_left_Rmin_spec (l : list R) (x : R) :
  let m := fold_left Rmin l x in
  (m = x \/ In m l) /\ m <= x /\ forall y, In y l -> m <= y.
Proof.
  revert x. induction l as [|a l IH]; intros x; simpl.
  - split; [now left|]. split; [lra|]. intros y [].
  - destruct (IH (Rmin x a)) as (Hin & Hle & Hall).
    split; [|split].
    + destruct Hin as [Heq|Hin]; [|now right; right].
      rewrite Heq. unfold Rmin. destruct (Rle_dec x a); [now left|].
      right. now left.
    + pose proof (Rmin_l x a). lra.
    + intros y [<-|Hy]; [|now apply Hall].
      pose proof (Rmin_r x a). lra.
Qed.

Lemma fold_left_Rmax_spec (l : list R) (x : R) :
  let m := fold_left Rmax l x in
  (m = x \/ In m l) /\ x <= m /\ forall y, In y l -> y <= m.
Proof.
  revert x. induction l as [|a l IH]; intros x; simpl.
  - split; [now left|]. split; [lra|]. intros y [].
  - destruct (IH (Rmax x a)) as (Hin & Hle & Hall).
    split; [|split].
    + destruct Hin as [Heq|Hin]; [|now right; right].
      rewrite Heq. unfold Rmax. destruct (Rle_dec x a); [|now left].
      right. now left.
    + pose proof (Rmax_l x a). lra.
    + intros y [<-|Hy]; [|now apply Hall].
      pose proof (Rmax_r x a). lra.
Qed.

Lemma list_min_spec (l : list R) (m : R) :
  list_min l = Some m -> In m l /\ forall y, In y l -> m <= y.
Proof.
  destruct l as [|x l]; [discriminate|]. intros [= <-].
  destruct (fold_left_Rmin_spec l x) as (Hin & Hle & Hall). split.
  - destruct Hin as [->|Hin]; [now left|now right].
  - intros y [<-|Hy]; [exact Hle|now apply Hall].
Qed.

Lemma list_max_spec (l : list R) (m : R) :
  list_max l = Some m -> In m l /\ forall y, In y l -> y <= m.
Proof.
  destruct l as [|x l]; [discriminate|]. intros [= <-].
  destruct (fold_left_Rmax_spec l x) as (Hin & Hle & Hall). split.
  - destruct Hin as [->|Hin]; [now left|now right].
  - intros y [<-|Hy]; [exact Hle|now apply Hall].
Qed.

Lemma list_min_None (l : list R) : list_min l = None -> l = [].
Proof. destruct l; [reflexivity|discriminate]. Qed.

Lemma list_max_is_Some (l : list R) (m : R) :
  list_min l = Some m -> exists m', list_max l = Some m'.
Proof. destruct l; [discriminate|]. intros _. simpl. eauto. Qed.

Lemma linspace_length (start stop : R) (num : nat) :
  length (linspace start stop num) = num.
Proof.
  destruct num as [|[|n]]; [reflexivity..|].
  unfold linspace. now rewrite length_map, length_seq.
Qed.

(** The grid of [n + 1] samples over [[0, stop]], [n >= 1]: it starts at 0
    and ends at [stop]. *)
Lemma linspace_ends (stop : R) (n : nat) :
  (1 <= n)%nat ->
  head (linspace 0 stop (S n)) = Some 0
  /\ last (linspace 0 stop (S n)) = Some stop.
Proof.
  intros Hn. destruct n as [|n]; [lia|]. unfold linspace. split.
  - simpl. f_equal. ring.
  - rewrite seq_S, map_app. cbn [map]. rewrite last_snoc. f_equal.
    simpl (0 + S n)%nat.
    assert (INR (S n) <> 0) by (apply not_0_INR; lia).
    field. assumption.
Qed.

Lemma linear_eval_step (x0 x1 y0 y1 : R) (xs ys : list R) (t : R) :
  linear_eval (x0 :: x1 :: xs) (y0 :: y1 :: ys) t
  = if Rle_dec t x1 then Some ((y1 - y0) / (x1 - x0) * (t - x0) + y0)
    else linear_eval (x1 :: xs) (y1 :: ys) t.
Proof. reflexivity. Qed.

Lemma linear_eval_is_Some (xs ys : list R) (t hi : R) :
  length xs = length ys -> (2 <= length xs)%nat ->
  last xs = Some hi -> t <= hi ->
  exists v, linear_eval xs ys t = Some v.
Proof.
  revert ys. induction xs as [|x0 xs IH]; intros ys Hlen H2 Hlast Ht.
  - simpl in H2. lia.
  - destruct xs as [|x1 xs]; [simpl in H2; lia|].
    destruct ys as [|y0 [|y1 ys]]; [discriminate..|].
    rewrite linear_eval_step. destruct (Rle_dec t x1) as [|Hgt]; [eauto|].
    rewrite last_cons_cons in Hlast.
    destruct xs as [|x2 xs].
    + simpl in Hlast. injection Hlast as ->. lra.
    + apply IH; [simpl in *; lia|simpl; lia|exact Hlast|exact Ht].
Qed.

(** Inside its knots a linear interpolator returns. *)
Lemma interp1d_in_range (xs ys : list R) (lo hi : R) :
  length xs = length ys -> (2 <= length xs)%nat ->
  head xs = Some lo -> last xs = Some hi ->
  exists f, interp1d xs ys = Ok f
            /\ forall t, lo <= t <= hi -> exists v, f t = Ok v.
Proof.
  intros Hlen H2 Hhead Hlast. unfold interp1d.
  rewrite <- Hlen, Nat.eqb_refl. cbn [negb].
  destruct (length xs <? 2)%nat eqn:Hlt; [apply Nat.ltb_lt in Hlt; lia|].
  eexists. split; [reflexivity|]. intros t [Hlo Hhi]. cbv beta.
  destruct (linear_eval_is_Some xs ys t hi Hlen H2 Hlast Hhi) as [v Hv].
  exists v. rewrite Hhead, Hlast.
  destruct (Rlt_dec t lo); [lra|]. destruct (Rlt_dec hi t); [lra|].
  rewrite Hv. reflexivity.
Qed.

(** A linear interpolator raises nothing but [ValueError]. *)
Lemma interp1d_raises (xs ys : list R) (f : interpolator) (t : R) (e : exn) :
  interp1d xs ys = Ok f -> f t = Raise e -> e = ValueError.
Proof.
  unfold interp1d.
  destruct (negb _); [discriminate|]. destruct (_ <? _)%nat; [discriminate|].
  intros [= <-]. cbv beta.
  destruct (head xs), (last xs); try congruence.
  destruct (Rlt_dec t r); [congruence|].
  destruct (Rlt_dec r0 t); [congruence|].
  destruct (linear_eval xs ys t); simpl; congruence.
Qed.

Lemma interp1d_build_raises (xs ys : list R) (e : exn) :
  interp1d xs ys = Raise e -> e = ValueError.
Proof.
  unfold interp1d.
  destruct (negb _); [congruence|]. destruct (_ <? _)%nat; congruence.
Qed.

Lemma traverse_raises {A B} (f : A -> result B) (l : list A) (e : exn) :
  traverse f l = Raise e -> exists a, In a l /\ f a = Raise e.
Proof.
  induction l as [|a l IH]; simpl; [discriminate|].
  destruct (f a) as [b|e'] eqn:Hfa.
  - destruct (traverse f l) as [bs|e']; [discriminate|].
    intros [= <-]. destruct (IH eq_refl) as (a' & Hin & Ha'). eauto.
  - intros [= <-]. eauto.
Qed.

Lemma traverse_all_Ok {A B} (f : A -> result B) (l : list A) :
  (forall a, In a l -> exists b, f a = Ok b) ->
  exists bs, traverse f l = Ok bs.
Proof.
  induction l as [|a l IH]; intros H; simpl; [eauto|].
  destruct (H a) as [b ->]; [now left|].
  destruct IH as [bs ->]; [intros; apply H; now right|]. eauto.
Qed.

Lemma acall_raises (f : interpolator) (a : ndarray) (e : exn) :
  acall f a = Raise e -> exists x, In x (elems a) /\ f x = Raise e.
Proof.
  destruct a as [x|xs]; simpl.
  - destruct (f x) eqn:Hfx; simpl; [discriminate|].
    intros [= <-]. exists x. split; [now left|exact Hfx].
  - destruct (traverse f xs) eqn:Ht; simpl; [discriminate|].
    intros [= <-]. now apply traverse_raises.
Qed.

Lemma acall_all_Ok (f : interpolator) (a : ndarray) :
  (forall x, In x (elems a) -> exists v, f x = Ok v) ->
  exists b, acall f a = Ok b.
Proof.
  destruct a as [x|xs]; simpl; intros H.
  - destruct (H x) as [v ->]; [now left|]. simpl. eauto.
  - destruct (traverse_all_Ok f xs H) as [bs ->]. simpl. eauto.
Qed.

(** ** Running a method step by step *)

Section MonadSteps.
Context `{Ext : Externals}.

Lemma bind_gets {A B} (f : World -> A) (k : A -> M B) (w : World) :
  (gets f ≫= k) w = k (f w) w.
Proof. reflexivity. Qed.

Lemma bind_lift_Ok {A B} (r : result A) (a : A) (k : A -> M B) (w : World) :
  r = Ok a -> (lift r ≫= k) w = k a w.
Proof. intros ->. reflexivity. Qed.

Lemma bind_lift_Raise {A B} (r : result A) (e : exn) (k : A -> M B)
  (w : World) :
  r = Raise e -> (lift r ≫= k) w = (Raise e, w).
Proof. intros ->. reflexivity. Qed.

Lemma bind_modify {B} (f : World -> World) (k : unit -> M B) (w : World) :
  (modify f ≫= k) w = k tt (f w).
Proof. reflexivity. Qed.

Lemma getitem_Some {V} (d : gmap string V) (k : string) (v : V) :
  d !! k = Some v -> getitem d k = Ok v.
Proof. intros H. unfold getitem. now rewrite H. Qed.

End MonadSteps.

(** ** The template store (lines 71-103) *)

Section Periodic.
Context `{Ext : Externals}.

Ltac unfold_M :=
  unfold mbind, M_bind, mret, M_ret, result_bind, result_ret,
         lift, raise, gets, modify in *.

(** A cached file identity is served from the cache: nothing is read,
    nothing is built, the world is as before, and [inPeriod], [inDays] and
    [interpFactory] are not looked at. *)
Lemma load_template_hit (w : World) (f : string) (t : template)
  (inPeriod : value) (inDays : bool) (interpFactory : option factory) :
  variabilityInitialized w = true ->
  variabilityLcCache w !! f = Some t ->
  load_template (VStr f) inPeriod inDays interpFactory w
  = (Ok (splines t, period t), w).
Proof.
  intros Hi Hc. unfold load_template, self_variabilityLcCache. unfold_M.
  rewrite Hi, Hc. reflexivity.
Qed.

Lemma load_template_miss (w : World) (f dir : string)
  (inPeriod : value) (inDays : bool) (interpFactory : option factory) :
  variabilityInitialized w = true ->
  variabilityLcCache w !! f = None ->
  variabilityDataDir w = Some dir ->
  let path := dir +:+ "/" +:+ f in
  let w1 := set_loadtxt_log (path :: loadtxt_log w) w in
  load_template (VStr f) inPeriod inDays interpFactory w
  = match fresh_template inPeriod inDays interpFactory (files w !! path) with
    | Ok (spl, per) =>
        (Ok (spl, per),
         if variabilityCache w
         then set_variabilityLcCache
                (<[f := {| splines := spl; period := per |}]>
                   (variabilityLcCache w)) w1
         else w1)
    | Raise e => (Raise e, w1)
    end.
Proof.
  intros Hi Hc Hd path w1.
  unfold load_template, fresh_template, self_variabilityLcCache,
    self_variabilityDataDir, self_variabilityCache, loadtxt.
  unfold_M. rewrite Hi, Hc, Hd. simpl. fold path. fold w1.
  destruct (files w !! path) as [lc|]; simpl; [|reflexivity].
  destruct (template_period inPeriod lc) as [per|e]; simpl; [|reflexivity].
  destruct (normalize_axis inDays per lc) as [lc'|e]; simpl; [|reflexivity].
  destruct (build_splines (default interp1d interpFactory) lc')
    as [spl|e]; simpl; [|reflexivity].
  rewrite Hi. destruct (variabilityCache w); reflexivity.
Qed.

(** The period inferred from the time axis [t] of the file. *)
Lemma template_period_inferred (t : list R) (cols : list (list R))
  (t0 t1 tlast : R) :
  t !! 0%nat = Some t0 -> t !! 1%nat = Some t1 -> last t = Some tlast ->
  template_period VNone (t :: cols) = Ok (VNum (tlast + (t1 - t0))).
Proof.
  intros H0 H1 Hl. unfold template_period, index, index_last.
  simpl. rewrite H1. simpl. rewrite H0. simpl. rewrite Hl. reflexivity.
Qed.

Lemma normalize_axis_num (inDays : bool) (P : R) (t : list R)
  (cols : list (list R)) :
  normalize_axis inDays (VNum P) (t :: cols)
  = Ok ((if inDays then map (fun x => x / P) t else t) :: cols).
Proof. destruct inDays; reflexivity. Qed.

(** [applyStdPeriodic], step by step. *)
Lemma applyStdPeriodic_unfold (params : dict) (keymap : gmap string string)
  (inPeriod : value) (inDays : bool) (interpFactory : option factory)
  (w : World) :
  applyStdPeriodic params keymap inPeriod inDays interpFactory w
  = match (k ← getitem keymap "filename"; getitem params k) with
    | Raise e => (Raise e, w)
    | Ok filename =>
        match (k ← getitem keymap "t0"; v ← getitem params k; py_float v) with
        | Raise e => (Raise e, w)
        | Ok toff =>
            match load_template filename inPeriod inDays interpFactory w with
            | (Raise e, w') => (Raise e, w')
            | (Ok (spl, per), w') =>
                (p ← py_num per;
                 eval_splines spl
                   (amap (fold_phase p)
                      (amap (fun t => t - toff) (Opsim_expmjd w))), w')
            end
        end
    end.
Proof.
  unfold applyStdPeriodic. unfold_M. simpl.
  destruct (match getitem keymap "filename" with
            | Ok a => getitem params a | Raise e => Raise e end);
    [|reflexivity].
  destruct (match getitem keymap "t0" with
            | Ok a => match getitem params a with
                      | Ok a0 => py_float a0 | Raise e => Raise e end
            | Raise e => Raise e end); [|reflexivity].
  destruct (load_template _ _ _ _ w) as [[[spl per]|e] w']; [|reflexivity].
  destruct (py_num per); reflexivity.
Qed.

(** The template does not depend on the observation epochs. *)
Lemma load_template_observe (a : ndarray) (w : World) (filename : value)
  (inPeriod : value) (inDays : bool) (interpFactory : option factory) :
  load_template filename inPeriod inDays interpFactory (set_Opsim_expmjd a w)
  = let r := load_template filename inPeriod inDays interpFactory w in
    (r.1, set_Opsim_expmjd a r.2).
Proof.
  unfold load_template, self_variabilityLcCache, self_variabilityDataDir,
    self_variabilityCache, loadtxt.
  unfold_M. cbn.
  destruct (variabilityInitialized w) eqn:Hi; cbn; [|reflexivity].
  destruct (match filename with
            | VStr f => variabilityLcCache w !! f | _ => None end);
    cbn; [reflexivity|].
  destruct (variabilityDataDir w); cbn; [|reflexivity].
  destruct (py_str filename); cbn; [|reflexivity].
  destruct (files w !! _); cbn; [|reflexivity].
  destruct (template_period inPeriod _); cbn; [|reflexivity].
  destruct (normalize_axis inDays _ _); cbn; [|reflexivity].
  destruct (build_splines _ _); cbn; [|reflexivity].
  rewrite Hi. cbn. destruct (variabilityCache w); reflexivity.
Qed.

End Periodic.

(** ** How the methods change the engine *)

Section Frames.
Context `{Ext : Externals}.

Ltac unfold_M :=
  unfold mbind, M_bind, mret, M_ret, result_bind, result_ret,
         lift, raise, gets, modify in *.

Lemma elem_of_band_labels (b : string) :
  b ∈ band_labels
  <-> b = "u" \/ b = "g" \/ b = "r" \/ b = "i" \/ b = "z" \/ b = "y".
Proof. unfold band_labels. set_unfold. tauto. Qed.

Lemma dom_six_inserts {A} (u g r i z y : A) :
  dom (<["y" := y]> (<["z" := z]> (<["i" := i]> (<["r" := r]>
         (<["g" := g]> (<["u" := u]> (∅ : gmap string A)))))))
  = band_labels.
Proof.
  rewrite !dom_insert_L, dom_empty_L. unfold band_labels. simpl.
  set_solver.
Qed.

Lemma dom_six_bands {A} (a : A) : dom (six_bands a) = band_labels.
Proof. apply dom_six_inserts. Qed.

Lemma six_bands_lookup {A} (a b : A) (k : string) :
  six_bands a !! k = Some b -> b = a.
Proof.
  unfold six_bands. intros H.
  repeat (apply lookup_insert_Some in H as [[_ H]|[_ H]]; [congruence|]).
  rewrite lookup_empty in H. discriminate.
Qed.

Lemma build_splines_dom (mk : factory) (lc : list (list R))
  (spl : gmap string interpolator) :
  build_splines mk lc = Ok spl -> dom spl = band_labels.
Proof.
  unfold build_splines. unfold_M. intros H.
  repeat match type of H with
         | match ?x with _ => _ end = _ =>
             destruct x; [|discriminate]
         end.
  injection H as <-. apply dom_six_inserts.
Qed.

Lemma evolves_refl (w : World) : evolves w w.
Proof. intros Hi. repeat split; auto. Qed.

Lemma evolves_trans (w1 w2 w3 : World) :
  evolves w1 w2 -> evolves w2 w3 -> evolves w1 w3.
Proof.
  intros H12 H23 Hi.
  destruct (H12 Hi) as (Hi2 & Hc2 & Hd2 & Hk2 & Hn2 & Hf2).
  destruct (H23 Hi2) as (Hi3 & Hc3 & Hd3 & Hk3 & Hn3 & Hf3).
  split; [exact Hi3|]. split; [congruence|]. split; [congruence|].
  split; [auto|]. split.
  - intros Hoff. rewrite Hn3, Hn2; congruence.
  - intros f t H3. destruct (Hf3 f t H3) as [H2|Hok]; [|now right].
    apply Hf2. exact H2.
Qed.

(** A change that leaves the four engine attributes alone. *)
Lemma evolves_same_engine (w w' : World) :
  variabilityInitialized w' = variabilityInitialized w ->
  variabilityCache w' = variabilityCache w ->
  variabilityDataDir w' = variabilityDataDir w ->
  variabilityLcCache w' = variabilityLcCache w ->
  evolves w w'.
Proof.
  intros Hi Hc Hd Hk Hinit. rewrite Hi, Hc, Hd, Hk. repeat split; auto.
Qed.

Lemma preserves_ret {A} (a : A) : preserves (mret a).
Proof. intros w. apply evolves_refl. Qed.

Lemma preserves_lift {A} (r : result A) : preserves (lift r).
Proof. intros w. apply evolves_refl. Qed.

Lemma preserves_raise {A} (e : exn) : preserves (raise e : M A).
Proof. intros w. apply evolves_refl. Qed.

Lemma preserves_gets {A} (f : World -> A) : preserves (gets f).
Proof. intros w. apply evolves_refl. Qed.

Lemma preserves_bind {A B} (m : M A) (k : A -> M B) :
  preserves m -> (forall a, preserves (k a)) -> preserves (m ≫= k).
Proof.
  intros Hm Hk w. unfold_M. specialize (Hm w).
  destruct (m w) as [[a|e] w1]; cbn in *; [|exact Hm].
  eapply evolves_trans; [exact Hm|apply Hk].
Qed.

Lemma preserves_set_rng (g : rng_state) : preserves (modify (set_rng g)).
Proof. intros w. apply evolves_same_engine; reflexivity. Qed.

Lemma preserves_loadtxt (path : string) : preserves (loadtxt path).
Proof. intros w. apply evolves_same_engine; reflexivity. Qed.

Lemma preserves_self_variabilityDataDir : preserves self_variabilityDataDir.
Proof. intros w. apply evolves_refl. Qed.

Lemma preserves_load_template (filename inPeriod : value) (inDays : bool)
  (interpFactory : option factory) :
  preserves (load_template filename inPeriod inDays interpFactory).
Proof.
  intros w.
  destruct (variabilityInitialized w) eqn:Hi;
    [|intros H; rewrite Hi in H; discriminate].
  destruct (match filename with
            | VStr f => variabilityLcCache w !! f | _ => None end)
    as [t|] eqn:Hlook.
  - (* a hit *)
    destruct filename as [| | |f]; try discriminate.
    rewrite (load_template_hit w f t) by assumption.
    apply evolves_refl.
  - destruct (variabilityDataDir w) as [dir|] eqn:Hd;
      [destruct filename as [| | |f]|].
    4: { (* a miss *)
      rewrite (load_template_miss w f dir) by assumption. cbv zeta.
      destruct (fresh_template _ _ _ _) as [[spl per]|e] eqn:Hfresh.
      2: { now apply (evolves_same_engine w). }
      destruct (variabilityCache w) eqn:Hc; cbn [snd].
      2: { now apply (evolves_same_engine w). }
      intros _. cbn. rewrite Hc, Hd. repeat split; auto.
      - intros f' t Hf'. rewrite lookup_insert_ne; [exact Hf'|].
        intros <-. congruence.
      - discriminate.
      - intros f' t [[<- <-]|[_ H]]%lookup_insert_Some; [right|now left].
        cbn. unfold fresh_template in Hfresh. unfold_M.
        repeat match type of Hfresh with
               | match ?x with _ => _ end = _ =>
                   destruct x eqn:?; [|discriminate]
               end.
        injection Hfresh as <- <-. eapply build_splines_dom; eauto. }
    all: unfold load_template, self_variabilityLcCache,
           self_variabilityDataDir; unfold_M; cbn;
         rewrite Hi, ?Hlook, ?Hd; cbn; apply evolves_refl.
Qed.

Lemma preserves_applyStdPeriodic (params : dict) (keymap : gmap string string)
  (inPeriod : value) (inDays : bool) (interpFactory : option factory) :
  preserves (applyStdPeriodic params keymap inPeriod inDays interpFactory).
Proof.
  intros w. rewrite applyStdPeriodic_unfold.
  destruct (_ ← getitem keymap "filename"; _) as [filename|e];
    [|apply evolves_refl].
  destruct (_ ← getitem keymap "t0"; _) as [toff|e]; [|apply evolves_refl].
  pose proof (preserves_load_template filename inPeriod inDays
                interpFactory w) as H.
  destruct (load_template _ _ _ _ w) as [[[spl per]|e] w']; exact H.
Qed.

Ltac preserves_tac :=
  repeat first
    [ apply preserves_ret
    | apply preserves_lift
    | apply preserves_raise
    | apply preserves_gets
    | apply preserves_set_rng
    | apply preserves_loadtxt
    | apply preserves_self_variabilityDataDir
    | apply preserves_applyStdPeriodic
    | apply preserves_bind; [|intros]
    | match goal with
      | |- preserves (match ?x with _ => _ end) => destruct x
      | |- preserves (let '(_, _) := ?x in _) => destruct x
      end ].

Lemma preserves_applyMflare params : preserves (applyMflare params).
Proof. unfold applyMflare. preserves_tac. Qed.

Lemma preserves_applyRRly params : preserves (applyRRly params).
Proof. unfold applyRRly. preserves_tac. Qed.

Lemma preserves_applyCepheid params : preserves (applyCepheid params).
Proof. unfold applyCepheid. preserves_tac. Qed.

Lemma preserves_applyEb params : preserves (applyEb params).
Proof. unfold applyEb. preserves_tac. Qed.

Lemma preserves_applyMicrolens params : preserves (applyMicrolens params).
Proof. unfold applyMicrolens. preserves_tac. Qed.

Lemma preserves_applyMicrolensing params :
  preserves (applyMicrolensing params).
Proof. unfold applyMicrolensing. preserves_tac. Qed.

Lemma preserves_applyAgn params : preserves (applyAgn params).
Proof. unfold applyAgn. preserves_tac. Qed.

Lemma preserves_applyAmcvn params : preserves (applyAmcvn params).
Proof. unfold applyAmcvn. preserves_tac. Qed.

Lemma preserves_applyBHMicrolens params :
  preserves (applyBHMicrolens params).
Proof. unfold applyBHMicrolens. preserves_tac. Qed.

End Frames.

(** ** The inferred period (lines 76-83 and 105) *)

Section PeriodicClaims.
Context `{Ext : Externals}.

(** C1 (as amended). On a miss of the template cache and without a period
    override, the period applyStdPeriodic infers is the last sample time
    plus the spacing of the first two samples; that period divides the time
    axis when [inDays] is set and folds the epochs into phases. It is the
    specification's (last - first) + spacing when the axis starts at 0. *)
Theorem inferred_period_is_last_plus_step
  (w : World) (f dir : string) (t : list R) (cols : list (list R))
  (t0 t1 tlast toff : R) (params : dict) (keymap : gmap string string)
  (inDays : bool) (interpFactory : option factory) :
  variabilityInitialized w = true ->
  variabilityLcCache w !! f = None ->
  variabilityDataDir w = Some dir ->
  files w !! (dir +:+ "/" +:+ f) = Some (t :: cols) ->
  t !! 0%nat = Some t0 -> t !! 1%nat = Some t1 -> last t = Some tlast ->
  (k ← getitem keymap "filename"; getitem params k) = Ok (VStr f) ->
  (k ← getitem keymap "t0"; v ← getitem params k; py_float v) = Ok toff ->
  let P := tlast + (t1 - t0) in
  let axis := if inDays then map (fun x => x / P) t else t in
  (load_template (VStr f) VNone inDays interpFactory w).1
  = (spl ← build_splines (default interp1d interpFactory) (axis :: cols);
     Ok (spl, VNum P))
  /\ (applyStdPeriodic params keymap VNone inDays interpFactory w).1
     = (spl ← build_splines (default interp1d interpFactory) (axis :: cols);
        eval_splines spl
          (amap (fold_phase P)
             (amap (fun x => x - toff) (Opsim_expmjd w))))
  /\ (t0 = 0 -> spec_inferred_period t = Some P).
Proof.
  intros Hi Hc Hd Hf H0 H1 Hl Hfn Htoff P axis.
  assert (Hload :
    (load_template (VStr f) VNone inDays interpFactory w).1
    = (spl ← build_splines (default interp1d interpFactory) (axis :: cols);
       Ok (spl, VNum P))).
  { rewrite (load_template_miss w f dir) by assumption. cbv zeta.
    unfold fresh_template. rewrite Hf. cbn [option_or_raise].
    unfold mbind at 1, result_bind at 1.
    rewrite (template_period_inferred t cols t0 t1 tlast) by assumption.
    unfold mbind at 1, result_bind at 1.
    rewrite normalize_axis_num. fold P. fold axis.
    unfold mbind, result_bind.
    destruct (build_splines _ _); [|reflexivity].
    destruct (variabilityCache w); reflexivity. }
  split; [exact Hload|]. split.
  - rewrite applyStdPeriodic_unfold, Hfn, Htoff.
    destruct (load_template (VStr f) VNone inDays interpFactory w)
      as [[[spl per]|e] w'] eqn:Hlt; cbn [fst] in *.
    + unfold mbind, result_bind in Hload |- *.
      destruct (build_splines _ _); [|discriminate].
      injection Hload as -> ->. reflexivity.
    + unfold mbind, result_bind in Hload |- *.
      destruct (build_splines _ _); [discriminate|].
      injection Hload as ->. reflexivity.
  - intros ->. unfold spec_inferred_period. rewrite H0, H1, Hl.
    f_equal. unfold P. lra.
Qed.

(** C4. The folded phase is epoch/period - floor(epoch/period), it lies in
    [0,1) for every real epoch, negative ones included, and it is the same
    at [epoch] and at [epoch + k period] for every integer [k]; so
    applyStdPeriodic returns the same per-band output when all epochs are
    moved by [k] periods. *)
Theorem phase_wraparound
  (w w' : World) (params : dict) (keymap : gmap string string)
  (inPeriod : value) (inDays : bool) (interpFactory : option factory)
  (filename per : value) (spl : gmap string interpolator) (P : R) (k : Z) :
  (n ← getitem keymap "filename"; getitem params n) = Ok filename ->
  load_template filename inPeriod inDays interpFactory w
    = (Ok (spl, per), w') ->
  py_num per = Ok P ->
  P <> 0 ->
  (forall e, fold_phase P e = e / P - IZR (Zfloor (e / P))
             /\ 0 <= fold_phase P e < 1
             /\ fold_phase P (e + IZR k * P) = fold_phase P e)
  /\ (applyStdPeriodic params keymap inPeriod inDays interpFactory
        (set_Opsim_expmjd
           (amap (fun t => t + IZR k * P) (Opsim_expmjd w)) w)).1
     = (applyStdPeriodic params keymap inPeriod inDays interpFactory w).1.
Proof.
  intros Hfn Hlt Hper HP. split.
  - intros e. split; [reflexivity|]. split.
    + apply fold_phase_range.
    + now apply fold_phase_shift.
  - rewrite !applyStdPeriodic_unfold, Hfn.
    destruct (n ← getitem keymap "t0"; v ← getitem params n; py_float v)
      as [toff|e]; [|reflexivity].
    rewrite load_template_observe, Hlt. cbn. rewrite Hper.
    unfold mbind, result_bind. f_equal.
    rewrite !amap_amap. apply amap_ext_in. intros x _.
    replace (x + IZR k * P - toff) with (x - toff + IZR k * P) by ring.
    now apply fold_phase_shift.
Qed.

End PeriodicClaims.

(** ** The template cache over the life of an engine *)

Section CacheClaims.
Context `{Ext : Externals}.

Ltac unfold_M :=
  unfold mbind, M_bind, mret, M_ret, result_bind, result_ret,
         lift, raise, gets, modify in *.

Lemma preserves_variabilityMethods (name : string)
  (m : dict -> M (gmap string ndarray)) (pars : dict) :
  variabilityMethods name = Some m -> preserves (m pars).
Proof.
  unfold variabilityMethods.
  repeat match goal with
         | |- (if ?b then _ else _) = _ -> _ => destruct b
         end;
    intros [= <-];
    auto using preserves_applyMflare, preserves_applyRRly,
      preserves_applyCepheid, preserves_applyEb, preserves_applyMicrolens,
      preserves_applyAgn, preserves_applyMicrolensing,
      preserves_applyAmcvn, preserves_applyBHMicrolens.
Qed.

Lemma preserves_applyVariability (name : string) (pars : dict) :
  preserves (applyVariability name pars).
Proof.
  intros w Hi. unfold applyVariability. unfold_M. cbn. rewrite Hi. cbn.
  destruct (variabilityMethods name) as [m|] eqn:Hm; cbn.
  - now apply (preserves_variabilityMethods name m pars).
  - now apply evolves_refl.
Qed.

Lemma step_evolves (w w' : World) : step w w' -> evolves w w'.
Proof.
  destruct 1.
  - apply preserves_applyStdPeriodic.
  - apply preserves_applyVariability.
  - apply evolves_same_engine; reflexivity.
  - apply evolves_same_engine; reflexivity.
Qed.

Lemma steps_evolves (w w' : World) : steps w w' -> evolves w w'.
Proof.
  induction 1 as [|w1 w2 w3 H12 _ IH]; [apply evolves_refl|].
  eapply evolves_trans; [apply step_evolves; exact H12|exact IH].
Qed.

Lemma evolves_cache_ok (w w' : World) :
  variabilityInitialized w = true ->
  evolves w w' -> cache_ok w -> cache_ok w'.
Proof.
  intros Hi Hev Hok f t Hf.
  destruct (Hev Hi) as (_ & _ & _ & _ & _ & Hnew).
  destruct (Hnew f t Hf) as [Hold|Hdom]; [eauto|exact Hdom].
Qed.

(** A successful load with caching on leaves the template in the cache. *)
Lemma load_template_cached (w w1 : World) (f : string)
  (inPeriod : value) (inDays : bool) (interpFactory : option factory)
  (spl : gmap string interpolator) (per : value) :
  variabilityCache w = true ->
  load_template (VStr f) inPeriod inDays interpFactory w
    = (Ok (spl, per), w1) ->
  variabilityInitialized w1 = true
  /\ variabilityLcCache w1 !! f = Some {| splines := spl; period := per |}.
Proof.
  intros Hc Hload.
  destruct (variabilityInitialized w) eqn:Hi.
  2: { unfold load_template, self_variabilityLcCache in Hload. unfold_M.
       rewrite Hi in Hload. discriminate. }
  destruct (variabilityLcCache w !! f) as [t|] eqn:Hlook.
  - rewrite (load_template_hit w f t) in Hload by assumption.
    injection Hload as <- <- <-. split; [exact Hi|]. now destruct t.
  - destruct (variabilityDataDir w) as [dir|] eqn:Hd.
    2: { unfold load_template, self_variabilityLcCache,
           self_variabilityDataDir in Hload. unfold_M. cbn in Hload.
         rewrite Hi, Hlook, Hd in Hload. discriminate. }
    rewrite (load_template_miss w f dir) in Hload by assumption.
    cbv zeta in Hload.
    destruct (fresh_template _ _ _ _) as [[spl' per']|e]; [|discriminate].
    rewrite Hc in Hload. injection Hload as <- <- <-. cbn.
    split; [exact Hi|]. apply lookup_insert_eq.
Qed.

(** C2. With caching on, once a file identity has been loaded through
    applyStdPeriodic, every later call that names it gets the interpolators
    and the period cached then: nothing is read (the log of loadtxt and the
    whole engine stay as they are) and nothing is built, whatever period
    override, normalisation and interpolator kind the call asks for. With
    caching off, every call reads the file and builds the interpolators
    anew. *)
Theorem template_cache_reuse :
  (forall (w0 w1 w : World) (f : string) (inPeriod0 : value)
          (inDays0 : bool) (interpFactory0 : option factory)
          (spl : gmap string interpolator) (per : value),
     variabilityCache w0 = true ->
     load_template (VStr f) inPeriod0 inDays0 interpFactory0 w0
       = (Ok (spl, per), w1) ->
     steps w1 w ->
     forall (params : dict) (keymap : gmap string string)
            (inPeriod : value) (inDays : bool)
            (interpFactory : option factory),
       (k ← getitem keymap "filename"; getitem params k) = Ok (VStr f) ->
       load_template (VStr f) inPeriod inDays interpFactory w
         = (Ok (spl, per), w)
       /\ applyStdPeriodic params keymap inPeriod inDays interpFactory w
          = (toff ← (k ← getitem keymap "t0"; v ← getitem params k;
                     py_float v);
             p ← py_num per;
             eval_splines spl
               (amap (fold_phase p)
                  (amap (fun t => t - toff) (Opsim_expmjd w))),
             w))
  /\
  (forall (w0 w : World) (d : string),
     CAT_SHARE_DATA w0 = Some d ->
     steps (initializeVariability false w0).2 w ->
     forall (f : string) (inPeriod : value) (inDays : bool)
            (interpFactory : option factory),
       exists path,
         load_template (VStr f) inPeriod inDays interpFactory w
         = (fresh_template inPeriod inDays interpFactory (files w !! path),
            set_loadtxt_log (path :: loadtxt_log w) w)).
Proof.
  split.
  - intros w0 w1 w f inPeriod0 inDays0 interpFactory0 spl per Hc Hload Hsteps
      params keymap inPeriod inDays interpFactory Hfn.
    destruct (load_template_cached _ _ _ _ _ _ _ _ Hc Hload) as [Hi1 Hk1].
    destruct (steps_evolves _ _ Hsteps Hi1) as (Hi & _ & _ & Hkeep & _).
    pose proof (Hkeep _ _ Hk1) as Hk.
    pose proof (load_template_hit w f _ inPeriod inDays interpFactory Hi Hk)
      as Hhit. cbn in Hhit.
    split; [exact Hhit|].
    rewrite applyStdPeriodic_unfold, Hfn, Hhit.
    destruct (k ← getitem keymap "t0"; v ← getitem params k; py_float v);
      reflexivity.
  - intros w0 w d Henv Hsteps f inPeriod inDays interpFactory.
    set (wi := (initializeVariability false w0).2) in *.
    assert (Hwi : variabilityInitialized wi = true
                  /\ variabilityCache wi = false
                  /\ variabilityLcCache wi = ∅
                  /\ exists dir, variabilityDataDir wi = Some dir).
    { unfold wi, initializeVariability. rewrite Henv. cbn. eauto. }
    destruct Hwi as (Hii & Hci & Hki & dir & Hdi).
    destruct (steps_evolves _ _ Hsteps Hii) as (Hi & Hc & Hd & _ & Hoff & _).
    rewrite Hci in Hc. rewrite Hdi in Hd.
    assert (Hk : variabilityLcCache w !! f = None).
    { rewrite (Hoff Hci), Hki. apply lookup_empty. }
    exists (dir +:+ "/" +:+ f).
    rewrite (load_template_miss w f dir) by assumption. cbv zeta.
    destruct (fresh_template _ _ _ _) as [[spl per]|e]; [|reflexivity].
    rewrite Hc. reflexivity.
Qed.

End CacheClaims.

(** ** The two microlensing evaluators and the black-hole template *)

Section LensClaims.
Context `{Ext : Externals}.

Ltac unfold_M :=
  unfold mbind, M_bind, mret, M_ret, result_bind, result_ret,
         lift, raise, gets, modify in *.

Lemma applyMicrolens_eq (params : dict) (w : World) (t0 umin that : R) :
  (v ← getitem params "t0"; py_num v) = Ok t0 ->
  (v ← getitem params "umin"; py_num v) = Ok umin ->
  (v ← getitem params "that"; py_num v) = Ok that ->
  applyMicrolens params w
  = (Ok (six_bands (amap (dmag_Microlens t0 umin that) (Opsim_expmjd w))),
     w).
Proof.
  intros H0 Hu Ht. unfold applyMicrolens.
  rewrite bind_gets, (bind_lift_Ok _ _ _ _ H0), (bind_lift_Ok _ _ _ _ Hu),
    (bind_lift_Ok _ _ _ _ Ht).
  rewrite !amap_amap. reflexivity.
Qed.

Lemma applyMicrolensing_eq (params : dict) (w : World) (t0 umin that : R) :
  (v ← getitem params "t0"; py_num v) = Ok t0 ->
  (v ← getitem params "umin"; py_num v) = Ok umin ->
  (v ← getitem params "that"; py_num v) = Ok that ->
  applyMicrolensing params w
  = (Ok (six_bands (amap (dmag_Microlensing t0 umin that)
                      (Opsim_expmjd w))), w).
Proof.
  intros H0 Hu Ht. unfold applyMicrolensing.
  rewrite bind_gets, (bind_lift_Ok _ _ _ _ H0), (bind_lift_Ok _ _ _ _ Hu),
    (bind_lift_Ok _ _ _ _ Ht).
  rewrite !amap_amap. reflexivity.
Qed.

(** C8. With umin and that fixed (and not zero), in applyMicrolens and in
    applyMicrolensing alike: u(t) = sqrt(umin^2 + (2 (t - t0) / that)^2) is
    least at t = t0; the magnitude offset is least (brightest) at t = t0;
    and the output at the epochs t0 + d is the output at the epochs
    t0 - d, in every band. *)
Theorem microlensing_symmetric_minimum
  (params : dict) (w : World) (t0 umin that : R) :
  (v ← getitem params "t0"; py_num v) = Ok t0 ->
  (v ← getitem params "umin"; py_num v) = Ok umin ->
  (v ← getitem params "that"; py_num v) = Ok that ->
  umin <> 0 -> that <> 0 ->
  (forall a,
     (applyMicrolens params (set_Opsim_expmjd a w)).1
       = Ok (six_bands (amap (dmag_Microlens t0 umin that) a))
     /\ (applyMicrolensing params (set_Opsim_expmjd a w)).1
        = Ok (six_bands (amap (dmag_Microlensing t0 umin that) a)))
  /\ (forall t, lens_u umin that (t0 - t0) <= lens_u umin that (t - t0))
  /\ (forall t, dmag_Microlens t0 umin that t0 <= dmag_Microlens t0 umin that t
             /\ dmag_Microlensing t0 umin that t0
                <= dmag_Microlensing t0 umin that t)
  /\ (forall d : ndarray,
        (applyMicrolens params
           (set_Opsim_expmjd (amap (fun x => t0 + x) d) w)).1
        = (applyMicrolens params
             (set_Opsim_expmjd (amap (fun x => t0 - x) d) w)).1
        /\ (applyMicrolensing params
              (set_Opsim_expmjd (amap (fun x => t0 + x) d) w)).1
           = (applyMicrolensing params
                (set_Opsim_expmjd (amap (fun x => t0 - x) d) w)).1).
Proof.
  intros H0 Hu Ht Humin Hthat.
  assert (Hmin : forall t,
            lens_u umin that (t0 - t0) <= lens_u umin that (t - t0)).
  { intros t. replace (t0 - t0) with 0 by ring. apply lens_u_min. }
  assert (Hpos : forall e, 0 < lens_u umin that e)
    by (intros; now apply lens_u_pos).
  split; [|split; [exact Hmin|split]].
  - intros a.
    rewrite (applyMicrolens_eq params _ t0 umin that),
      (applyMicrolensing_eq params _ t0 umin that) by assumption.
    split; reflexivity.
  - intros t. unfold dmag_Microlens, dmag_Microlensing. split.
    + apply dmag_antitone.
      * apply magnification_Microlens_pos, Hpos.
      * apply magnification_Microlens_antitone; [apply Hpos|apply Hmin].
    + apply dmag_antitone.
      * apply magnification_Microlensing_pos, Hpos.
      * apply magnification_Microlensing_antitone; [apply Hpos|apply Hmin].
  - intros d.
    rewrite !(applyMicrolens_eq params _ t0 umin that),
      !(applyMicrolensing_eq params _ t0 umin that) by assumption.
    cbn. rewrite !amap_amap.
    assert (Hsym : forall x,
              lens_u umin that (t0 + x - t0) = lens_u umin that (t0 - x - t0)).
    { intros x. replace (t0 + x - t0) with x by ring.
      replace (t0 - x - t0) with (- x) by ring.
      symmetry. apply lens_u_sym. }
    split; do 2 f_equal; apply amap_ext_in; intros x _;
      unfold dmag_Microlens, dmag_Microlensing; now rewrite Hsym.
Qed.

(** C7. Once the template is loaded, applyBHMicrolens returns for every
    set of epochs: an epoch (shifted by t0) strictly before the first or
    strictly after the last sample time, both times 365, gets
    magnification 1 and offset 0 in all six bands; an epoch in between gets
    the offset -2.5 ln(magnification) of the spline's value there. *)
Theorem bh_microlens_outside_template
  (params : dict) (w : World) (dir f : string) (lc : list (list R))
  (t c : list R) (tfirst tsecond tlast toff : R) (mag : R -> R) :
  getitem params "filename" = Ok (VStr f) ->
  (v ← getitem params "t0"; py_float v) = Ok toff ->
  variabilityDataDir w = Some dir ->
  files w !! (dir +:+ "/" +:+ f) = Some lc ->
  lc !! 0%nat = Some t -> lc !! 1%nat = Some c ->
  t !! 0%nat = Some tfirst -> t !! 1%nat = Some tsecond ->
  last t = Some tlast ->
  InterpolatedUnivariateSpline (map (fun x => x * 365) t) c = Ok mag ->
  let minage := tfirst * 365 in
  let maxage := tlast * 365 in
  exists dmag : list R,
    (applyBHMicrolens params w).1 = Ok (six_bands (Array dmag))
    /\ length dmag = asize (Opsim_expmjd w)
    /\ forall (j : nat) (e : R),
         elems (Opsim_expmjd w) !! j = Some e ->
         let ep := e - toff in
         (ep < minage \/ maxage < ep ->
          bh_moff minage maxage mag ep = 1 /\ dmag !! j = Some 0)
         /\ (minage <= ep <= maxage ->
             dmag !! j = Some (-2.5 * ln (mag ep))).
Proof.
  intros Hfn Htoff Hd Hf Hlc0 Hlc1 Ht0 Ht1 Hl Hius minage maxage.
  exists (map (fun m => -2.5 * ln m)
            (map (bh_moff minage maxage mag)
               (elems (amap (fun x => x - toff) (Opsim_expmjd w))))).
  split; [|split].
  - unfold applyBHMicrolens, self_variabilityDataDir, loadtxt, index,
      index_last.
    unfold mbind at 1 2 3, M_bind, gets, lift. rewrite Hfn.
    rewrite Htoff. unfold_M. cbn. rewrite Hd. cbn. rewrite Hf. cbn.
    rewrite Hlc0. cbn. rewrite Ht1, Ht0. cbn. rewrite Hl. cbn.
    rewrite list_lookup_fmap, Ht0. cbn.
    rewrite fmap_last, Hl. cbn. rewrite Hlc1. cbn.
    rewrite Hius. reflexivity.
  - rewrite !length_map, elems_amap, length_map. reflexivity.
  - intros j e Hj ep. rewrite elems_amap.
    rewrite !list_lookup_fmap, Hj. cbn. fold ep.
    unfold bh_moff. split.
    + intros Hout. destruct (Rlt_dec ep minage) as [|Hn1].
      * split; [lra|]. f_equal. rewrite ln_1. ring.
      * destruct (Rlt_dec maxage ep); [|lra].
        split; [lra|]. f_equal. rewrite ln_1. ring.
    + intros [Hlo Hhi].
      destruct (Rlt_dec ep minage); [lra|].
      destruct (Rlt_dec maxage ep); [lra|]. reflexivity.
Qed.

End LensClaims.

(** ** applyAgn *)

Section AgnClaims.
Context `{Ext : Externals}.

Arguments py_float : simpl never.
Arguments py_int : simpl never.
Arguments py_num : simpl never.
Arguments agn_band : simpl never.
Arguments list_min : simpl never.
Arguments list_max : simpl never.

Ltac unfold_M :=
  unfold mbind, M_bind, mret, M_ret, result_bind, result_ret,
         lift, raise, gets, modify in *.

(** The first lines of applyAgn: the parameters are read. *)
Ltac agn_read H :=
  destruct H as (Hp_t0 & Hp_seed & Hp_u & Hp_g & Hp_r & Hp_i & Hp_z & Hp_y
                 & Hp_tau);
  unfold applyAgn;
  rewrite bind_gets, (bind_lift_Ok _ _ _ _ Hp_t0),
    (bind_lift_Ok _ _ _ _ Hp_seed), (bind_lift_Ok _ _ _ _ Hp_u),
    (bind_lift_Ok _ _ _ _ Hp_g), (bind_lift_Ok _ _ _ _ Hp_r),
    (bind_lift_Ok _ _ _ _ Hp_i), (bind_lift_Ok _ _ _ _ Hp_z),
    (bind_lift_Ok _ _ _ _ Hp_y), (bind_lift_Ok _ _ _ _ Hp_tau);
  cbv zeta.

Lemma epochs_at_reference (toff : R) (l : list R) :
  Forall (fun t => t = toff) l -> l <> [] ->
  list_min (map (fun t => t - toff) l) = Some 0
  /\ list_max (map (fun t => t - toff) l) = Some 0.
Proof.
  intros Hall Hne.
  assert (Hzero : forall m, In m (map (fun t => t - toff) l) -> m = 0).
  { intros m (t & <- & Ht)%in_map_iff.
    rewrite Forall_forall in Hall. apply list_elem_of_In in Ht.
    rewrite (Hall t Ht). ring. }
  destruct l as [|x l]; [congruence|]. split.
  - destruct (list_min (map (fun t => t - toff) (x :: l))) as [m|] eqn:Hm;
      [|discriminate].
    apply list_min_spec in Hm as [Hin _]. f_equal. now apply Hzero.
  - destruct (list_max (map (fun t => t - toff) (x :: l))) as [m|] eqn:Hm;
      [|discriminate].
    apply list_max_spec in Hm as [Hin _]. f_equal. now apply Hzero.
Qed.

(** C5 (the failing input). When no observation epoch differs from t0
    (in particular for the single epoch t0, which is not before t0),
    applyAgn does not return: nbins is 0, the grid of the simulated walk
    has one point, and the call raises ValueError. *)
Theorem agn_raises_at_reference_time
  (params : dict) (w : World) (toff : R) (seed : Z)
  (sfu sfg sfr sfi sfz sfy vtau : value) (tau : R) :
  agn_params params toff seed sfu sfg sfr sfi sfz sfy vtau ->
  py_num vtau = Ok tau ->
  Forall (fun t => t = toff) (elems (Opsim_expmjd w)) ->
  (applyAgn params w).1 = Raise ValueError.
Proof.
  intros Hp Htau Hall. agn_read Hp. rewrite elems_amap.
  destruct (elems (Opsim_expmjd w)) as [|x l] eqn:Hel; [reflexivity|].
  destruct (epochs_at_reference toff (x :: l) Hall) as [Hmin Hmax];
    [discriminate|].
  rewrite Hmin. erewrite bind_lift_Ok by reflexivity.
  destruct (Rlt_dec 0 0) as [|_]; [lra|].
  rewrite Hmax. erewrite bind_lift_Ok by reflexivity.
  rewrite (bind_lift_Ok _ _ _ _ Htau). cbv zeta.
  destruct (Req_dec_T (tau / 100) 0) as [|Hdt].
  { destruct (Req_dec_T 0 0); [reflexivity|congruence]. }
  assert (Hn : Zceil (0 / (tau / 100)) = 0%Z).
  { apply Zceil_eq. unfold Rdiv. rewrite Rmult_0_l. lra. }
  rewrite Hn.
  destruct (decide (0%Z = 0%Z /\ 0 <> 0)) as [[_ H]|_]; [congruence|].
  destruct (random_seed seed) as [g|]; [|reflexivity].
  erewrite bind_lift_Ok by reflexivity. rewrite bind_modify.
  destruct (decide (0 < 0)%Z) as [|_]; [lia|].
  rewrite bind_modify. reflexivity.
Qed.

Lemma py_num_raises (v : value) (e : exn) :
  py_num v = Raise e -> e = TypeError.
Proof. destruct v; unfold py_num; congruence. Qed.

Lemma agn_walk_length (dt sdt sf : R) (es : list R) (n i : nat) (x : R) :
  length (agn_walk dt sdt sf es n i x) = n.
Proof.
  revert i x. induction n as [|n IH]; intros i x; simpl; [reflexivity|].
  now rewrite IH.
Qed.

Lemma agn_band_raises (nbins : nat) (dt sdt : R) (es : list R)
  (endepoch : R) (epochs : ndarray) (sf : value) (e : exn) :
  agn_band nbins dt sdt es endepoch epochs sf = Raise e ->
  e = ValueError \/ e = TypeError.
Proof.
  unfold agn_band. unfold_M.
  destruct (match nbins with
            | O => Ok [0]
            | S _ => match py_num sf with
                     | Ok s => Ok (0 :: agn_walk dt sdt s es nbins 0 0)
                     | Raise e => Raise e
                     end
            end) as [dx|e'] eqn:Hdx.
  - destruct (interp1d _ dx) as [f|e'] eqn:Hf.
    + intros (x & _ & Hx)%acall_raises. left.
      eapply interp1d_raises; eauto.
    + intros [= <-]. left. eapply interp1d_build_raises; eauto.
  - intros [= <-]. right. destruct nbins; [discriminate|].
    destruct (py_num sf) eqn:Hsf; [discriminate|].
    injection Hdx as <-. eapply py_num_raises; eauto.
Qed.

Lemma agn_band_returns (nbins : nat) (dt sdt s : R) (es : list R)
  (endepoch : R) (epochs : ndarray) (sf : value) :
  (1 <= nbins)%nat -> py_num sf = Ok s ->
  (forall x, In x (elems epochs) -> 0 <= x <= endepoch) ->
  exists a, agn_band nbins dt sdt es endepoch epochs sf = Ok a.
Proof.
  intros Hn Hsf Hin. unfold agn_band.
  destruct nbins as [|k]; [lia|]. rewrite Hsf. unfold_M.
  rewrite Nat.add_1_r.
  destruct (linspace_ends endepoch (S k) Hn) as [Hhead Hlast].
  destruct (interp1d_in_range (linspace 0 endepoch (S (S k)))
              (0 :: agn_walk dt sdt s es (S k) 0 0) 0 endepoch)
    as (f & -> & Hf); [| |exact Hhead|exact Hlast|].
  - rewrite linspace_length. simpl. now rewrite agn_walk_length.
  - rewrite linspace_length. lia.
  - apply acall_all_Ok. intros x Hx. apply Hf, Hin, Hx.
Qed.

(** What the guard of line 170 decides: applyAgn raises its own error
    exactly when some epoch is before t0. *)
Lemma applyAgn_InvalidParameters_iff
  (params : dict) (w : World) (toff : R) (seed : Z)
  (sfu sfg sfr sfi sfz sfy vtau : value) :
  agn_params params toff seed sfu sfg sfr sfi sfz sfy vtau ->
  (applyAgn params w).1 = Raise InvalidParameters
  <-> exists t, In t (elems (Opsim_expmjd w)) /\ t < toff.
Proof.
  intros Hp. agn_read Hp. rewrite elems_amap.
  destruct (list_min (map (fun t => t - toff) (elems (Opsim_expmjd w))))
    as [emin|] eqn:Hmin.
  - erewrite bind_lift_Ok by reflexivity.
    apply list_min_spec in Hmin as [Hin Hle].
    apply in_map_iff in Hin as (t0 & Ht0 & Hin).
    destruct (Rlt_dec emin 0) as [Hneg|Hpos].
    + split; [intros _|reflexivity]. exists t0. split; [exact Hin|lra].
    + split.
      * intros Hres. exfalso. unfold_M. cbn in Hres.
        repeat match type of Hres with
               | context [match ?x with _ => _ end] =>
                   destruct x eqn:?; cbn in Hres; try discriminate
               end;
        injection Hres as ->;
        repeat match goal with
               | H : py_num _ = Raise _ |- _ =>
                   apply py_num_raises in H; discriminate
               | H : option_or_raise _ ?o = Raise _ |- _ =>
                   destruct o; discriminate
               | H : agn_band _ _ _ _ _ _ _ = Raise _ |- _ =>
                   apply agn_band_raises in H as [H|H]; discriminate
               end.
      * intros (t & Ht & Hlt). exfalso.
        assert (emin <= t - toff).
        { apply Hle, in_map_iff. eauto. }
        lra.
  - apply list_min_None, map_eq_nil in Hmin. rewrite Hmin.
    split; [discriminate|]. intros (t & [] & _).
Qed.

(** With a positive relaxation time, a seed the generator accepts and
    numeric amplitudes, applyAgn returns whenever no epoch is before t0 and
    some epoch is after it. *)
Lemma applyAgn_returns
  (params : dict) (w : World) (toff : R) (seed : Z)
  (sfu sfg sfr sfi sfz sfy vtau : value) (tau : R) :
  agn_params params toff seed sfu sfg sfr sfi sfz sfy vtau ->
  py_num vtau = Ok tau -> 0 < tau ->
  is_Some (random_seed seed) ->
  Forall (fun sf => exists s, py_num sf = Ok s)
    [sfu; sfg; sfr; sfi; sfz; sfy] ->
  (forall t, In t (elems (Opsim_expmjd w)) -> toff <= t) ->
  (exists t, In t (elems (Opsim_expmjd w)) /\ toff < t) ->
  exists d, (applyAgn params w).1 = Ok d.
Proof.
  intros Hp Htau Hpos [g Hseed] Hsf Hall (tmax & Htmax & Hafter).
  agn_read Hp. rewrite elems_amap.
  set (l := map (fun t => t - toff) (elems (Opsim_expmjd w))).
  assert (Hl : forall x, In x l -> 0 <= x).
  { intros x (t & <- & Ht)%in_map_iff. specialize (Hall t Ht). lra. }
  assert (Hlmax : In (tmax - toff) l) by (apply in_map_iff; eauto).
  destruct (list_min l) as [emin|] eqn:Hmin.
  2: { apply list_min_None in Hmin. rewrite Hmin in Hlmax. destruct Hlmax. }
  destruct (list_max_is_Some l emin Hmin) as [endepoch Hmax].
  rewrite Hmax.
  apply list_min_spec in Hmin as [Hmin_in _].
  apply list_max_spec in Hmax as [_ Hmax_le].
  erewrite bind_lift_Ok by reflexivity.
  destruct (Rlt_dec emin 0) as [Hneg|_]; [specialize (Hl _ Hmin_in); lra|].
  erewrite bind_lift_Ok by reflexivity.
  rewrite (bind_lift_Ok _ _ _ _ Htau). cbv zeta.
  assert (Hend : 0 < endepoch) by (specialize (Hmax_le _ Hlmax); lra).
  destruct (Req_dec_T (tau / 100) 0) as [|_]; [lra|].
  set (nbins := Zceil (endepoch / (tau / 100))).
  assert (Hnb : (0 < nbins)%Z).
  { apply lt_IZR. pose proof (Zceil_bound (endepoch / (tau / 100))) as Hb.
    fold nbins in Hb.
    assert (0 < endepoch / (tau / 100))
      by (apply Rdiv_lt_0_compat; lra).
    lra. }
  destruct (decide (nbins = 0%Z /\ endepoch <> 0)) as [[H0 _]|_]; [lia|].
  rewrite Hseed. erewrite bind_lift_Ok by reflexivity. rewrite bind_modify.
  destruct (decide (nbins < 0)%Z) as [|_]; [lia|].
  rewrite bind_modify. cbv zeta.
  assert (Hband : forall sf, (exists s, py_num sf = Ok s) -> forall dt sdt es,
            exists a, agn_band (Z.to_nat nbins) dt sdt es endepoch
                        (amap (fun t => t - toff) (Opsim_expmjd w)) sf
                      = Ok a).
  { intros sf [s Hs] dt sdt es. apply (agn_band_returns _ _ _ s); [lia|exact Hs|].
    intros x Hx. rewrite elems_amap in Hx. fold l in Hx.
    split; [now apply Hl|now apply Hmax_le]. }
  repeat match goal with
         | H : Forall _ (_ :: _) |- _ => apply Forall_cons in H as [? H]
         end.
  repeat match goal with
         | |- context [lift (agn_band ?n ?dt ?sdt ?es ?e ?a ?sf)] =>
             let Hb := fresh "Hb" in
             destruct (Hband sf ltac:(assumption) dt sdt es) as [? Hb];
             rewrite (bind_lift_Ok _ _ _ _ Hb)
         end.
  eexists. reflexivity.
Qed.

(** The arrays of a run that returns all come from one sequence of draws,
    made after seeding the generator with the seed. *)
Lemma applyAgn_shared_draws (params : dict) (w : World)
  (d : gmap string ndarray) :
  (applyAgn params w).1 = Ok d ->
  exists (seed : Z) (g : rng_state) (nbins : nat) (dt endepoch toff : R),
    (v ← getitem params "seed"; py_int v) = Ok seed
    /\ random_seed seed = Some g
    /\ rng (applyAgn params w).2 = (random_normal g nbins).2
    /\ let es := (random_normal g nbins).1 in
       length es = nbins
       /\ Forall (fun bk : string * string =>
            exists sf a,
              params !! bk.2 = Some sf
              /\ agn_band nbins dt (sqrt dt) es endepoch
                   (amap (fun t => t - toff) (Opsim_expmjd w)) sf
                 = Ok a
              /\ d !! bk.1 = Some a) agn_bands.
Proof.
  revert d. intros d. unfold applyAgn. unfold_M. cbn. unfold getitem.
  destruct (params !! "t0_mjd") as [v0|]; cbn; [|discriminate].
  destruct (py_float v0) as [toff|]; cbn; [|discriminate].
  destruct (params !! "seed") as [vs|] eqn:Hs; cbn; [|discriminate].
  destruct (py_int vs) as [seed|] eqn:Hseed; cbn; [|discriminate].
  destruct (params !! "agn_sfu") as [sfu|] eqn:Hu; cbn; [|discriminate].
  destruct (params !! "agn_sfg") as [sfg|] eqn:Hg; cbn; [|discriminate].
  destruct (params !! "agn_sfr") as [sfr|] eqn:Hr; cbn; [|discriminate].
  destruct (params !! "agn_sfi") as [sfi|] eqn:Hi; cbn; [|discriminate].
  destruct (params !! "agn_sfz") as [sfz|] eqn:Hz; cbn; [|discriminate].
  destruct (params !! "agn_sfy") as [sfy|] eqn:Hy; cbn; [|discriminate].
  destruct (params !! "agn_tau") as [vtau|]; cbn; [|discriminate].
  destruct (list_min _) as [emin|]; cbn; [|discriminate].
  destruct (Rlt_dec emin 0); cbn; [discriminate|].
  destruct (list_max _) as [endepoch|]; cbn; [|discriminate].
  destruct (py_num vtau) as [tau|]; cbn; [|discriminate].
  destruct (Req_dec_T (tau / 100) 0); cbn; [discriminate|].
  destruct (decide _); cbn; [discriminate|].
  destruct (random_seed seed) as [g|] eqn:Hg0; cbn; [|discriminate].
  destruct (decide _); cbn; [discriminate|].
  set (nbins := Z.to_nat (Zceil (endepoch / (tau / 100)))).
  set (dt := endepoch / IZR (Zceil (endepoch / (tau / 100))) / tau).
  destruct (agn_band nbins dt (sqrt dt) _ endepoch _ sfu) as [au|] eqn:Eu;
    cbn; [|discriminate].
  destruct (agn_band nbins dt (sqrt dt) _ endepoch _ sfg) as [ag|] eqn:Eg;
    cbn; [|discriminate].
  destruct (agn_band nbins dt (sqrt dt) _ endepoch _ sfr) as [ar|] eqn:Er;
    cbn; [|discriminate].
  destruct (agn_band nbins dt (sqrt dt) _ endepoch _ sfi) as [ai|] eqn:Ei;
    cbn; [|discriminate].
  destruct (agn_band nbins dt (sqrt dt) _ endepoch _ sfz) as [az|] eqn:Ez;
    cbn; [|discriminate].
  destruct (agn_band nbins dt (sqrt dt) _ endepoch _ sfy) as [ay|] eqn:Ey;
    cbn; [|discriminate].
  intros [= <-].
  exists seed, g, nbins, dt, endepoch, toff.
  split; [reflexivity|]. split; [exact Hg0|].
  split; [reflexivity|]. cbv zeta.
  split; [apply random_normal_length|].
  unfold agn_bands. repeat constructor; cbn; eexists _, _;
    (split; [eassumption|split; [eassumption|]]);
    now simplify_map_eq.
Qed.

(** Two runs on the same epochs return the same. *)
Lemma applyAgn_same_output (params : dict) (w1 w2 : World) :
  Opsim_expmjd w1 = Opsim_expmjd w2 ->
  (applyAgn params w1).1 = (applyAgn params w2).1.
Proof.
  intros Hobs. unfold applyAgn. unfold_M. cbn. rewrite Hobs.
  repeat match goal with
         | |- context [match ?x with _ => _ end] =>
             destruct x; cbn; try reflexivity
         end.
Qed.

(** C3. applyAgn is deterministic: two runs with the same parameters (seed,
    tau, t0, the six amplitudes) and the same observation epochs return the
    same per-band arrays, whatever the generator, the cache and the files
    were before; and the arrays of a run that returns all come from the one
    sequence of nbins draws of the generator seeded with the seed. *)
Theorem agn_deterministic (params : dict) (w1 w2 : World) :
  Opsim_expmjd w1 = Opsim_expmjd w2 ->
  (applyAgn params w1).1 = (applyAgn params w2).1
  /\ forall d, (applyAgn params w1).1 = Ok d ->
       exists (seed : Z) (g : rng_state) (nbins : nat) (dt endepoch toff : R),
         (v ← getitem params "seed"; py_int v) = Ok seed
         /\ random_seed seed = Some g
         /\ let es := (random_normal g nbins).1 in
            length es = nbins
            /\ Forall (fun bk : string * string =>
                 exists sf a,
                   params !! bk.2 = Some sf
                   /\ agn_band nbins dt (sqrt dt) es endepoch
                        (amap (fun t => t - toff) (Opsim_expmjd w1)) sf
                      = Ok a
                   /\ d !! bk.1 = Some a) agn_bands.
Proof.
  intros Hobs. split.
  - now apply applyAgn_same_output.
  - intros d Hrun.
    destruct (applyAgn_shared_draws params w1 d Hrun)
      as (seed & g & nbins & dt & endepoch & toff & Hs & Hg & _ & Hes).
    exists seed, g, nbins, dt, endepoch, toff. auto.
Qed.

End AgnClaims.

(** ** applyAmcvn *)

Section AmcvnClaims.
Context `{Ext : Externals}.

Arguments py_num : simpl never.
Arguments amcvn_adds : simpl never.
Arguments list_min : simpl never.

Ltac unfold_M :=
  unfold mbind, M_bind, mret, M_ret, result_bind, result_ret,
         lift, raise, gets, modify in *.

Lemma foldM_burst_pulse_length (params : dict) (epochs : list R)
  (os : list R) (adds adds' : list R) :
  length adds = length epochs ->
  foldM (burst_pulse params epochs) adds os = Ok adds' ->
  length adds' = length epochs.
Proof.
  revert adds. induction os as [|o os IH]; intros adds Hlen; simpl.
  - now intros [= <-].
  - destruct (burst_pulse params epochs adds o) as [adds1|e] eqn:Hp;
      [|discriminate].
    apply IH. unfold burst_pulse in Hp. unfold_M.
    destruct (match getitem params "burst_scale" with
              | Ok a => py_num a | Raise e => Raise e end);
      [|discriminate].
    destruct (match getitem params "amp_burst" with
              | Ok a => py_num a | Raise e => Raise e end);
      [|discriminate].
    injection Hp as <-.
    rewrite length_zip_with, length_map. lia.
Qed.

Lemma amcvn_adds_length (params : dict) (maxyears : R) (epochs adds : list R) :
  amcvn_adds params maxyears epochs = Ok adds ->
  length adds = length epochs.
Proof.
  unfold amcvn_adds. unfold_M.
  destruct (match getitem params "t0" with
            | Ok a => py_num a | Raise e => Raise e end); [|discriminate].
  destruct (match getitem params "burst_freq" with
            | Ok a => py_num a | Raise e => Raise e end); [|discriminate].
  destruct (Req_dec_T _ 0); [discriminate|].
  apply foldM_burst_pulse_length. apply repeat_length.
Qed.

(** The weights of lines 229-234, from the bluest band to the reddest. *)
Lemma color_excess_weights :
  color_excess_weight "u" = 2 /\ color_excess_weight "g" = 1
  /\ color_excess_weight "r" = 1 / 2 /\ color_excess_weight "i" = 0
  /\ color_excess_weight "z" = 0 /\ color_excess_weight "y" = 0.
Proof. unfold color_excess_weight. cbn. repeat split; lra. Qed.

(** applyAmcvn on one epoch given as a number: no two names share an
    array, and each band gets its own line of 229-234. *)
Lemma applyAmcvn_scalar
  (params : dict) (w : World) (e A t0 P c : R) (vA vb : value)
  (adds : list R) :
  Opsim_expmjd w = Scalar e ->
  getitem params "amplitude" = Ok vA -> py_num vA = Ok A ->
  (v ← getitem params "t0"; py_num v) = Ok t0 ->
  (v ← getitem params "period"; py_num v) = Ok P ->
  getitem params "does_burst" = Ok vb -> py_truth vb = true ->
  amcvn_adds params 10 [e] = Ok adds ->
  (v ← getitem params "color_excess_during_burst"; py_num v) = Ok c ->
  exists a d,
    adds = [a]
    /\ (applyAmcvn params w).1 = Ok d
    /\ forall b, b ∈ band_labels ->
         d !! b = Some (Array [A * cos ((e - t0) / P)
                               + (a + color_excess_weight b * c * a / a)]).
Proof.
  intros Hexp HvA HA Ht0 HP Hvb Hb Hadds Hc.
  pose proof (amcvn_adds_length _ _ _ _ Hadds) as Hlen.
  destruct adds as [|a [|]]; try discriminate. clear Hlen.
  exists a. eexists. split; [reflexivity|].
  unfold applyAmcvn. cbv zeta.
  rewrite bind_gets, Hexp, (bind_lift_Ok _ _ _ _ HvA),
    (bind_lift_Ok _ _ _ _ Ht0), (bind_lift_Ok _ _ _ _ HP),
    (bind_lift_Ok _ _ _ _ HA), (bind_lift_Ok _ _ _ _ Hvb), Hb.
  cbn [elems]. unfold mbind at 1, M_bind at 1.
  rewrite (bind_lift_Ok _ _ _ _ Hadds), (bind_lift_Ok _ _ _ _ Hc).
  erewrite bind_lift_Ok by reflexivity. cbn.
  split; [reflexivity|].
  pose proof color_excess_weights as (Wu & Wg & Wr & Wi & Wz & Wy).
  intros b Hbl. apply elem_of_band_labels in Hbl.
  destruct Hbl as [->|[->|[->|[->|[->| ->]]]]];
    simplify_map_eq; do 3 f_equal;
    rewrite ?Wu, ?Wg, ?Wr, ?Wi, ?Wz, ?Wy; decimals; unfold Rdiv; ring.
Qed.

(** applyAmcvn on an array of epochs: the six names are bound to one array
    object, every [+=] of lines 229-234 lands on it, and all six bands
    return the baseline plus six times [adds] plus 3.5 times the colour
    term. *)
Lemma applyAmcvn_array_shared
  (params : dict) (w : World) (es : list R) (A t0 P c m : R) (vA vb : value)
  (adds : list R) :
  Opsim_expmjd w = Array es ->
  getitem params "amplitude" = Ok vA -> py_num vA = Ok A ->
  (v ← getitem params "t0"; py_num v) = Ok t0 ->
  (v ← getitem params "period"; py_num v) = Ok P ->
  getitem params "does_burst" = Ok vb -> py_truth vb = true ->
  amcvn_adds params 10 es = Ok adds ->
  (v ← getitem params "color_excess_during_burst"; py_num v) = Ok c ->
  list_min adds = Some m ->
  exists shared,
    (applyAmcvn params w).1 = Ok (six_bands (Array shared))
    /\ forall j e a, es !! j = Some e -> adds !! j = Some a ->
         shared !! j
         = Some (A * cos ((e - t0) / P) + 6 * a + 3.5 * c * a / m).
Proof.
  intros Hexp HvA HA Ht0 HP Hvb Hb Hadds Hc Hm.
  eexists. unfold applyAmcvn. cbv zeta.
  rewrite bind_gets, Hexp, (bind_lift_Ok _ _ _ _ HvA),
    (bind_lift_Ok _ _ _ _ Ht0), (bind_lift_Ok _ _ _ _ HP),
    (bind_lift_Ok _ _ _ _ HA), (bind_lift_Ok _ _ _ _ Hvb), Hb.
  cbn [elems]. unfold mbind at 1, M_bind at 1.
  rewrite (bind_lift_Ok _ _ _ _ Hadds), (bind_lift_Ok _ _ _ _ Hc), Hm.
  erewrite bind_lift_Ok by reflexivity. cbn.
  split; [reflexivity|].
  intros j e a He Ha.
  rewrite !lookup_zip_with, !list_lookup_fmap, He, Ha. cbn.
  f_equal.
  replace (2.0 * c * a / m) with (2.0 * (c * a / m)) by (unfold Rdiv; ring).
  replace (0.5 * c * a / m) with (0.5 * (c * a / m)) by (unfold Rdiv; ring).
  replace (3.5 * c * a / m) with (3.5 * (c * a / m)) by (unfold Rdiv; ring).
  lra.
Qed.

(** While no epoch has passed the first burst by more than the decay
    scale, no pulse contributes: [adds] stays zero. *)
Lemma burst_tmp_ge_1 (burst_scale o e : R) :
  0 < burst_scale -> e - o <= burst_scale ->
  ~ burst_tmp burst_scale o e < 1.0.
Proof.
  intros Hs He. unfold burst_tmp.
  assert (Hexp : exp (-1) <= exp (-1 * (e - o) / burst_scale)).
  { assert (-1 <= -1 * (e - o) / burst_scale) as [Hlt| <-].
    - apply Rmult_le_reg_r with burst_scale; [exact Hs|].
      unfold Rdiv. rewrite Rmult_assoc, Rinv_l by lra. lra.
    - left. now apply exp_increasing.
    - lra. }
  pose proof (exp_pos (-1)) as Hpos.
  intros Hlt. apply Rmult_lt_compat_r with (r := exp (-1)) in Hlt;
    [|exact Hpos].
  unfold Rdiv in Hlt. rewrite Rmult_assoc, Rinv_l in Hlt by lra. lra.
Qed.

Lemma burst_pulse_quiet (params : dict) (epochs adds : list R)
  (o burst_scale amp_burst : R) :
  (v ← getitem params "burst_scale"; py_num v) = Ok burst_scale ->
  (v ← getitem params "amp_burst"; py_num v) = Ok amp_burst ->
  0 < burst_scale ->
  length adds = length epochs ->
  Forall (fun e => e - o <= burst_scale) epochs ->
  burst_pulse params epochs adds o = Ok adds.
Proof.
  intros Hs Ha Hpos Hlen Hall. unfold burst_pulse.
  rewrite Hs. cbn [mbind result_bind]. rewrite Ha. cbn [mbind result_bind].
  f_equal. revert adds Hlen.
  induction Hall as [|e epochs He _ IH]; intros [|a adds] Hlen;
    try discriminate; [reflexivity|].
  cbn. rewrite IH by (simpl in Hlen; lia). f_equal.
  destruct (Rlt_dec _ 1.0) as [Hlt|_]; [|ring].
  now apply burst_tmp_ge_1 in Hlt.
Qed.

Lemma foldM_burst_pulse_quiet (params : dict) (epochs adds os : list R)
  (burst_scale amp_burst : R) :
  (v ← getitem params "burst_scale"; py_num v) = Ok burst_scale ->
  (v ← getitem params "amp_burst"; py_num v) = Ok amp_burst ->
  0 < burst_scale ->
  length adds = length epochs ->
  Forall (fun o => Forall (fun e => e - o <= burst_scale) epochs) os ->
  foldM (burst_pulse params epochs) adds os = Ok adds.
Proof.
  intros Hs Ha Hpos Hlen. induction 1 as [|o os Ho _ IH]; [reflexivity|].
  cbn. rewrite (burst_pulse_quiet params epochs adds o burst_scale amp_burst)
    by assumption.
  exact IH.
Qed.

Lemma linspace_ge_start (start stop : R) (num : nat) :
  start <= stop -> Forall (fun o => start <= o) (linspace start stop num).
Proof.
  intros Hle. destruct num as [|[|n]]; unfold linspace.
  - constructor.
  - constructor; [lra|constructor].
  - apply Forall_forall. intros o (i & -> & _)%list_elem_of_fmap.
    assert (0 <= INR i) by apply pos_INR.
    assert (0 < INR (S n)) by (apply lt_0_INR; lia).
    assert (0 <= (stop - start) / INR (S n)).
    { apply Rle_mult_inv_pos; lra. }
    nra.
Qed.

Lemma amcvn_adds_quiet (params : dict) (epochs : list R)
  (t0 burst_freq burst_scale amp_burst : R) :
  (v ← getitem params "t0"; py_num v) = Ok t0 ->
  (v ← getitem params "burst_freq"; py_num v) = Ok burst_freq ->
  (v ← getitem params "burst_scale"; py_num v) = Ok burst_scale ->
  (v ← getitem params "amp_burst"; py_num v) = Ok amp_burst ->
  0 < burst_scale -> 0 < burst_freq <= 10 * 365.25 ->
  Forall (fun e => e <= t0 + burst_freq + burst_scale) epochs ->
  amcvn_adds params 10 epochs = Ok (repeat 0 (length epochs)).
Proof.
  intros Ht0 Hf Hs Ha Hpos [Hf0 Hf1] Hall. unfold amcvn_adds.
  rewrite Ht0. cbn [mbind result_bind]. rewrite Hf. cbn [mbind result_bind].
  destruct (Req_dec_T burst_freq 0); [lra|].
  apply (foldM_burst_pulse_quiet _ _ _ _ burst_scale amp_burst);
    [assumption..|apply repeat_length|].
  eapply Forall_impl; [apply linspace_ge_start; lra|].
  intros o Ho. cbv beta. eapply Forall_impl; [exact Hall|].
  intros e He. cbv beta in *. lra.
Qed.

(** With a burst every ten years there is one burst, at t0 + burst_freq. *)
Lemma amcvn_adds_single_burst (params : dict) (epochs : list R)
  (t0 burst_freq : R) :
  (v ← getitem params "t0"; py_num v) = Ok t0 ->
  (v ← getitem params "burst_freq"; py_num v) = Ok burst_freq ->
  burst_freq = 10 * 365.25 ->
  amcvn_adds params 10 epochs
  = burst_pulse params epochs (repeat 0 (length epochs)) (t0 + burst_freq).
Proof.
  intros Ht0 Hf Hbf. unfold amcvn_adds.
  rewrite Ht0. cbn [mbind result_bind]. rewrite Hf. cbn [mbind result_bind].
  destruct (Req_dec_T burst_freq 0); [lra|].
  assert (Hn : Zceil (10 * 365.25 / burst_freq) = 1%Z).
  { apply Zceil_eq. rewrite Hbf. unfold Rdiv. rewrite Rinv_r by lra. lra. }
  rewrite Hn. change (Z.to_nat 1) with 1%nat. cbn [linspace foldM].
  destruct (burst_pulse _ _ _ _); reflexivity.
Qed.

Lemma list_min_repeat_0 (n : nat) : list_min (repeat 0 (S n)) = Some 0.
Proof.
  unfold list_min. cbn [repeat]. f_equal.
  induction n as [|n IH]; [reflexivity|]. cbn [repeat fold_left].
  replace (Rmin 0 0) with 0; [exact IH|].
  unfold Rmin. destruct (Rle_dec 0 0); reflexivity.
Qed.

(** C6 (as amended). In applyAmcvn with bursting on, evaluated at one
    epoch given as a number at which a burst contributes, every band
    returns the baseline plus the burst contribution plus its weight times
    the colour excess; the weights 2, 1, 1/2, 0, 0, 0 for u, g, r, i, z, y
    do not increase from the bluest band to the reddest, and the three
    reddest bands i, z and y (not only z and y) get no colour excess. *)
Theorem amcvn_color_excess_weights
  (params : dict) (w : World) (e A t0 P c a : R) (vA vb : value) :
  Opsim_expmjd w = Scalar e ->
  getitem params "amplitude" = Ok vA -> py_num vA = Ok A ->
  (v ← getitem params "t0"; py_num v) = Ok t0 ->
  (v ← getitem params "period"; py_num v) = Ok P ->
  getitem params "does_burst" = Ok vb -> py_truth vb = true ->
  amcvn_adds params 10 [e] = Ok [a] ->
  a <> 0 ->
  (v ← getitem params "color_excess_during_burst"; py_num v) = Ok c ->
  (exists d,
     (applyAmcvn params w).1 = Ok d
     /\ forall b, b ∈ band_labels ->
          d !! b = Some (Array [A * cos ((e - t0) / P) + a
                                + color_excess_weight b * c]))
  /\ (color_excess_weight "u" > color_excess_weight "g"
      /\ color_excess_weight "g" > color_excess_weight "r"
      /\ color_excess_weight "r" > color_excess_weight "i"
      /\ color_excess_weight "i" = color_excess_weight "z"
      /\ color_excess_weight "z" = color_excess_weight "y")
  /\ (forall b, b ∈ band_labels ->
        (color_excess_weight b = 0 <-> b = "i" \/ b = "z" \/ b = "y")).
Proof.
  intros Hexp HvA HA Ht0 HP Hvb Hb Hadds Ha Hc.
  pose proof color_excess_weights as (Wu & Wg & Wr & Wi & Wz & Wy).
  split; [|split].
  - destruct (applyAmcvn_scalar params w e A t0 P c vA vb [a])
      as (a' & d & [= <-] & Hrun & Hbands); try assumption.
    exists d. split; [exact Hrun|]. intros b Hbl.
    rewrite (Hbands b Hbl). do 3 f_equal. field. exact Ha.
  - rewrite Wu, Wg, Wr, Wi, Wz, Wy. repeat split; lra.
  - intros b Hbl. apply elem_of_band_labels in Hbl.
    destruct Hbl as [->|[->|[->|[->|[->| ->]]]]];
      rewrite ?Wu, ?Wg, ?Wr, ?Wi, ?Wz, ?Wy;
      (split; [intros H; try lra; auto|intros [H|[H|H]]; try discriminate H;
                                        reflexivity]).
Qed.

(** C10 (the failing inputs). With bursting on, when no observation epoch
    is later than the first burst by more than the decay scale, no pulse
    contributes: [adds] is zero at every epoch, so its minimum, the divisor
    of lines 229-231, is 0. *)
Theorem amcvn_zero_minimum_before_first_burst
  (params : dict) (epochs : list R)
  (t0 burst_freq burst_scale amp_burst : R) :
  (v ← getitem params "t0"; py_num v) = Ok t0 ->
  (v ← getitem params "burst_freq"; py_num v) = Ok burst_freq ->
  (v ← getitem params "burst_scale"; py_num v) = Ok burst_scale ->
  (v ← getitem params "amp_burst"; py_num v) = Ok amp_burst ->
  0 < burst_scale -> 0 < burst_freq <= 10 * 365.25 ->
  Forall (fun e => e <= t0 + burst_freq + burst_scale) epochs ->
  epochs <> [] ->
  amcvn_adds params 10 epochs = Ok (repeat 0 (length epochs))
  /\ list_min (repeat 0 (length epochs)) = Some 0.
Proof.
  intros Ht0 Hf Hs Ha Hpos Hfreq Hall Hne. split.
  - eapply amcvn_adds_quiet; eauto.
  - destruct epochs as [|e epochs]; [congruence|]. apply list_min_repeat_0.
Qed.

End AmcvnClaims.

(** ** Every evaluator fills the six bands *)

Section BandClaims.
Context `{Ext : Externals}.

Arguments py_num : simpl never.
Arguments py_float : simpl never.
Arguments py_str : simpl never.
Arguments py_truth : simpl never.
Arguments amcvn_adds : simpl never.
Arguments list_min : simpl never.
Arguments list_max : simpl never.
Arguments agn_band : simpl never.
Arguments InterpolatedUnivariateSpline : simpl never.

Ltac unfold_M :=
  unfold mbind, M_bind, mret, M_ret, result_bind, result_ret,
         lift, raise, gets, modify in *.

Lemma six_bands_result (expmjd a : ndarray) :
  asize a = asize expmjd -> six_band_result expmjd (six_bands a).
Proof.
  intros Ha. split; [apply dom_six_bands|].
  intros b a' Hb. apply six_bands_lookup in Hb as ->. exact Ha.
Qed.

Lemma six_inserts_result (expmjd u g r i z y : ndarray) :
  Forall (fun a => asize a = asize expmjd) [u; g; r; i; z; y] ->
  six_band_result expmjd
    (<["y" := y]> (<["z" := z]> (<["i" := i]> (<["r" := r]>
       (<["g" := g]> (<["u" := u]> ∅)))))).
Proof.
  intros H. split; [apply dom_six_inserts|].
  repeat match goal with
         | H : Forall _ (_ :: _) |- _ => apply Forall_cons in H as [? H]
         end.
  intros b a Hb.
  repeat (apply lookup_insert_Some in Hb as [[_ <-]|[_ Hb]]; [assumption|]).
  rewrite lookup_empty in Hb. discriminate.
Qed.

Lemma six_band_result_fmap (f : R -> R) (expmjd : ndarray)
  (d : gmap string ndarray) :
  six_band_result expmjd d -> six_band_result expmjd (amap f <$> d).
Proof.
  intros [Hdom Hsize]. split; [now rewrite dom_fmap_L|].
  intros b a. rewrite lookup_fmap.
  destruct (d !! b) as [a0|] eqn:Hb; [|discriminate].
  intros [= <-]. rewrite asize_amap. eauto.
Qed.

Lemma traverse_keys {A B} (g : string * A -> result (string * B))
  (l : list (string * A)) (l' : list (string * B)) :
  (forall kf kb, g kf = Ok kb -> kb.1 = kf.1) ->
  traverse g l = Ok l' -> l'.*1 = l.*1.
Proof.
  intros Hg. revert l'. induction l as [|kf l IH]; intros l'; simpl.
  - now intros [= <-].
  - destruct (g kf) as [kb|] eqn:Hkf; [|discriminate].
    destruct (traverse g l) as [bs|]; [|discriminate].
    intros [= <-]. cbn. f_equal; [now apply Hg|now apply IH].
Qed.

Lemma eval_splines_result (spl : gmap string interpolator)
  (phase : ndarray) (d : gmap string ndarray) :
  eval_splines spl phase = Ok d ->
  dom d = dom spl /\ forall b a, d !! b = Some a -> asize a = asize phase.
Proof.
  unfold eval_splines.
  set (g := fun kf : string * interpolator => pair kf.1 <$> acall kf.2 phase).
  destruct (traverse g (map_to_list spl)) as [l|] eqn:Ht; [|discriminate].
  cbn. intros [= <-].
  assert (Hg : forall kf kb, g kf = Ok kb ->
             kb.1 = kf.1 /\ acall kf.2 phase = Ok kb.2).
  { intros kf kb. unfold g. destruct (acall kf.2 phase); [|discriminate].
    cbn. intros [= <-]. auto. }
  split.
  - rewrite dom_list_to_map_L.
    rewrite (traverse_keys g _ _ (fun kf kb H => proj1 (Hg kf kb H)) Ht).
    apply leibniz_equiv. symmetry. apply dom_alt.
  - intros b a Hb. apply elem_of_list_to_map_2 in Hb.
    apply list_elem_of_lookup in Hb as [i Hi].
    destruct (traverse_lookup g _ _ i _ Ht Hi) as (kf & _ & Hkf).
    apply Hg in Hkf as [_ Hcall]. eapply acall_asize; eauto.
Qed.

Lemma load_template_dom (w w' : World) (filename inPeriod : value)
  (inDays : bool) (interpFactory : option factory)
  (spl : gmap string interpolator) (per : value) :
  cache_ok w ->
  load_template filename inPeriod inDays interpFactory w
    = (Ok (spl, per), w') ->
  dom spl = band_labels.
Proof.
  intros Hok. unfold load_template, self_variabilityLcCache,
    self_variabilityDataDir, self_variabilityCache, loadtxt.
  unfold_M. cbn.
  destruct (variabilityInitialized w) eqn:Hi; [|discriminate].
  destruct (match filename with
            | VStr f => variabilityLcCache w !! f | _ => None end)
    as [t|] eqn:Hlook; cbn.
  - intros [= <- _ _]. destruct filename; try discriminate. eauto.
  - destruct (variabilityDataDir w); cbn; [|discriminate].
    destruct (py_str filename); cbn; [|discriminate].
    destruct (files w !! _); cbn; [|discriminate].
    destruct (template_period inPeriod _); cbn; [|discriminate].
    destruct (normalize_axis inDays _ _); cbn; [|discriminate].
    destruct (build_splines _ _) eqn:Hb; cbn; [|discriminate].
    rewrite Hi. cbn. destruct (variabilityCache w); cbn;
      intros [= <- _ _]; eapply build_splines_dom; eauto.
Qed.

Lemma applyStdPeriodic_result (w : World) (params : dict)
  (keymap : gmap string string) (inPeriod : value) (inDays : bool)
  (interpFactory : option factory) (d : gmap string ndarray) :
  cache_ok w ->
  (applyStdPeriodic params keymap inPeriod inDays interpFactory w).1 = Ok d ->
  six_band_result (Opsim_expmjd w) d.
Proof.
  intros Hok. rewrite applyStdPeriodic_unfold.
  destruct (_ ← getitem keymap "filename"; _) as [filename|];
    [|discriminate].
  destruct (_ ← getitem keymap "t0"; _) as [toff|]; [|discriminate].
  destruct (load_template _ _ _ _ w) as [[[spl per]|] w'] eqn:Hload;
    [|discriminate].
  cbn. destruct (py_num per) as [p|]; [|discriminate]. cbn.
  intros Hev. apply eval_splines_result in Hev as [Hdom Hsize].
  split.
  - rewrite Hdom. eapply load_template_dom; eauto.
  - intros b a Hb. rewrite (Hsize b a Hb), !asize_amap. reflexivity.
Qed.

Arguments applyStdPeriodic : simpl never.

Ltac run_hyp H :=
  repeat match type of H with
         | context [match applyStdPeriodic ?a ?b ?c ?d ?e ?w with _ => _ end] =>
             destruct (applyStdPeriodic a b c d e w) as [[?|?] ?] eqn:?;
             cbn in H
         | context [match ?x with _ => _ end] => destruct x eqn:?; cbn in H
         end;
  try discriminate.

Ltac periodic_result :=
  match goal with
  | Hrun : applyStdPeriodic _ _ _ _ _ ?w = (Ok ?d, _) |- _ =>
      apply (f_equal fst) in Hrun; cbn in Hrun;
      eapply applyStdPeriodic_result in Hrun; [|eassumption]
  end.

Lemma applyMflare_result (w : World) (params : dict)
  (d : gmap string ndarray) :
  cache_ok w -> (applyMflare params w).1 = Ok d ->
  six_band_result (Opsim_expmjd w) d.
Proof.
  intros Hok H. unfold applyMflare in H. unfold_M. cbn in H. run_hyp H.
  injection H as <-. periodic_result. now apply six_band_result_fmap.
Qed.

Lemma applyRRly_result (w : World) (params : dict)
  (d : gmap string ndarray) :
  cache_ok w -> (applyRRly params w).1 = Ok d ->
  six_band_result (Opsim_expmjd w) d.
Proof. intros Hok H. now apply applyStdPeriodic_result in H. Qed.

Lemma applyCepheid_result (w : World) (params : dict)
  (d : gmap string ndarray) :
  cache_ok w -> (applyCepheid params w).1 = Ok d ->
  six_band_result (Opsim_expmjd w) d.
Proof.
  intros Hok H. unfold applyCepheid in H. unfold_M. cbn in H. run_hyp H.
  now apply applyStdPeriodic_result in H.
Qed.

Lemma applyEb_result (w : World) (params : dict)
  (d : gmap string ndarray) :
  cache_ok w -> (applyEb params w).1 = Ok d ->
  six_band_result (Opsim_expmjd w) d.
Proof.
  intros Hok H. unfold applyEb in H. unfold_M. cbn in H. run_hyp H.
  injection H as <-. periodic_result. now apply six_band_result_fmap.
Qed.

Lemma applyMicrolens_result (w : World) (params : dict)
  (d : gmap string ndarray) :
  (applyMicrolens params w).1 = Ok d ->
  six_band_result (Opsim_expmjd w) d /\ exists a, d = six_bands a.
Proof.
  intros H. unfold applyMicrolens in H. unfold_M. cbn in H. run_hyp H.
  injection H as <-. split; [|eauto].
  apply six_bands_result. now rewrite !asize_amap.
Qed.

Lemma applyMicrolensing_result (w : World) (params : dict)
  (d : gmap string ndarray) :
  (applyMicrolensing params w).1 = Ok d ->
  six_band_result (Opsim_expmjd w) d /\ exists a, d = six_bands a.
Proof.
  intros H. unfold applyMicrolensing in H. unfold_M. cbn in H. run_hyp H.
  injection H as <-. split; [|eauto].
  apply six_bands_result. now rewrite !asize_amap.
Qed.

Lemma applyBHMicrolens_result (w : World) (params : dict)
  (d : gmap string ndarray) :
  (applyBHMicrolens params w).1 = Ok d ->
  six_band_result (Opsim_expmjd w) d /\ exists a, d = six_bands a.
Proof.
  intros H. unfold applyBHMicrolens, self_variabilityDataDir, loadtxt in H.
  unfold_M. cbn in H. run_hyp H.
  injection H as <-. split; [|eauto].
  apply six_bands_result. unfold asize. cbn.
  now rewrite !length_map, elems_amap, length_map.
Qed.

Lemma agn_band_asize (nbins : nat) (dt sdt : R) (es : list R)
  (endepoch : R) (epochs a : ndarray) (sf : value) :
  agn_band nbins dt sdt es endepoch epochs sf = Ok a ->
  asize a = asize epochs.
Proof.
  unfold agn_band. unfold_M.
  destruct (match nbins with O => _ | S _ => _ end); [|discriminate].
  destruct (interp1d _ _); [|discriminate]. apply acall_asize.
Qed.

Lemma applyAgn_result (w : World) (params : dict)
  (d : gmap string ndarray) :
  (applyAgn params w).1 = Ok d -> six_band_result (Opsim_expmjd w) d.
Proof.
  intros H. unfold applyAgn in H. unfold_M. cbn in H. run_hyp H.
  injection H as <-. apply six_inserts_result.
  repeat constructor;
    match goal with
    | H : agn_band _ _ _ _ _ _ _ = Ok ?a |- asize ?a = _ =>
        apply agn_band_asize in H; rewrite H; apply asize_amap
    end.
Qed.

Lemma applyAmcvn_result (w : World) (params : dict)
  (d : gmap string ndarray) :
  (applyAmcvn params w).1 = Ok d -> six_band_result (Opsim_expmjd w) d.
Proof.
  intros H. unfold applyAmcvn in H. cbv zeta in H. unfold_M. cbn in H.
  destruct (Opsim_expmjd w) as [e|es] eqn:Hexp; cbn in H;
    repeat match type of H with
           | context [py_truth ?v] => destruct (py_truth v) eqn:?; cbn in H
           | context [match amcvn_adds ?p ?m ?l with _ => _ end] =>
               destruct (amcvn_adds p m l) eqn:?; cbn in H
           | context [match getitem ?p ?k with _ => _ end] =>
               destruct (getitem p k) eqn:?; cbn in H
           | context [match py_num ?v with _ => _ end] =>
               destruct (py_num v) eqn:?; cbn in H
           | context [list_min ?l] =>
               destruct (list_min l) eqn:?; cbn in H
           end;
    try discriminate; injection H as <-; apply six_inserts_result.
  all: repeat match goal with
         | H : amcvn_adds _ _ _ = Ok _ |- _ =>
             apply amcvn_adds_length in H; cbn in H
         end.
  all: repeat constructor; unfold asize; cbn;
         rewrite ?length_zip_with, ?length_map; lia.
Qed.

Lemma registered_result (w : World) (name : string)
  (method : dict -> M (gmap string ndarray)) (pars : dict)
  (d : gmap string ndarray) :
  cache_ok w -> variabilityMethods name = Some method ->
  (method pars w).1 = Ok d -> six_band_result (Opsim_expmjd w) d.
Proof.
  intros Hok. unfold variabilityMethods.
  repeat match goal with
         | |- (if ?b then _ else _) = _ -> _ => destruct b
         end;
    intros [= <-] Hrun;
    eauto using applyMflare_result, applyRRly_result, applyCepheid_result,
      applyEb_result, applyAgn_result, applyAmcvn_result.
  - now apply applyMicrolens_result in Hrun.
  - now apply applyMicrolensing_result in Hrun.
  - now apply applyBHMicrolens_result in Hrun.
Qed.

Lemma applyVariability_result (w : World) (name : string) (pars : dict)
  (d : gmap string ndarray) :
  cache_ok w -> (applyVariability name pars w).1 = Ok d ->
  six_band_result (Opsim_expmjd w) d.
Proof.
  intros Hok. unfold applyVariability. unfold_M. cbn.
  destruct (variabilityInitialized w) eqn:Hi; cbn.
  - destruct (variabilityMethods name) as [m|] eqn:Hm; cbn; [|discriminate].
    now apply registered_result with name.
  - unfold initializeVariability.
    destruct (CAT_SHARE_DATA w); cbn; [|discriminate].
    destruct (variabilityMethods name) as [m|] eqn:Hm; cbn; [|discriminate].
    match goal with
    | |- (m pars ?w1).1 = _ -> _ =>
        intros Hrun;
        apply (registered_result w1 name m pars d) in Hrun; [exact Hrun| |exact Hm]
    end.
    intros f t Hf. cbn in Hf. rewrite lookup_empty in Hf. discriminate.
Qed.

Lemma reachable_cache_ok (w0 w : World) (doCache : bool) :
  steps (initializeVariability doCache w0).2 w -> cache_ok w.
Proof.
  intros Hsteps.
  assert (Hinit : variabilityInitialized (initializeVariability doCache w0).2
                  = true
                  /\ cache_ok (initializeVariability doCache w0).2).
  { unfold initializeVariability.
    destruct (CAT_SHARE_DATA w0); cbn; (split; [reflexivity|]);
      intros f t Hf; cbn in Hf; rewrite lookup_empty in Hf; discriminate. }
  destruct Hinit as [Hi Hok].
  eapply evolves_cache_ok; [exact Hi|apply steps_evolves; exact Hsteps|exact Hok].
Qed.

(** C9. On an engine that has been initialised, whatever was evaluated
    since, every model evaluator that returns gives a mapping whose keys
    are exactly u, g, r, i, z, y, each with one value per observation
    epoch; the achromatic evaluators (the two microlensing ones and the
    black-hole one) put the same array under the six labels. *)
Theorem every_evaluator_fills_six_bands
  (w0 w : World) (doCache : bool) (run : M (gmap string ndarray))
  (d : gmap string ndarray) :
  steps (initializeVariability doCache w0).2 w ->
  evaluator run ->
  (run w).1 = Ok d ->
  dom d = band_labels
  /\ (forall b a, d !! b = Some a -> asize a = asize (Opsim_expmjd w))
  /\ (forall pars,
        run = applyMicrolens pars \/ run = applyMicrolensing pars
        \/ run = applyBHMicrolens pars ->
        exists a, d = six_bands a).
Proof.
  intros Hsteps Hev Hrun.
  pose proof (reachable_cache_ok _ _ _ Hsteps) as Hok.
  assert (Hres : six_band_result (Opsim_expmjd w) d).
  { destruct Hev.
    - eapply registered_result; eauto.
    - eapply applyVariability_result; eauto.
    - eapply applyStdPeriodic_result; eauto. }
  destruct Hres as [Hdom Hsize]. split; [exact Hdom|]. split; [exact Hsize|].
  intros pars [->|[->| ->]].
  - now apply applyMicrolens_result in Hrun.
  - now apply applyMicrolensing_result in Hrun.
  - now apply applyBHMicrolens_result in Hrun.
Qed.

End BandClaims.

(** * More on the pieces *)

Section MorePieces.
Context `{Ext : Externals}.

Ltac unfold_M :=
  unfold mbind, M_bind, mret, M_ret, result_bind, result_ret,
         lift, raise, gets, modify in *.

(** The value of a band at one epoch is the interpolator there. *)
Lemma acall_lookup (f : interpolator) (e a : ndarray) (i : nat) (x : R) :
  acall f e = Ok a -> elems e !! i = Some x ->
  exists v, f x = Ok v /\ elems a !! i = Some v.
Proof.
  destruct e as [x0|xs]; cbn.
  - destruct (f x0) as [v|] eqn:Hf; cbn; [|discriminate].
    intros [= <-] Hi. destruct i; [|discriminate].
    injection Hi as <-. exists v. auto.
  - destruct (traverse f xs) as [vs|] eqn:Ht; cbn; [|discriminate].
    intros [= <-] Hi. cbn.
    revert vs i Ht Hi. induction xs as [|x1 xs IH]; intros vs i Ht Hi.
    + discriminate.
    + cbn in Ht. destruct (f x1) as [v1|] eqn:Hf1; [|discriminate].
      destruct (traverse f xs) as [vs'|]; [|discriminate].
      injection Ht as <-. destruct i as [|i].
      * injection Hi as <-. exists v1. auto.
      * apply (IH vs' i eq_refl Hi).
Qed.

Lemma acall_Ok_pointwise (f : interpolator) (e a : ndarray) (x : R) :
  acall f e = Ok a -> In x (elems e) -> exists v, f x = Ok v.
Proof.
  intros Hcall Hin. apply list_elem_of_In, list_elem_of_lookup in Hin.
  destruct Hin as [i Hi].
  destruct (acall_lookup f e a i x Hcall Hi) as (v & Hv & _). eauto.
Qed.

(** Between its end knots the interpolator is the segment formula. *)
Lemma interp1d_Ok_eval (xs ys : list R) (f : interpolator) (lo hi t : R) :
  interp1d xs ys = Ok f -> head xs = Some lo -> last xs = Some hi ->
  lo <= t <= hi ->
  f t = option_or_raise ValueError (linear_eval xs ys t).
Proof.
  unfold interp1d. intros Hf Hlo Hhi Ht.
  destruct (negb _); [discriminate|].
  destruct (_ <? _)%nat; [discriminate|].
  injection Hf as <-. rewrite Hlo, Hhi.
  destruct (Rlt_dec t lo); [lra|].
  destruct (Rlt_dec hi t); [lra|]. reflexivity.
Qed.


Lemma interp1d_out_of_range (xs ys : list R) (f : interpolator)
  (lo hi t : R) :
  interp1d xs ys = Ok f -> head xs = Some lo -> last xs = Some hi ->
  t < lo \/ hi < t ->
  f t = Raise ValueError.
Proof.
  unfold interp1d. intros Hf Hlo Hhi Ht.
  destruct (negb _); [discriminate|].
  destruct (_ <? _)%nat; [discriminate|].
  injection Hf as <-. rewrite Hlo, Hhi.
  destruct (Rlt_dec t lo); [reflexivity|].
  destruct (Rlt_dec hi t); [reflexivity|]. lra.
Qed.






(** What [eval_splines] returns is, band by band, the interpolator of the
    band on the phases. *)
Lemma eval_splines_lookup (spl : gmap string interpolator)
  (phase : ndarray) (d : gmap string ndarray) (b : string) (a : ndarray) :
  eval_splines spl phase = Ok d -> d !! b = Some a ->
  exists f, spl !! b = Some f /\ acall f phase = Ok a.
Proof.
  unfold eval_splines.
  set (g := fun kf : string * interpolator => pair kf.1 <$> acall kf.2 phase).
  destruct (traverse g (map_to_list spl)) as [l|] eqn:Ht; [|discriminate].
  cbn. intros [= <-] Hb.
  apply elem_of_list_to_map_2 in Hb.
  apply list_elem_of_lookup in Hb as [i Hi].
  destruct (traverse_lookup g _ _ i _ Ht Hi) as ([b' f] & Hkf & Hg).
  unfold g in Hg. cbn in Hg.
  destruct (acall f phase) as [a'|] eqn:Hcall; [|discriminate].
  cbn in Hg. injection Hg as -> ->.
  exists f. split; [|exact Hcall].
  apply elem_of_map_to_list. eapply list_elem_of_lookup_2; eauto.
Qed.

Lemma eval_splines_Ok_all (spl : gmap string interpolator)
  (phase : ndarray) (d : gmap string ndarray) (b : string)
  (f : interpolator) :
  eval_splines spl phase = Ok d -> spl !! b = Some f ->
  exists a, d !! b = Some a /\ acall f phase = Ok a.
Proof.
  intros Hev Hb.
  destruct (eval_splines_result spl phase d Hev) as [Hdom _].
  assert (Hin : b ∈ dom d) by (rewrite Hdom; now apply elem_of_dom).
  apply elem_of_dom in Hin as [a Ha].
  destruct (eval_splines_lookup spl phase d b a Hev Ha) as (f' & Hf' & Hc).
  assert (f' = f) as -> by congruence. eauto.
Qed.

Lemma traverse_raises_inv {A B} (f : A -> result B) (l : list A) (a : A)
  (e : exn) :
  In a l -> f a = Raise e -> exists e', traverse f l = Raise e'.
Proof.
  induction l as [|a0 l IH]; [intros []|].
  intros [-> | Hin] Hfa; cbn.
  - rewrite Hfa. eauto.
  - destruct (f a0); [|eauto].
    destruct (IH Hin Hfa) as [e' ->]. eauto.
Qed.

Lemma eval_splines_raises (spl : gmap string interpolator)
  (phase : ndarray) (e : exn) :
  eval_splines spl phase = Raise e ->
  exists b f, spl !! b = Some f /\ acall f phase = Raise e.
Proof.
  unfold eval_splines.
  set (g := fun kf : string * interpolator => pair kf.1 <$> acall kf.2 phase).
  destruct (traverse g (map_to_list spl)) as [l|e'] eqn:Ht; [discriminate|].
  cbn. intros [= ->].
  apply traverse_raises in Ht as ([b f] & Hin & Hg).
  exists b, f. split.
  - apply elem_of_map_to_list, list_elem_of_In, Hin.
  - unfold g in Hg. cbn in Hg. destruct (acall f phase); [discriminate|].
    cbn in Hg. congruence.
Qed.

Lemma eval_splines_all_Ok (spl : gmap string interpolator)
  (phase : ndarray) :
  (forall b f, spl !! b = Some f -> exists a, acall f phase = Ok a) ->
  exists d, eval_splines spl phase = Ok d.
Proof.
  intros Hall. unfold eval_splines.
  destruct (traverse_all_Ok
              (fun kf : string * interpolator =>
                 pair kf.1 <$> acall kf.2 phase) (map_to_list spl))
    as [l ->].
  - intros [b f] Hin. cbn.
    apply list_elem_of_In, elem_of_map_to_list in Hin.
    destruct (Hall b f Hin) as [a ->]. cbn. eauto.
  - cbn. eauto.
Qed.


(** [s[:-5]] takes five characters off the end. *)
Lemma substring_prefix (p s : string) :
  String.substring 0 (String.length p) (p +:+ s) = p.
Proof.
  induction p as [|c p IH].
  - now destruct s.
  - change (String c p +:+ s) with (String c (p +:+ s)).
    cbn [String.length String.substring]. f_equal. exact IH.
Qed.

Lemma string_length_app (p s : string) :
  String.length (p +:+ s) = (String.length p + String.length s)%nat.
Proof.
  induction p as [|c p IH]; [reflexivity|].
  change (String c p +:+ s) with (String c (p +:+ s)).
  cbn [String.length]. now rewrite IH.
Qed.

Lemma drop_last5_app (p s : string) :
  String.length s = 5%nat -> drop_last5 (p +:+ s) = p.
Proof.
  intros Hs. unfold drop_last5.
  replace (String.length (p +:+ s) - 5)%nat with (String.length p).
  - apply substring_prefix.
  - rewrite string_length_app. lia.
Qed.

(** The sign of a magnitude offset [-2.5 log10 x]. *)
Lemma magnitude_sign (x : R) :
  (x = 1 -> -2.5 * log10 x = 0)
  /\ (0 < x < 1 -> 0 < -2.5 * log10 x)
  /\ (1 < x -> -2.5 * log10 x < 0).
Proof.
  unfold log10. pose proof ln10_pos as H10.
  split; [|split].
  - intros ->. rewrite ln_1.
    assert (0 / ln 10 = 0) by (unfold Rdiv; ring). lra.
  - intros [H0 H1]. apply ln_increasing in H1; [|exact H0].
    rewrite ln_1 in H1.
    assert (0 < - ln x / ln 10).
    { unfold Rdiv. apply Rmult_lt_0_compat; [lra|].
      now apply Rinv_0_lt_compat. }
    assert (- ln x / ln 10 = - (ln x / ln 10)) by (unfold Rdiv; ring).
    lra.
  - intros H1. apply ln_increasing in H1; [|lra]. rewrite ln_1 in H1.
    assert (0 < ln x / ln 10).
    { unfold Rdiv. apply Rmult_lt_0_compat; [lra|].
      now apply Rinv_0_lt_compat. }
    lra.
Qed.



End MorePieces.

(** * The rest of the class *)

(** ** The dispatcher and the initialisation (lines 18-61) *)

Section EngineExtras.
Context `{Ext : Externals}.

Ltac unfold_M :=
  unfold mbind, M_bind, mret, M_ret, result_bind, result_ret,
         lift, raise, gets, modify in *.

Lemma variabilityMethods_None (name : string) :
  name ∉ registered_names -> variabilityMethods name = None.
Proof.
  intros Hn. unfold variabilityMethods.
  repeat match goal with
         | |- (if String.eqb ?a ?b then _ else _) = _ =>
             destruct (String.eqb_spec a b) as [->|_];
             [exfalso; apply Hn; unfold registered_names; set_solver|]
         end.
  reflexivity.
Qed.

(** What [initializeVariability] leaves behind, whether it raises or not. *)
Lemma initializeVariability_state (w : World) (doCache : bool) :
  let w1 := (initializeVariability doCache w).2 in
  variabilityInitialized w1 = true
  /\ variabilityCache w1 = doCache
  /\ variabilityLcCache w1 = ∅
  /\ Opsim_expmjd w1 = Opsim_expmjd w
  /\ loadtxt_log w1 = loadtxt_log w
  /\ files w1 = files w
  /\ CAT_SHARE_DATA w1 = CAT_SHARE_DATA w.
Proof.
  unfold initializeVariability. destruct (CAT_SHARE_DATA w) eqn:He; cbn;
    rewrite ?He; repeat split; reflexivity.
Qed.

(** On an initialised engine the dispatcher is the registry lookup and the
    call. *)
Lemma applyVariability_initialized (w : World) (name : string) (pars : dict) :
  variabilityInitialized w = true ->
  applyVariability name pars w
  = match variabilityMethods name with
    | Some method => method pars w
    | None => (Raise KeyError, w)
    end.
Proof.
  intros Hi. unfold applyVariability. unfold_M. cbn. rewrite Hi. cbn.
  destruct (variabilityMethods name); reflexivity.
Qed.

(** X1. A model name that is not registered makes applyVariability raise
    KeyError, on an engine that is initialised or can be (CAT_SHARE_DATA
    is set); the engine is initialised afterwards, and untouched if it was
    initialised before. *)
Theorem applyVariability_unknown_model
  (w : World) (name : string) (pars : dict) :
  name ∉ registered_names ->
  variabilityInitialized w = true \/ is_Some (CAT_SHARE_DATA w) ->
  (applyVariability name pars w).1 = Raise KeyError
  /\ variabilityInitialized (applyVariability name pars w).2 = true
  /\ (variabilityInitialized w = true ->
      (applyVariability name pars w).2 = w).
Proof.
  intros Hn Hw. apply variabilityMethods_None in Hn.
  destruct (variabilityInitialized w) eqn:Hi.
  - rewrite applyVariability_initialized, Hn by exact Hi. cbn. auto.
  - destruct Hw as [Hw|[d Hd]]; [discriminate|].
    unfold applyVariability, initializeVariability. unfold_M. cbn.
    rewrite Hi, Hd. cbn. rewrite Hn. cbn.
    split; [reflexivity|]. split; [reflexivity|]. discriminate.
Qed.

(** X2. An engine that the dispatcher initialises itself has caching off:
    after the first applyVariability on an engine that was not initialised,
    and whatever is evaluated later, the template cache is empty. *)
Theorem lazy_initialisation_never_caches
  (w w' : World) (name : string) (pars : dict) :
  variabilityInitialized w = false ->
  steps (applyVariability name pars w).2 w' ->
  variabilityInitialized w' = true
  /\ variabilityCache w' = false
  /\ variabilityLcCache w' = ∅.
Proof.
  intros Hi Hsteps.
  set (w1 := (initializeVariability false w).2).
  destruct (initializeVariability_state w false)
    as (Hi1 & Hc1 & Hk1 & _). fold w1 in Hi1, Hc1, Hk1.
  assert (Hev : evolves w1 (applyVariability name pars w).2).
  { unfold applyVariability. unfold_M. cbn. rewrite Hi. fold w1.
    destruct (initializeVariability false w) as [[[]|e] w1'] eqn:Hinit;
      subst w1; cbn in *; [|apply evolves_refl].
    destruct (variabilityMethods name) as [m|] eqn:Hm; cbn;
      [|apply evolves_refl].
    now apply (preserves_variabilityMethods name m pars). }
  pose proof (evolves_trans _ _ _ Hev (steps_evolves _ _ Hsteps)) as Hall.
  destruct (Hall Hi1) as (Hi' & Hc' & _ & _ & Hoff & _).
  split; [exact Hi'|]. split; [congruence|].
  rewrite Hoff by exact Hc1. exact Hk1.
Qed.

(** X3. When CAT_SHARE_DATA is not set, the first applyVariability raises
    AttributeError whatever the model, but leaves the engine marked as
    initialised, without a data directory: later calls do not initialise
    again, they go straight to the registry. *)
Theorem failed_initialisation_is_not_retried
  (w : World) (name : string) (pars : dict) :
  variabilityInitialized w = false ->
  CAT_SHARE_DATA w = None ->
  (applyVariability name pars w).1 = Raise AttributeError
  /\ variabilityInitialized (applyVariability name pars w).2 = true
  /\ variabilityDataDir (applyVariability name pars w).2
     = variabilityDataDir w
  /\ forall name' pars',
       applyVariability name' pars' (applyVariability name pars w).2
       = match variabilityMethods name' with
         | Some method => method pars' (applyVariability name pars w).2
         | None => (Raise KeyError, (applyVariability name pars w).2)
         end.
Proof.
  intros Hi He.
  assert (Hrun : applyVariability name pars w
                 = (Raise AttributeError, (initializeVariability false w).2)).
  { unfold applyVariability, initializeVariability. unfold_M. cbn.
    rewrite Hi, He. reflexivity. }
  rewrite Hrun. cbn [fst snd].
  assert (Hi1 : variabilityInitialized (initializeVariability false w).2
                = true) by apply initializeVariability_state.
  split; [reflexivity|]. split; [exact Hi1|]. split.
  - unfold initializeVariability. rewrite He. reflexivity.
  - intros name' pars'. now apply applyVariability_initialized.
Qed.

(** X4. initializeVariability forgets every cached template: with
    CAT_SHARE_DATA set it returns, the cache is empty and the flag is the
    one asked for; running it again changes nothing more; and the next
    load of any file, cached before or not, reads the file. *)
Theorem initializeVariability_forgets_templates
  (w : World) (doCache : bool) (d f : string) (inPeriod : value)
  (inDays : bool) (interpFactory : option factory) :
  CAT_SHARE_DATA w = Some d ->
  let w1 := (initializeVariability doCache w).2 in
  let dir := os_path_join (os_path_join d "data") "LightCurves" in
  initializeVariability doCache w = (Ok tt, w1)
  /\ variabilityLcCache w1 = ∅
  /\ variabilityCache w1 = doCache
  /\ variabilityDataDir w1 = Some dir
  /\ initializeVariability doCache w1 = (Ok tt, w1)
  /\ loadtxt_log (load_template (VStr f) inPeriod inDays interpFactory w1).2
     = (dir +:+ "/" +:+ f) :: loadtxt_log w.
Proof.
  intros He w1 dir.
  assert (Hw1 : initializeVariability doCache w = (Ok tt, w1)).
  { unfold w1, initializeVariability. rewrite He. reflexivity. }
  assert (Hfields : variabilityInitialized w1 = true
                    /\ variabilityLcCache w1 = ∅
                    /\ variabilityCache w1 = doCache
                    /\ variabilityDataDir w1 = Some dir
                    /\ loadtxt_log w1 = loadtxt_log w).
  { unfold w1, initializeVariability. rewrite He. cbn. auto. }
  destruct Hfields as (Hi & Hk & Hc & Hd & Hl).
  split; [exact Hw1|]. split; [exact Hk|]. split; [exact Hc|].
  split; [exact Hd|]. split.
  - unfold w1, initializeVariability. rewrite He. cbn. rewrite ?He.
    reflexivity.
  - rewrite (load_template_miss w1 f dir) by
      (try assumption; rewrite Hk; apply lookup_empty).
    cbv zeta. destruct (fresh_template _ _ _ _) as [[spl per]|e]; cbn.
    + destruct (variabilityCache w1); cbn; now rewrite Hl.
    + now rewrite Hl.
Qed.

(** X5. No evaluation evicts or replaces a cached template: on an
    initialised engine the cache only grows, and with caching off it does
    not change at all. *)
Theorem cached_templates_are_never_evicted (w w' : World) :
  variabilityInitialized w = true ->
  steps w w' ->
  (forall f t, variabilityLcCache w !! f = Some t ->
               variabilityLcCache w' !! f = Some t)
  /\ (variabilityCache w = false ->
      variabilityLcCache w' = variabilityLcCache w).
Proof.
  intros Hi Hsteps.
  destruct (steps_evolves _ _ Hsteps Hi) as (_ & _ & _ & Hkeep & Hoff & _).
  auto.
Qed.

End EngineExtras.

(** ** What the methods do to the engine *)

Section FrameExtras.
Context `{Ext : Externals}.

Ltac unfold_M :=
  unfold mbind, M_bind, mret, M_ret, result_bind, result_ret,
         lift, raise, gets, modify in *.

Lemma epochs_only_ret {A} (a : A) : epochs_only (mret a).
Proof. intros w w' _. reflexivity. Qed.

Lemma epochs_only_lift {A} (r : result A) : epochs_only (lift r).
Proof. intros w w' _. reflexivity. Qed.

Lemma epochs_only_raise {A} (e : exn) : epochs_only (raise e : M A).
Proof. intros w w' _. reflexivity. Qed.

Lemma epochs_only_expmjd : epochs_only (gets Opsim_expmjd).
Proof. intros w w' H. unfold gets. cbn. now rewrite H. Qed.

Lemma epochs_only_bind {A B} (m : M A) (k : A -> M B) :
  epochs_only m -> (forall a, epochs_only (k a)) -> epochs_only (m ≫= k).
Proof.
  intros Hm Hk w w' H. unfold mbind, M_bind.
  rewrite (Hm w w' H). pose proof (Hm w' w' eq_refl) as Hw'.
  destruct (m w') as [[a|e] w1']; cbn in *.
  - injection Hw' as ->. apply Hk, H.
  - reflexivity.
Qed.

Ltac epochs_only_tac :=
  repeat first
    [ apply epochs_only_ret
    | apply epochs_only_lift
    | apply epochs_only_raise
    | apply epochs_only_expmjd
    | apply epochs_only_bind; [|intros]
    | match goal with
      | |- epochs_only (match ?x with _ => _ end) => destruct x
      | |- epochs_only (let '(_, _) := ?x in _) => destruct x
      end ].

(** X6. The three analytic models (applyMicrolens, applyMicrolensing,
    applyAmcvn) never change the engine and look at nothing of it but the
    observation epochs: they need no initialisation, no data directory and
    no file, and return (or raise) the same on any two engines that hold
    the same epochs. *)
Theorem analytic_models_use_only_epochs (params : dict) (w w' : World) :
  Opsim_expmjd w = Opsim_expmjd w' ->
  applyMicrolens params w = ((applyMicrolens params w').1, w)
  /\ applyMicrolensing params w = ((applyMicrolensing params w').1, w)
  /\ applyAmcvn params w = ((applyAmcvn params w').1, w).
Proof.
  intros H. repeat split; revert w w' H.
  - change (epochs_only (applyMicrolens params)).
    unfold applyMicrolens. epochs_only_tac.
  - change (epochs_only (applyMicrolensing params)).
    unfold applyMicrolensing. epochs_only_tac.
  - change (epochs_only (applyAmcvn params)).
    unfold applyAmcvn. epochs_only_tac.
Qed.

(** X7. applyBHMicrolens has no cache: with a file name, a zero point and
    a data directory it reads the file on every call, also on an engine
    with caching on, and it leaves the template cache alone. Two calls in a
    row read the same file twice. *)
Theorem bh_microlens_reads_file_every_time
  (params : dict) (w : World) (f dir : string) (toff : R) :
  getitem params "filename" = Ok (VStr f) ->
  (v ← getitem params "t0"; py_float v) = Ok toff ->
  variabilityDataDir w = Some dir ->
  let path := dir +:+ "/" +:+ f in
  (applyBHMicrolens params w).2 = set_loadtxt_log (path :: loadtxt_log w) w
  /\ loadtxt_log (applyBHMicrolens params (applyBHMicrolens params w).2).2
     = path :: path :: loadtxt_log w.
Proof.
  intros Hf Ht Hd path.
  assert (Hrun : forall w0, variabilityDataDir w0 = Some dir ->
            (applyBHMicrolens params w0).2
            = set_loadtxt_log ((dir +:+ "/" +:+ f) :: loadtxt_log w0) w0).
  { intros w0 Hd0. unfold applyBHMicrolens.
    rewrite bind_gets, (bind_lift_Ok _ _ _ _ Hf), (bind_lift_Ok _ _ _ _ Ht).
    cbv zeta. unfold self_variabilityDataDir, loadtxt. unfold_M.
    rewrite Hd0. cbn.
    repeat match goal with
           | |- context [match ?x with _ => _ end] =>
               destruct x; cbn; try reflexivity
           end. }
  split; [now apply Hrun|].
  rewrite (Hrun w Hd), Hrun by exact Hd. reflexivity.
Qed.

End FrameExtras.

(** ** applyAgn (lines 156-191) *)

Section AgnExtras.
Context `{Ext : Externals}.

Arguments py_float : simpl never.
Arguments py_int : simpl never.
Arguments py_num : simpl never.
Arguments agn_band : simpl never.
Arguments list_min : simpl never.
Arguments list_max : simpl never.

Ltac unfold_M :=
  unfold mbind, M_bind, mret, M_ret, result_bind, result_ret,
         lift, raise, gets, modify in *.

(** Without a bin the grid has one point, which [interp1d] refuses. *)
Lemma agn_band_no_bins (dt sdt : R) (es : list R) (endepoch : R)
  (epochs : ndarray) (sf : value) :
  agn_band 0 dt sdt es endepoch epochs sf = Raise ValueError.
Proof. reflexivity. Qed.

(** A run of applyAgn that returns, read backwards. *)
Lemma applyAgn_Ok_inv (params : dict) (w : World) (d : gmap string ndarray) :
  (applyAgn params w).1 = Ok d ->
  exists (toff : R) (seed : Z) (g : rng_state) (tau endepoch : R),
    (v ← getitem params "t0_mjd"; py_float v) = Ok toff
    /\ (v ← getitem params "seed"; py_int v) = Ok seed
    /\ random_seed seed = Some g
    /\ (v ← getitem params "agn_tau"; py_num v) = Ok tau
    /\ list_max (map (fun t => t - toff) (elems (Opsim_expmjd w)))
       = Some endepoch
    /\ (forall x, In x (map (fun t => t - toff) (elems (Opsim_expmjd w))) ->
                  0 <= x)
    /\ let nbins := Z.to_nat (Zceil (endepoch / (tau / 100))) in
       let dt := endepoch / IZR (Zceil (endepoch / (tau / 100))) / tau in
       (1 <= nbins)%nat
       /\ (applyAgn params w).2 = set_rng (random_normal g nbins).2 w
       /\ Forall (fun bk : string * string =>
            exists sf a,
              params !! bk.2 = Some sf
              /\ agn_band nbins dt (sqrt dt) (random_normal g nbins).1
                   endepoch (amap (fun t => t - toff) (Opsim_expmjd w)) sf
                 = Ok a
              /\ d !! bk.1 = Some a) agn_bands.
Proof.
  unfold applyAgn. unfold_M. cbn. unfold getitem.
  destruct (params !! "t0_mjd") as [v0|]; cbn; [|discriminate].
  destruct (py_float v0) as [toff|]; cbn; [|discriminate].
  destruct (params !! "seed") as [vs|] eqn:Hs; cbn; [|discriminate].
  destruct (py_int vs) as [seed|] eqn:Hseed; cbn; [|discriminate].
  destruct (params !! "agn_sfu") as [sfu|] eqn:Hu; cbn; [|discriminate].
  destruct (params !! "agn_sfg") as [sfg|] eqn:Hg; cbn; [|discriminate].
  destruct (params !! "agn_sfr") as [sfr|] eqn:Hr; cbn; [|discriminate].
  destruct (params !! "agn_sfi") as [sfi|] eqn:Hi; cbn; [|discriminate].
  destruct (params !! "agn_sfz") as [sfz|] eqn:Hz; cbn; [|discriminate].
  destruct (params !! "agn_sfy") as [sfy|] eqn:Hy; cbn; [|discriminate].
  destruct (params !! "agn_tau") as [vtau|]; cbn; [|discriminate].
  destruct (list_min _) as [emin|] eqn:Hmin; cbn; [|discriminate].
  destruct (Rlt_dec emin 0) as [|Hpos]; cbn; [discriminate|].
  destruct (list_max _) as [endepoch|] eqn:Hmax; cbn; [|discriminate].
  destruct (py_num vtau) as [tau|] eqn:Htau; cbn; [|discriminate].
  destruct (Req_dec_T (tau / 100) 0); cbn; [discriminate|].
  destruct (decide _); cbn; [discriminate|].
  destruct (random_seed seed) as [g|] eqn:Hg0; cbn; [|discriminate].
  destruct (decide _); cbn; [discriminate|].
  set (nbins := Z.to_nat (Zceil (endepoch / (tau / 100)))).
  set (dt := endepoch / IZR (Zceil (endepoch / (tau / 100))) / tau).
  destruct (agn_band nbins dt (sqrt dt) _ endepoch _ sfu) as [au|] eqn:Eu;
    cbn; [|discriminate].
  destruct (agn_band nbins dt (sqrt dt) _ endepoch _ sfg) as [ag|] eqn:Eg;
    cbn; [|discriminate].
  destruct (agn_band nbins dt (sqrt dt) _ endepoch _ sfr) as [ar|] eqn:Er;
    cbn; [|discriminate].
  destruct (agn_band nbins dt (sqrt dt) _ endepoch _ sfi) as [ai|] eqn:Ei;
    cbn; [|discriminate].
  destruct (agn_band nbins dt (sqrt dt) _ endepoch _ sfz) as [az|] eqn:Ez;
    cbn; [|discriminate].
  destruct (agn_band nbins dt (sqrt dt) _ endepoch _ sfy) as [ay|] eqn:Ey;
    cbn; [|discriminate].
  intros [= <-]. rewrite elems_amap in Hmin, Hmax.
  exists toff, seed, g, tau, endepoch.
  split; [reflexivity|]. split; [reflexivity|]. split; [exact Hg0|].
  split; [reflexivity|]. split; [exact Hmax|]. split.
  { intros x Hx. apply list_min_spec in Hmin as [_ Hle].
    specialize (Hle x Hx). lra. }
  split.
  { destruct (Nat.eq_dec nbins 0%nat) as [Hnone|]; [|unfold nbins in *; lia].
    rewrite Hnone, agn_band_no_bins in Eu. discriminate. }
  split; [reflexivity|].
  unfold agn_bands. repeat constructor; cbn; eexists _, _;
    (split; [eassumption|split; [eassumption|]]);
    now simplify_map_eq.
Qed.

(** On a grid that starts at 0, the walk that starts at 0 is 0 at 0. *)
Lemma agn_band_at_zero (nbins : nat) (dt sdt : R) (es : list R)
  (endepoch : R) (epochs a : ndarray) (sf : value) (i : nat) :
  agn_band nbins dt sdt es endepoch epochs sf = Ok a ->
  0 <= endepoch ->
  elems epochs !! i = Some 0 ->
  elems a !! i = Some 0.
Proof.
  intros Hband Hend Hi. destruct nbins as [|n].
  { rewrite agn_band_no_bins in Hband. discriminate. }
  unfold agn_band in Hband. unfold_M.
  destruct (py_num sf) as [s|]; [|discriminate].
  rewrite Nat.add_1_r in Hband.
  destruct (interp1d _ _) as [f|] eqn:Hf; [|discriminate].
  destruct (acall_lookup f epochs a i 0 Hband Hi) as (v & Hv & Ha).
  rewrite Ha. f_equal.
  destruct (linspace_ends endepoch (S n) ltac:(lia)) as [Hhd Hlast].
  rewrite (interp1d_Ok_eval _ _ _ 0 endepoch 0 Hf Hhd Hlast) in Hv by lra.
  unfold linspace in Hv. cbn [seq map agn_walk] in Hv.
  rewrite linear_eval_step in Hv.
  assert (0 < INR (S n)) by (apply lt_0_INR; lia).
  assert (0 <= (endepoch - 0) / INR (S n)).
  { apply Rmult_le_pos; [lra|]. left. now apply Rinv_0_lt_compat. }
  change (INR 1) with 1 in Hv. change (INR 0) with 0 in Hv.
  destruct (Rle_dec _ _) as [|Hn]; [|exfalso; apply Hn; lra].
  cbn in Hv. injection Hv as <-. lra.
Qed.

(** X8. At an observation epoch equal to t0_mjd a run of applyAgn that
    returns gives exactly 0 in every band: the random walk starts from 0
    at t0, whatever the seed, the amplitudes and the other epochs. *)
Theorem applyAgn_zero_at_reference_epoch
  (params : dict) (w : World) (d : gmap string ndarray) (toff : R)
  (i : nat) (b : string) (a : ndarray) :
  (applyAgn params w).1 = Ok d ->
  (v ← getitem params "t0_mjd"; py_float v) = Ok toff ->
  elems (Opsim_expmjd w) !! i = Some toff ->
  d !! b = Some a ->
  elems a !! i = Some 0.
Proof.
  intros Hrun Ht0 Hi Hb.
  destruct (applyAgn_result w params d Hrun) as [Hdom _].
  destruct (applyAgn_Ok_inv params w d Hrun)
    as (toff' & seed & g & tau & endepoch & Ht0' & _ & _ & _ & Hmax & Hpos
        & _ & _ & Hbands).
  assert (toff' = toff) as -> by congruence.
  assert (Hi0 : elems (amap (fun t => t - toff) (Opsim_expmjd w)) !! i
                = Some 0).
  { rewrite elems_amap, list_lookup_fmap, Hi. cbn. f_equal. lra. }
  assert (Hend : 0 <= endepoch).
  { apply Hpos. apply (list_max_spec _ _ Hmax). }
  assert (Hin : b ∈ band_labels) by (rewrite <- Hdom; now apply elem_of_dom).
  apply elem_of_band_labels in Hin.
  unfold agn_bands in Hbands.
  repeat match goal with
         | H : Forall _ (_ :: _) |- _ =>
             apply Forall_cons in H as [(? & ? & _ & ? & ?) H]
         end.
  cbn in *.
  destruct Hin as [-> | [-> | [-> | [-> | [-> | ->]]]]];
    (assert (Ha : Some a = Some _) by (rewrite <- Hb; eassumption);
     injection Ha as ->; eapply agn_band_at_zero; eassumption).
Qed.

(** The walk, the segment formula and the interpolator are linear in the
    amplitude. *)
Lemma agn_walk_scale (dt sdt s : R) (es : list R) (n i : nat) (x : R) :
  agn_walk dt sdt s es n i (s * x)
  = map (Rmult s) (agn_walk dt sdt 1 es n i x).
Proof.
  revert i x. induction n as [|n IH]; intros i x; [reflexivity|].
  cbn [agn_walk map].
  replace (- (s * x) * dt + s * nth i es 0 * sdt + s * x)
    with (s * (- x * dt + 1 * nth i es 0 * sdt + x)) by ring.
  now rewrite IH.
Qed.

Lemma linear_eval_scale (s : R) (xs ys : list R) (t : R) :
  linear_eval xs (map (Rmult s) ys) t = Rmult s <$> linear_eval xs ys t.
Proof.
  revert ys. induction xs as [|x0 xs IH]; intros ys; [reflexivity|].
  destruct xs as [|x1 xs]; [now destruct ys|].
  destruct ys as [|y0 [|y1 ys]]; [reflexivity|reflexivity|].
  change (map (Rmult s) (y0 :: y1 :: ys))
    with (s * y0 :: s * y1 :: map (Rmult s) ys).
  rewrite !linear_eval_step.
  destruct (Rle_dec t x1).
  - cbn. f_equal. unfold Rdiv. ring.
  - apply (IH (y1 :: ys)).
Qed.

Lemma interp1d_scale (s : R) (xs ys : list R) (f : interpolator) :
  interp1d xs ys = Ok f ->
  exists f', interp1d xs (map (Rmult s) ys) = Ok f'
             /\ forall t, f' t = Rmult s <$> f t.
Proof.
  unfold interp1d. rewrite length_map.
  destruct (negb _); [discriminate|].
  destruct (_ <? _)%nat; [discriminate|].
  intros [= <-]. eexists. split; [reflexivity|]. intros t. cbv beta.
  destruct (head xs) as [lo|], (last xs) as [hi|]; try reflexivity.
  destruct (Rlt_dec t lo); [reflexivity|].
  destruct (Rlt_dec hi t); [reflexivity|].
  rewrite linear_eval_scale. now destruct (linear_eval xs ys t).
Qed.

Lemma interp1d_same_length (xs ys ys' : list R) (f : interpolator) :
  interp1d xs ys = Ok f -> length ys' = length ys ->
  exists f', interp1d xs ys' = Ok f'.
Proof.
  unfold interp1d. intros Hf ->.
  destruct (negb _); [discriminate|].
  destruct (_ <? _)%nat; [discriminate|]. eauto.
Qed.

Lemma acall_scale (s : R) (f f' : interpolator) (e a : ndarray) :
  (forall t, f' t = Rmult s <$> f t) ->
  acall f e = Ok a -> acall f' e = Ok (amap (Rmult s) a).
Proof.
  intros Hf. destruct e as [x|xs]; cbn.
  - rewrite Hf. destruct (f x); cbn; [|discriminate]. now intros [= <-].
  - destruct (traverse f xs) as [vs|] eqn:Ht; cbn; [|discriminate].
    intros [= <-]. cbn.
    enough (traverse f' xs = Ok (map (Rmult s) vs)) as -> by reflexivity.
    revert vs Ht. induction xs as [|x xs IH]; intros vs Ht.
    + injection Ht as <-. reflexivity.
    + cbn in *. rewrite Hf. destruct (f x) as [v|]; [|discriminate].
      destruct (traverse f xs) as [vs'|]; [|discriminate].
      injection Ht as <-. cbn. now rewrite (IH vs' eq_refl).
Qed.

Lemma agn_dx_scale (dt sdt s : R) (es : list R) (n : nat) :
  0 :: agn_walk dt sdt s es n 0 0
  = map (Rmult s) (0 :: agn_walk dt sdt 1 es n 0 0).
Proof.
  cbn [map]. rewrite <- agn_walk_scale. now rewrite !Rmult_0_r.
Qed.

(** The curve of a band is the amplitude times the curve of amplitude 1. *)
Lemma agn_band_unit (nbins : nat) (dt sdt : R) (es : list R)
  (endepoch : R) (epochs a : ndarray) (sf : value) :
  agn_band nbins dt sdt es endepoch epochs sf = Ok a ->
  exists s unit,
    py_num sf = Ok s
    /\ agn_band nbins dt sdt es endepoch epochs (VNum 1) = Ok unit
    /\ a = amap (Rmult s) unit.
Proof.
  destruct nbins as [|n].
  { rewrite agn_band_no_bins. discriminate. }
  unfold agn_band. unfold_M.
  destruct (py_num sf) as [s|] eqn:Hs; [|discriminate].
  change (py_num (VNum 1)) with (Ok 1).
  set (x := linspace 0 endepoch (S n + 1)).
  rewrite (agn_dx_scale dt sdt s).
  set (dx := 0 :: agn_walk dt sdt 1 es (S n) 0 0).
  destruct (interp1d x (map (Rmult s) dx)) as [fs|] eqn:Hfs;
    [|discriminate].
  intros Hcall. exists s.
  destruct (interp1d_same_length x _ dx fs Hfs) as [f1 Hf1];
    [now rewrite length_map|].
  rewrite Hf1.
  destruct (interp1d_scale s x dx f1 Hf1) as (f' & Hf' & Hscale).
  assert (f' = fs) as -> by congruence.
  destruct (acall_all_Ok f1 epochs) as [unit Hunit].
  { intros t Ht.
    destruct (acall_Ok_pointwise fs epochs a t Hcall Ht) as [v Hv].
    rewrite Hscale in Hv. destruct (f1 t); [eauto|discriminate]. }
  exists unit. split; [reflexivity|]. split; [exact Hunit|].
  pose proof (acall_scale s f1 fs epochs unit Hscale Hunit). congruence.
Qed.

(** X9. The six light curves of applyAgn are one curve, scaled: a run that
    returns gives in each band the band's amplitude (agn_sfu, ..., agn_sfy)
    times one common array, the walk of amplitude 1 on the same draws. Two
    bands with the same amplitude return the same, and a band of amplitude
    0 returns zeros. *)
Theorem applyAgn_bands_scale_one_curve
  (params : dict) (w : World) (d : gmap string ndarray) :
  (applyAgn params w).1 = Ok d ->
  exists unit : ndarray,
    asize unit = asize (Opsim_expmjd w)
    /\ Forall (fun bk : string * string =>
         exists sf s,
           params !! bk.2 = Some sf
           /\ py_num sf = Ok s
           /\ d !! bk.1 = Some (amap (Rmult s) unit)) agn_bands.
Proof.
  intros Hrun.
  destruct (applyAgn_Ok_inv params w d Hrun)
    as (toff & seed & g & tau & endepoch & _ & _ & _ & _ & _ & _
        & _ & _ & Hbands).
  cbv zeta in Hbands.
  set (nbins := Z.to_nat (Zceil (endepoch / (tau / 100)))) in *.
  set (dt := endepoch / IZR (Zceil (endepoch / (tau / 100))) / tau) in *.
  set (es := (random_normal g nbins).1) in *.
  set (epochs := amap (fun t => t - toff) (Opsim_expmjd w)) in *.
  assert (Hu : exists unit,
             agn_band nbins dt (sqrt dt) es endepoch epochs (VNum 1)
             = Ok unit).
  { apply Forall_inv in Hbands as (sf & a & _ & Ha & _).
    destruct (agn_band_unit _ _ _ _ _ _ _ _ Ha) as (s & unit & _ & Hu & _).
    eauto. }
  destruct Hu as [unit Hu]. exists unit. split.
  { rewrite (agn_band_asize _ _ _ _ _ _ _ _ Hu). apply asize_amap. }
  eapply Forall_impl; [exact Hbands|].
  intros [b key] (sf & a & Hsf & Ha & Hd). cbn in *.
  destruct (agn_band_unit _ _ _ _ _ _ _ _ Ha) as (s & unit' & Hs & Hu' & ->).
  assert (unit' = unit) as -> by congruence.
  exists sf, s. auto.
Qed.

(** X10. applyAgn changes nothing of the engine but the state of numpy's
    global generator. When it returns, the generator is left in a state
    that depends on the parameters and the epochs only, not on the state it
    was in; when it raises the error of line 171 or a KeyError, the
    generator is untouched too. *)
Theorem applyAgn_touches_only_generator (params : dict) (w w' : World) :
  Opsim_expmjd w = Opsim_expmjd w' ->
  same_but_rng w (applyAgn params w).2
  /\ (is_Ok (applyAgn params w).1 ->
      rng (applyAgn params w).2 = rng (applyAgn params w').2)
  /\ ((applyAgn params w).1 = Raise InvalidParameters
      \/ (applyAgn params w).1 = Raise KeyError ->
      (applyAgn params w).2 = w).
Proof.
  intros Hobs. split; [|split].
  - unfold applyAgn. unfold_M. cbn.
    repeat match goal with
           | |- context [match ?x with _ => _ end] =>
               destruct x; cbn; try (repeat split; reflexivity)
           end.
  - intros [d Hd].
    assert (Hd' : (applyAgn params w').1 = Ok d).
    { rewrite <- Hd. symmetry. now apply applyAgn_same_output. }
    destruct (applyAgn_Ok_inv params w d Hd)
      as (toff & seed & g & tau & endepoch & Ht & Hs & Hg & Htau & Hmax & _
          & _ & Hst & _).
    destruct (applyAgn_Ok_inv params w' d Hd')
      as (toff' & seed' & g' & tau' & endepoch' & Ht' & Hs' & Hg' & Htau'
          & Hmax' & _ & _ & Hst' & _).
    cbv zeta in Hst, Hst'. rewrite Hst, Hst'. cbn.
    rewrite <- Hobs in Hmax'.
    assert (toff' = toff) as -> by congruence.
    assert (seed' = seed) as -> by congruence.
    assert (tau' = tau) as -> by congruence.
    assert (endepoch' = endepoch) as -> by congruence.
    assert (g' = g) as -> by congruence.
    reflexivity.
  - unfold applyAgn. unfold_M. cbn. unfold getitem.
    intros Hres.
    repeat match type of Hres with
           | context [match ?x with _ => _ end] =>
               destruct x eqn:?; cbn in Hres |- *; try reflexivity;
               try (destruct w; reflexivity)
           end;
    exfalso; destruct Hres as [Hres|Hres]; try discriminate;
    injection Hres as ->;
    repeat match goal with
           | H : py_num _ = Raise _ |- _ =>
               apply py_num_raises in H; discriminate
           | H : option_or_raise _ ?o = Raise _ |- _ =>
               destruct o; discriminate
           | H : agn_band _ _ _ _ _ _ _ = Raise _ |- _ =>
               apply agn_band_raises in H as [H|H]; discriminate
           end.
Qed.

(** X11. When one of the nine parameters applyAgn reads is missing, the
    call raises KeyError and does nothing else: the parameters are read
    before the epochs are checked and before the generator is seeded.
    (The values of t0_mjd and seed, when there, must convert: float() and
    int() are applied as they are read.) *)
Theorem applyAgn_missing_parameter
  (params : dict) (w : World) (key : string) :
  key ∈ agn_keys ->
  params !! key = None ->
  (forall v, params !! "t0_mjd" = Some v -> is_Ok (py_float v)) ->
  (forall v, params !! "seed" = Some v -> is_Ok (py_int v)) ->
  applyAgn params w = (Raise KeyError, w).
Proof.
  intros Hkey Hnone Ht0 Hseed.
  unfold applyAgn, getitem. unfold_M. cbn.
  destruct (params !! "t0_mjd") as [v0|] eqn:E0; cbn; [|reflexivity].
  destruct (Ht0 v0 eq_refl) as [toff ->]. cbn.
  destruct (params !! "seed") as [vs|] eqn:E1; cbn; [|reflexivity].
  destruct (Hseed vs eq_refl) as [seed ->]. cbn.
  destruct (params !! "agn_sfu") eqn:E2; cbn; [|reflexivity].
  destruct (params !! "agn_sfg") eqn:E3; cbn; [|reflexivity].
  destruct (params !! "agn_sfr") eqn:E4; cbn; [|reflexivity].
  destruct (params !! "agn_sfi") eqn:E5; cbn; [|reflexivity].
  destruct (params !! "agn_sfz") eqn:E6; cbn; [|reflexivity].
  destruct (params !! "agn_sfy") eqn:E7; cbn; [|reflexivity].
  destruct (params !! "agn_tau") eqn:E8; cbn; [|reflexivity].
  exfalso. unfold agn_keys in Hkey.
  repeat (apply elem_of_cons in Hkey as [-> | Hkey]; [congruence|]).
  now apply elem_of_nil in Hkey.
Qed.

(** X21. With its parameters readable, numeric amplitudes and relaxation
    time, and a seed the generator accepts, applyAgn returns exactly when
    the relaxation time agn_tau is positive, no epoch is before t0_mjd and
    some epoch is after it. *)
Theorem applyAgn_returns_iff
  (params : dict) (w : World) (toff : R) (seed : Z)
  (sfu sfg sfr sfi sfz sfy vtau : value) (tau : R) :
  agn_params params toff seed sfu sfg sfr sfi sfz sfy vtau ->
  py_num vtau = Ok tau ->
  is_Some (random_seed seed) ->
  Forall (fun sf => exists s, py_num sf = Ok s)
    [sfu; sfg; sfr; sfi; sfz; sfy] ->
  is_Ok (applyAgn params w).1
  <-> 0 < tau
      /\ (forall t, In t (elems (Opsim_expmjd w)) -> toff <= t)
      /\ (exists t, In t (elems (Opsim_expmjd w)) /\ toff < t).
Proof.
  intros Hp Htau Hseed Hsf. split.
  - intros [d Hd].
    destruct (applyAgn_Ok_inv params w d Hd)
      as (toff' & seed' & g & tau' & endepoch & Ht0 & _ & _ & Htau' & Hmax
          & Hpos & Hbins & _).
    destruct Hp as (Hp_t0 & _ & _ & _ & _ & _ & _ & _ & Hp_tau).
    assert (toff' = toff) as -> by congruence.
    assert (tau' = tau) as ->.
    { unfold mbind, result_bind in Htau'. rewrite Hp_tau in Htau'.
      congruence. }
    apply list_max_spec in Hmax as [Hin Hle].
    assert (Hend : 0 <= endepoch) by now apply Hpos.
    assert (Hq : 0 < endepoch / (tau / 100)).
    { pose proof (Zceil_bound (endepoch / (tau / 100))) as [Hlo _].
      assert (1 <= Zceil (endepoch / (tau / 100)))%Z by lia.
      apply IZR_le in H. lra. }
    assert (Hend' : 0 < endepoch).
    { destruct Hend as [Hlt|Heq]; [exact Hlt|].
      rewrite <- Heq in Hq. unfold Rdiv in Hq. rewrite Rmult_0_l in Hq.
      lra. }
    split; [|split].
    + destruct (Rlt_dec 0 tau) as [Hlt|Hge]; [exact Hlt|exfalso].
      assert (Hneg : tau / 100 <= 0) by lra.
      destruct Hneg as [Hneg|Hz].
      * apply Rinv_lt_0_compat in Hneg. unfold Rdiv at 1 in Hq. nra.
      * rewrite Hz in Hq. unfold Rdiv in Hq. rewrite Rinv_0 in Hq. lra.
    + intros t Hin'.
      assert (0 <= t - toff); [|lra].
      apply Hpos, in_map_iff. eauto.
    + apply in_map_iff in Hin as (t & Ht & Hin). exists t.
      split; [exact Hin|lra].
  - intros (Hpos & Hall & Hex).
    destruct (applyAgn_returns params w toff seed sfu sfg sfr sfi sfz sfy
                vtau tau Hp Htau Hpos Hseed Hsf Hall Hex) as [d Hd].
    exists d. exact Hd.
Qed.

End AgnExtras.

(** ** The periodic models (lines 63-138) *)

Section PeriodicExtras.
Context `{Ext : Externals}.

Ltac unfold_M :=
  unfold mbind, M_bind, mret, M_ret, result_bind, result_ret,
         lift, raise, gets, modify in *.

Lemma bind_run {A B} (m : M A) (k : A -> M B) (w : World) :
  (m ≫= k) w
  = match m w with
    | (Ok a, w') => k a w'
    | (Raise e, w') => (Raise e, w')
    end.
Proof. reflexivity. Qed.

(** applyMflare, step by step. *)
Lemma applyMflare_unfold (params : dict) (w : World) (name : string)
  (vL : value) :
  params !! "lcfilename" = Some (VStr name) ->
  params !! "length" = Some vL ->
  applyMflare params w
  = match (v ← getitem params "t0"; py_float v) : result R with
    | Raise e => (Raise e, w)
    | Ok toff =>
        match load_template (VStr (mflare_file name)) vL true None w with
        | (Raise e, w') => (Raise e, w')
        | (Ok (spl, per), w') =>
            (negate_bands
               <$> periodic_offsets spl per toff (Opsim_expmjd w), w')
        end
    end.
Proof.
  intros Hname Hlen. unfold applyMflare.
  assert (H1 : (v ← getitem params "lcfilename"; py_str v) = Ok name).
  { unfold getitem. rewrite Hname. reflexivity. }
  rewrite (bind_lift_Ok _ _ _ _ H1). cbv zeta. fold (mflare_file name).
  assert (H2 : getitem (<["lcfilename" := VStr (mflare_file name)]> params)
                 "length" = Ok vL).
  { unfold getitem. rewrite lookup_insert_ne by discriminate.
    now rewrite Hlen. }
  rewrite (bind_lift_Ok _ _ _ _ H2).
  rewrite bind_run, applyStdPeriodic_unfold.
  assert (Hf : (k ← getitem (<["t0" := "t0"]>
                               (<["filename" := "lcfilename"]> ∅)) "filename";
                getitem (<["lcfilename" := VStr (mflare_file name)]> params) k)
               = Ok (VStr (mflare_file name))).
  { unfold getitem. rewrite lookup_insert_ne by discriminate.
    rewrite lookup_insert_eq. cbn. rewrite lookup_insert_eq. reflexivity. }
  assert (Ht : (k ← getitem (<["t0" := "t0"]>
                               (<["filename" := "lcfilename"]> ∅)) "t0";
                v ← getitem (<["lcfilename" := VStr (mflare_file name)]>
                               params) k;
                py_float v)
               = (v ← getitem params "t0"; py_float v)).
  { unfold getitem. rewrite lookup_insert_eq. cbn.
    rewrite lookup_insert_ne by discriminate. reflexivity. }
  rewrite Hf, Ht.
  destruct (v ← getitem params "t0"; py_float v) as [toff|]; [|reflexivity].
  destruct (load_template _ _ _ _ w) as [[[spl per]|e] w']; [|reflexivity].
  unfold periodic_offsets.
  destruct (py_num per) as [p|]; cbn; [|reflexivity].
  destruct (eval_splines _ _); reflexivity.
Qed.

(** X12. applyMflare does not use the last five characters of the light
    curve name (the template index and the extension): it replaces them by
    1.dat, so two names that differ only there give the same answer and
    the same state, and the file read is mflare/<prefix>1.dat in the data
    directory. *)
Theorem applyMflare_reads_first_template
  (params : dict) (w : World) (p s1 s2 : string) :
  String.length s1 = 5%nat -> String.length s2 = 5%nat ->
  applyMflare (<["lcfilename" := VStr (p +:+ s1)]> params) w
  = applyMflare (<["lcfilename" := VStr (p +:+ s2)]> params) w
  /\ forall dir toff vL,
       (v ← getitem params "t0"; py_float v) = Ok toff ->
       params !! "length" = Some vL ->
       variabilityInitialized w = true ->
       variabilityDataDir w = Some dir ->
       variabilityLcCache w !! ("mflare/" +:+ p +:+ "1.dat") = None ->
       loadtxt_log (applyMflare (<["lcfilename" := VStr (p +:+ s1)]> params)
                      w).2
       = (dir +:+ "/" +:+ ("mflare/" +:+ p +:+ "1.dat")) :: loadtxt_log w.
Proof.
  intros H1 H2.
  assert (Hrun : forall s vL, String.length s = 5%nat ->
            params !! "length" = Some vL ->
            applyMflare (<["lcfilename" := VStr (p +:+ s)]> params) w
            = match (v ← getitem params "t0"; py_float v) : result R with
              | Raise e => (Raise e, w)
              | Ok toff =>
                  match load_template (VStr ("mflare/" +:+ p +:+ "1.dat"))
                          vL true None w with
                  | (Raise e, w') => (Raise e, w')
                  | (Ok (spl, per), w') =>
                      (negate_bands
                         <$> periodic_offsets spl per toff (Opsim_expmjd w),
                       w')
                  end
              end).
  { intros s vL Hs HL.
    rewrite (applyMflare_unfold _ w (p +:+ s) vL).
    - unfold mflare_file. rewrite (drop_last5_app p s Hs).
      unfold getitem. rewrite lookup_insert_ne by discriminate. reflexivity.
    - apply lookup_insert_eq.
    - rewrite lookup_insert_ne by discriminate. exact HL. }
  split.
  - destruct (params !! "length") as [vL|] eqn:HL.
    + now rewrite (Hrun s1 vL H1), (Hrun s2 vL H2).
    + unfold applyMflare, getitem. unfold_M. cbn.
      rewrite !lookup_insert_eq. cbn.
      rewrite !lookup_insert_ne by discriminate. rewrite HL. reflexivity.
  - intros dir toff vL Ht HL Hi Hd Hmiss.
    rewrite (Hrun s1 vL H1 HL), Ht.
    rewrite (load_template_miss w _ dir) by assumption.
    cbv zeta. destruct (fresh_template _ _ _ _) as [[spl per]|e]; cbn.
    + destruct (variabilityCache w); reflexivity.
    + reflexivity.
Qed.

Lemma fresh_template_num (L : R) (interpFactory : option factory)
  (t : list R) (cols : list (list R)) :
  fresh_template (VNum L) true interpFactory (Some (t :: cols))
  = (spl ← build_splines (default interp1d interpFactory)
             (map (fun x => x / L) t :: cols);
     Ok (spl, VNum L)).
Proof. reflexivity. Qed.

(** A first evaluation of a flare: the six interpolators are built over
    the time axis divided by the length, and called on the phases. *)
Lemma applyMflare_fresh (params : dict) (w : World) (name dir : string)
  (toff L : R) (t : list R) (cols : list (list R)) :
  params !! "lcfilename" = Some (VStr name) ->
  (v ← getitem params "t0"; py_float v) = Ok toff ->
  params !! "length" = Some (VNum L) ->
  variabilityInitialized w = true ->
  variabilityDataDir w = Some dir ->
  variabilityLcCache w !! mflare_file name = None ->
  files w !! (dir +:+ "/" +:+ mflare_file name) = Some (t :: cols) ->
  (applyMflare params w).1
  = (spl ← build_splines interp1d (map (fun x => x / L) t :: cols);
     negate_bands
       <$> eval_splines spl
             (amap (fold_phase L)
                (amap (fun e => e - toff) (Opsim_expmjd w)))).
Proof.
  intros Hname Ht HL Hi Hd Hmiss Hfile.
  rewrite (applyMflare_unfold params w name (VNum L) Hname HL), Ht.
  rewrite (load_template_miss w _ dir) by assumption.
  cbv zeta. rewrite Hfile, fresh_template_num.
  change (default interp1d None) with interp1d.
  destruct (build_splines interp1d (map (fun x => x / L) t :: cols))
    as [spl|]; [|reflexivity].
  unfold_M. destruct (variabilityCache w); reflexivity.
Qed.

(** The six interpolators of a well-formed file. *)
Lemma build_splines_interp1d (t cu cg cr ci cz cy : list R) (lo hi : R) :
  Forall (fun c => length c = length t) [cu; cg; cr; ci; cz; cy] ->
  (2 <= length t)%nat ->
  head t = Some lo -> last t = Some hi ->
  exists spl,
    build_splines interp1d [t; cu; cg; cr; ci; cz; cy] = Ok spl
    /\ forall b f, spl !! b = Some f ->
         (forall x, lo <= x <= hi -> exists v, f x = Ok v)
         /\ (forall x, x < lo \/ hi < x -> f x = Raise ValueError)
         /\ (forall x e, f x = Raise e -> e = ValueError).
Proof.
  intros Hlens H2 Hlo Hhi.
  assert (Hcol : forall c, length c = length t ->
            exists f, interp1d t c = Ok f
              /\ (forall x, lo <= x <= hi -> exists v, f x = Ok v)
              /\ (forall x, x < lo \/ hi < x -> f x = Raise ValueError)
              /\ (forall x e, f x = Raise e -> e = ValueError)).
  { intros c Hc.
    destruct (interp1d_in_range t c lo hi (eq_sym Hc) H2 Hlo Hhi)
      as (f & Hf & Hin).
    exists f. split; [exact Hf|]. split; [exact Hin|]. split.
    - intros x Hx. eapply interp1d_out_of_range; eauto.
    - intros x e. eapply interp1d_raises; eauto. }
  repeat match goal with
         | H : Forall _ (_ :: _) |- _ =>
             apply Forall_cons in H as [?%Hcol H]
         end.
  repeat match goal with
         | H : exists f, interp1d _ _ = Ok f /\ _ |- _ =>
             let E := fresh "E" in destruct H as (? & E & ?)
         end.
  eexists. split.
  - unfold build_splines, index. unfold_M. cbn.
    repeat match goal with
           | E : interp1d _ _ = Ok _ |- _ => rewrite E; clear E
           end.
    reflexivity.
  - intros b f Hb.
    repeat (apply lookup_insert_Some in Hb as [[_ <-]|[_ Hb]];
            [assumption|]).
    rewrite lookup_empty in Hb. discriminate.
Qed.

(** Inside the template the flare is evaluated. *)
Lemma applyMflare_returns
  (params : dict) (w : World) (name dir : string) (toff L : R)
  (t cu cg cr ci cz cy : list R) (tfirst tlast : R) :
  params !! "lcfilename" = Some (VStr name) ->
  (v ← getitem params "t0"; py_float v) = Ok toff ->
  params !! "length" = Some (VNum L) ->
  0 < L ->
  variabilityInitialized w = true ->
  variabilityDataDir w = Some dir ->
  variabilityLcCache w !! mflare_file name = None ->
  files w !! (dir +:+ "/" +:+ mflare_file name)
    = Some [t; cu; cg; cr; ci; cz; cy] ->
  Forall (fun c => length c = length t) [cu; cg; cr; ci; cz; cy] ->
  (2 <= length t)%nat ->
  head t = Some tfirst -> last t = Some tlast ->
  Forall (phase_in_template L toff tfirst tlast)
    (elems (Opsim_expmjd w)) ->
  is_Ok (applyMflare params w).1.
Proof.
  intros Hname Ht HL Hpos Hi Hd Hmiss Hfile Hlens H2 Hfirst Hlast.
  rewrite (applyMflare_fresh params w name dir toff L t _
             Hname Ht HL Hi Hd Hmiss Hfile).
  destruct (build_splines_interp1d (map (fun x => x / L) t)
              cu cg cr ci cz cy (tfirst / L) (tlast / L))
    as (spl & Hbuild & Hspl).
  { eapply Forall_impl; [exact Hlens|]. intros c Hc. cbn.
    now rewrite length_map. }
  { now rewrite length_map. }
  { rewrite head_lookup, list_lookup_fmap, <- head_lookup, Hfirst.
    reflexivity. }
  { change (map (fun x => x / L) t) with ((fun x => x / L) <$> t).
    rewrite fmap_last, Hlast. reflexivity. }
  rewrite Hbuild.
  set (phase := amap (fold_phase L)
                  (amap (fun e => e - toff) (Opsim_expmjd w))).
  assert (Hphase : elems phase
                   = map (fun e => fold_phase L (e - toff))
                       (elems (Opsim_expmjd w))).
  { unfold phase. rewrite !elems_amap, map_map. reflexivity. }
  unfold_M. intros Hall.
  destruct (eval_splines_all_Ok spl phase) as [d ->]; [|eexists; eauto].
  intros b f Hb. apply acall_all_Ok. intros x Hx.
  rewrite Hphase in Hx. apply in_map_iff in Hx as (e & <- & He).
  apply (proj1 (Hspl b f Hb)).
  rewrite Forall_forall in Hall. apply Hall, list_elem_of_In, He.
Qed.

(** X13. A first evaluation of a flare from a well-formed template (seven
    columns of one length, at least two rows) returns exactly when the
    phase of every epoch lies between the first and the last sample of the
    time axis divided by the length; otherwise it raises ValueError, the
    error of the linear interpolator outside of its knots. *)
Theorem applyMflare_returns_iff_phases_in_template
  (params : dict) (w : World) (name dir : string) (toff L : R)
  (t cu cg cr ci cz cy : list R) (tfirst tlast : R) :
  params !! "lcfilename" = Some (VStr name) ->
  (v ← getitem params "t0"; py_float v) = Ok toff ->
  params !! "length" = Some (VNum L) ->
  0 < L ->
  variabilityInitialized w = true ->
  variabilityDataDir w = Some dir ->
  variabilityLcCache w !! mflare_file name = None ->
  files w !! (dir +:+ "/" +:+ mflare_file name)
    = Some [t; cu; cg; cr; ci; cz; cy] ->
  Forall (fun c => length c = length t) [cu; cg; cr; ci; cz; cy] ->
  (2 <= length t)%nat ->
  head t = Some tfirst -> last t = Some tlast ->
  (Forall (phase_in_template L toff tfirst tlast)
     (elems (Opsim_expmjd w)) ->
   is_Ok (applyMflare params w).1)
  /\ (Exists (fun e => ~ phase_in_template L toff tfirst tlast e)
        (elems (Opsim_expmjd w)) ->
      (applyMflare params w).1 = Raise ValueError).
Proof.
  intros Hname Ht HL Hpos Hi Hd Hmiss Hfile Hlens H2 Hfirst Hlast.
  split.
  { now apply (applyMflare_returns params w name dir toff L
                 t cu cg cr ci cz cy tfirst tlast). }
  rewrite (applyMflare_fresh params w name dir toff L t _
             Hname Ht HL Hi Hd Hmiss Hfile).
  destruct (build_splines_interp1d (map (fun x => x / L) t)
              cu cg cr ci cz cy (tfirst / L) (tlast / L))
    as (spl & Hbuild & Hspl).
  { eapply Forall_impl; [exact Hlens|]. intros c Hc. cbn.
    now rewrite length_map. }
  { now rewrite length_map. }
  { rewrite head_lookup, list_lookup_fmap, <- head_lookup, Hfirst.
    reflexivity. }
  { change (map (fun x => x / L) t) with ((fun x => x / L) <$> t).
    rewrite fmap_last, Hlast. reflexivity. }
  rewrite Hbuild.
  set (phase := amap (fold_phase L)
                  (amap (fun e => e - toff) (Opsim_expmjd w))).
  assert (Hphase : elems phase
                   = map (fun e => fold_phase L (e - toff))
                       (elems (Opsim_expmjd w))).
  { unfold phase. rewrite !elems_amap, map_map. reflexivity. }
  unfold_M. intros Hex. apply Exists_exists in Hex as (e & He & Hout).
  destruct (eval_splines spl phase) as [d|e'] eqn:Hev.
  - exfalso.
    assert (Hu : "u" ∈ dom spl).
    { rewrite (build_splines_dom _ _ _ Hbuild).
      apply elem_of_band_labels. auto. }
    apply elem_of_dom in Hu as [f Hf].
    destruct (eval_splines_Ok_all spl phase d "u" f Hev Hf)
      as (a & _ & Hcall).
    destruct (acall_Ok_pointwise f phase a (fold_phase L (e - toff)) Hcall)
      as [v Hv].
    { rewrite Hphase. apply in_map_iff. exists e. split; [reflexivity|].
      apply list_elem_of_In, He. }
    rewrite (proj1 (proj2 (Hspl "u" f Hf))) in Hv; [discriminate|].
    unfold phase_in_template in Hout. lra.
  - apply eval_splines_raises in Hev as (b & f & Hb & Hcall).
    apply acall_raises in Hcall as (x & _ & Hx).
    rewrite (proj2 (proj2 (Hspl b f Hb)) x e' Hx). reflexivity.
Qed.


(** X15. A template file that is not there: with the file name and the
    zero point readable and the template not cached, applyStdPeriodic
    raises IOError; the attempt to read the file is the only change of the
    engine, nothing is cached. *)
Theorem periodic_missing_file_raises_IOError
  (params : dict) (keymap : gmap string string) (inPeriod : value)
  (inDays : bool) (interpFactory : option factory) (w : World)
  (f dir : string) (toff : R) :
  (k ← getitem keymap "filename"; getitem params k) = Ok (VStr f) ->
  (k ← getitem keymap "t0"; v ← getitem params k; py_float v) = Ok toff ->
  variabilityInitialized w = true ->
  variabilityDataDir w = Some dir ->
  variabilityLcCache w !! f = None ->
  files w !! (dir +:+ "/" +:+ f) = None ->
  applyStdPeriodic params keymap inPeriod inDays interpFactory w
  = (Raise IOError,
     set_loadtxt_log ((dir +:+ "/" +:+ f) :: loadtxt_log w) w).
Proof.
  intros Hf Ht Hi Hd Hmiss Hfile.
  rewrite applyStdPeriodic_unfold, Hf, Ht.
  rewrite (load_template_miss w f dir) by assumption.
  cbv zeta. rewrite Hfile. reflexivity.
Qed.

(** X16. applyCepheid on a cached template does not look at the period of
    the call: whatever params['period'] is, the phases are folded with the
    period the template was first loaded with. *)
Theorem applyCepheid_cached_period_wins
  (params : dict) (w : World) (f : string) (tpl : template) (v v' : value)
  (toff : R) :
  variabilityInitialized w = true ->
  params !! "lcfile" = Some (VStr f) ->
  (x ← getitem params "t0"; py_float x) = Ok toff ->
  variabilityLcCache w !! f = Some tpl ->
  applyCepheid (<["period" := v]> params) w
  = applyCepheid (<["period" := v']> params) w
  /\ applyCepheid (<["period" := v]> params) w
     = (periodic_offsets (splines tpl) (period tpl) toff (Opsim_expmjd w),
        w).
Proof.
  intros Hi Hf Ht Hc.
  assert (Hrun : forall u,
            applyCepheid (<["period" := u]> params) w
            = (periodic_offsets (splines tpl) (period tpl) toff
                 (Opsim_expmjd w), w)).
  { intros u. unfold applyCepheid. cbv zeta.
    assert (Hp : getitem (<["period" := u]> params) "period" = Ok u).
    { unfold getitem. now rewrite lookup_insert_eq. }
    rewrite (bind_lift_Ok _ _ _ _ Hp), applyStdPeriodic_unfold.
    assert (Hfile : (k ← getitem (<["t0" := "t0"]>
                                    (<["filename" := "lcfile"]> ∅))
                           "filename";
                     getitem (<["period" := u]> params) k)
                    = Ok (VStr f)).
    { unfold getitem. rewrite lookup_insert_ne by discriminate.
      rewrite lookup_insert_eq. cbn.
      rewrite lookup_insert_ne by discriminate. now rewrite Hf. }
    assert (Htoff : (k ← getitem (<["t0" := "t0"]>
                                    (<["filename" := "lcfile"]> ∅)) "t0";
                     x ← getitem (<["period" := u]> params) k; py_float x)
                    = Ok toff).
    { rewrite <- Ht. unfold getitem. rewrite lookup_insert_eq. cbn.
      rewrite lookup_insert_ne by discriminate. reflexivity. }
    rewrite Hfile, Htoff, (load_template_hit w f tpl) by assumption.
    reflexivity. }
  split; [now rewrite !Hrun|apply Hrun].
Qed.

(** X17. applyEb is the RR Lyrae evaluator read as a flux ratio: it runs
    the same periodic evaluation (file under lcfile, zero point under t0)
    and turns every value x into the magnitude -2.5 log10 x, which is 0 for
    the ratio 1, positive (fainter) for a ratio below 1 and negative for a
    ratio above 1. *)
Theorem applyEb_is_magnitude_of_flux_ratio
  (params : dict) (w : World) (vf vt : value) :
  params !! "lcfile" = Some vf ->
  params !! "t0" = Some vt ->
  let ratio :=
    applyRRly (<["tStartMjd" := vt]> (<["filename" := vf]> ∅)) w in
  applyEb params w
  = (to_magnitudes <$> ratio.1, ratio.2)
  /\ forall x,
       (x = 1 -> -2.5 * log10 x = 0)
       /\ (0 < x < 1 -> 0 < -2.5 * log10 x)
       /\ (1 < x -> -2.5 * log10 x < 0).
Proof.
  intros Hf Ht ratio. split.
  - unfold ratio, applyEb, applyRRly. cbv zeta.
    rewrite bind_run, !applyStdPeriodic_unfold.
    assert (H1 : (k ← getitem (<["t0" := "t0"]>
                                 (<["filename" := "lcfile"]> ∅)) "filename";
                  getitem params k) = Ok vf).
    { unfold getitem. rewrite lookup_insert_ne by discriminate.
      rewrite lookup_insert_eq. cbn. now rewrite Hf. }
    assert (H2 : (k ← getitem (<["t0" := "tStartMjd"]>
                                 (<["filename" := "filename"]> ∅))
                        "filename";
                  getitem (<["tStartMjd" := vt]> (<["filename" := vf]> ∅)) k)
                 = Ok vf).
    { unfold getitem. rewrite lookup_insert_ne by discriminate.
      rewrite lookup_insert_eq. cbn.
      rewrite lookup_insert_ne by discriminate.
      now rewrite lookup_insert_eq. }
    assert (H3 : (k ← getitem (<["t0" := "t0"]>
                                 (<["filename" := "lcfile"]> ∅)) "t0";
                  v ← getitem params k; py_float v) = py_float vt).
    { unfold getitem. rewrite lookup_insert_eq. cbn. now rewrite Ht. }
    assert (H4 : (k ← getitem (<["t0" := "tStartMjd"]>
                                 (<["filename" := "filename"]> ∅)) "t0";
                  v ← getitem (<["tStartMjd" := vt]>
                                 (<["filename" := vf]> ∅)) k;
                  py_float v) = py_float vt).
    { unfold getitem. rewrite lookup_insert_eq. cbn.
      now rewrite lookup_insert_eq. }
    rewrite H1, H2, H3, H4.
    destruct (py_float vt) as [toff|]; [|reflexivity].
    destruct (load_template vf VNone true (Some spline_factory) w)
      as [[[spl per]|] w']; [|reflexivity].
    destruct (p ← py_num per; eval_splines spl _); reflexivity.
  - apply magnitude_sign.
Qed.

End PeriodicExtras.

(** ** applyAmcvn (lines 208-242) *)

Section AmcvnExtras.
Context `{Ext : Externals}.

Arguments py_num : simpl never.
Arguments amcvn_adds : simpl never.
Arguments list_min : simpl never.

Ltac unfold_M :=
  unfold mbind, M_bind, mret, M_ret, result_bind, result_ret,
         lift, raise, gets, modify in *.

(** Without bursts: the cosine of line 215 in all six bands. *)
Lemma applyAmcvn_quiescent
  (params : dict) (w : World) (A t0 P : R) (vA vb : value) :
  getitem params "amplitude" = Ok vA -> py_num vA = Ok A ->
  (v ← getitem params "t0"; py_num v) = Ok t0 ->
  (v ← getitem params "period"; py_num v) = Ok P ->
  getitem params "does_burst" = Ok vb -> py_truth vb = false ->
  (applyAmcvn params w).1
  = Ok (six_bands (amap (fun e => A * cos ((e - t0) / P)) (Opsim_expmjd w))).
Proof.
  intros HvA HA Ht0 HP Hvb Hb.
  unfold applyAmcvn. cbv zeta.
  rewrite bind_gets, (bind_lift_Ok _ _ _ _ HvA),
    (bind_lift_Ok _ _ _ _ Ht0), (bind_lift_Ok _ _ _ _ HP),
    (bind_lift_Ok _ _ _ _ HA).
  destruct (Opsim_expmjd w) as [e|es];
    rewrite (bind_lift_Ok _ _ _ _ Hvb), Hb; reflexivity.
Qed.

(** X18. Without bursts applyAmcvn returns the same cosine
    amplitude * cos((t - t0) / period) in all six bands. Its period in
    time is 2 pi times the parameter called period: moving every epoch by
    a multiple of 2 pi period changes nothing, and the offsets stay
    between minus and plus the amplitude. *)
Theorem amcvn_quiescent_is_sinusoid
  (params : dict) (w : World) (A t0 P : R) (vA vb : value) :
  getitem params "amplitude" = Ok vA -> py_num vA = Ok A ->
  (v ← getitem params "t0"; py_num v) = Ok t0 ->
  (v ← getitem params "period"; py_num v) = Ok P ->
  getitem params "does_burst" = Ok vb -> py_truth vb = false ->
  P <> 0 ->
  (applyAmcvn params w).1
  = Ok (six_bands (amap (fun e => A * cos ((e - t0) / P)) (Opsim_expmjd w)))
  /\ (forall k : nat,
        (applyAmcvn params
           (set_Opsim_expmjd
              (amap (fun e => e + 2 * INR k * PI * P) (Opsim_expmjd w)) w)).1
        = (applyAmcvn params w).1)
  /\ (forall e, - Rabs A <= A * cos ((e - t0) / P) <= Rabs A).
Proof.
  intros HvA HA Ht0 HP Hvb Hb HP0.
  split; [now apply (applyAmcvn_quiescent params w A t0 P vA vb)|]. split.
  - intros k.
    rewrite !(applyAmcvn_quiescent params _ A t0 P vA vb) by assumption.
    cbn [Opsim_expmjd set_Opsim_expmjd]. do 2 f_equal.
    rewrite amap_amap. apply amap_ext_in. intros e _.
    f_equal.
    replace ((e + 2 * INR k * PI * P - t0) / P)
      with ((e - t0) / P + 2 * INR k * PI) by (field; exact HP0).
    apply cos_period.
  - intros e. pose proof (COS_bound ((e - t0) / P)) as [Hlo Hhi].
    unfold Rabs. destruct (Rcase_abs A); nra.
Qed.





(** X20. On an array of epochs the six names uLc, ..., yLc are one numpy
    array (gLc = uLc binds the same object) and every += of lines 229-234
    lands on it: with bursting on, the six bands returned are the same
    array, and each entry is the cosine plus 6 adds + 3.5 c adds/min(adds),
    also in the bands i, z and y whose lines add adds only. *)
Theorem amcvn_array_bands_coincide
  (params : dict) (w : World) (es : list R) (A t0 P c m scale : R)
  (vA vb : value) (adds : list R) :
  Opsim_expmjd w = Array es ->
  getitem params "amplitude" = Ok vA -> py_num vA = Ok A ->
  (v ← getitem params "t0"; py_num v) = Ok t0 ->
  (v ← getitem params "period"; py_num v) = Ok P ->
  getitem params "does_burst" = Ok vb -> py_truth vb = true ->
  amcvn_adds params 10 es = Ok adds ->
  (v ← getitem params "color_excess_during_burst"; py_num v) = Ok c ->
  list_min adds = Some m -> m <> 0 -> P <> 0 ->
  (v ← getitem params "burst_scale"; py_num v) = Ok scale -> scale <> 0 ->
  exists d,
    (applyAmcvn params w).1 = Ok d
    /\ (forall b b', b ∈ band_labels -> b' ∈ band_labels ->
                     d !! b = d !! b')
    /\ forall b arr j e a,
         d !! b = Some arr -> es !! j = Some e -> adds !! j = Some a ->
         elems arr !! j
         = Some (A * cos ((e - t0) / P) + 6 * a + 3.5 * c * a / m).
Proof.
  intros Hexp HvA HA Ht0 HP Hvb Hb Hadds Hc Hm _ _ _ _.
  destruct (applyAmcvn_array_shared params w es A t0 P c m vA vb adds)
    as (shared & Hrun & Hshared); try assumption.
  exists (six_bands (Array shared)). split; [exact Hrun|]. split.
  - intros b b' Hin Hin'.
    apply elem_of_band_labels in Hin, Hin'.
    destruct Hin as [-> | [-> | [-> | [-> | [-> | ->]]]]];
      destruct Hin' as [-> | [-> | [-> | [-> | [-> | ->]]]]];
      reflexivity.
  - intros b arr j e a Hd He Ha.
    unfold six_bands in Hd.
    repeat (apply lookup_insert_Some in Hd as [[_ <-]|[_ Hd]];
            [now apply Hshared|]).
    rewrite lookup_empty in Hd. discriminate.
Qed.

End AmcvnExtras.

(** ** The two microlensing models (lines 140-153 and 193-206) *)

Section LensExtras.
Context `{Ext : Externals}.


End LensExtras.

(** * The properties on the examples *)

Section Witnesses.
#[local] Existing Instance example_externals.

(** A negative epoch folds into [0,1): a quarter period before the zero
    point is phase 3/4. *)
Lemma fold_phase_negative_example : fold_phase 1 (- (1 / 4)) = 3 / 4.
Proof.
  unfold fold_phase, floor_divide.
  rewrite (Zfloor_eq (-1)); [lra|]. lra.
Qed.

(** A linear interpolator between its knots, and outside of them. *)
Lemma interp1d_example :
  exists f, interp1d [0; 1; 2] [0; 10; 40] = Ok f
            /\ f (3 / 2) = Ok 25 /\ f 3 = Raise ValueError.
Proof.
  eexists. split; [reflexivity|]. cbv beta. cbn [head last].
  split.
  - destruct (Rlt_dec (3 / 2) 0); [lra|].
    destruct (Rlt_dec 2 (3 / 2)); [lra|].
    cbn [linear_eval]. destruct (Rle_dec (3 / 2) 1); [lra|].
    destruct (Rle_dec (3 / 2) 2); [|lra]. cbn. f_equal. lra.
  - destruct (Rlt_dec 3 0); [lra|].
    destruct (Rlt_dec 2 3); [reflexivity|lra].
Qed.

Lemma example_load :
  load_template (VStr "lc.dat") VNone true None periodic_world
  = (Ok (example_splines, VNum example_period), loaded_world).
Proof. reflexivity. Qed.

(** C1, the claim refuted: on a template whose time axis is 1, 2, 3 the
    code infers the period 3 + (2 - 1) = 4, and (last - first) + spacing
    is 3. *)
Lemma inferred_period_counterexample :
  exists P,
    snd <$> (load_template (VStr "lc.dat") VNone true None periodic_world).1
      = Ok (VNum P)
    /\ files periodic_world !! "LightCurves/lc.dat"
       = Some ([1; 2; 3] :: tail example_lc)
    /\ spec_inferred_period [1; 2; 3] <> Some P.
Proof.
  exists example_period. split; [reflexivity|]. split; [reflexivity|].
  unfold spec_inferred_period, example_period. cbn. intros [= H]. lra.
Qed.

Lemma inferred_period_is_last_plus_step_witness :
  let P := 2 + (1 - 0) in
  let axis := map (fun x => x / P) [0; 1; 2] in
  (load_template (VStr "rr.dat") VNone true None periodic_world).1
  = (spl ← build_splines interp1d (axis :: tail example_lc0);
     Ok (spl, VNum P))
  /\ (applyStdPeriodic periodic_params0 periodic_keymap VNone true None
        periodic_world).1
     = (spl ← build_splines interp1d (axis :: tail example_lc0);
        eval_splines spl
          (amap (fold_phase P)
             (amap (fun x => x - 59000) (Opsim_expmjd periodic_world))))
  /\ (0 = 0 -> spec_inferred_period [0; 1; 2] = Some P).
Proof.
  exact (inferred_period_is_last_plus_step periodic_world "rr.dat"
           "LightCurves" [0; 1; 2] (tail example_lc0) 0 1 2 59000
           periodic_params0 periodic_keymap true None
           eq_refl eq_refl eq_refl eq_refl eq_refl eq_refl eq_refl
           eq_refl eq_refl).
Defined.

Lemma template_cache_reuse_witness :
  (let w := set_Opsim_expmjd (Array [59002]) loaded_world in
   load_template (VStr "lc.dat") (VNum 7) false (Some spline_factory) w
     = (Ok (example_splines, VNum example_period), w)
   /\ applyStdPeriodic periodic_params periodic_keymap (VNum 7) false
        (Some spline_factory) w
      = (toff ← (k ← getitem periodic_keymap "t0";
                 v ← getitem periodic_params k; py_float v);
         p ← py_num (VNum example_period);
         eval_splines example_splines
           (amap (fold_phase p)
              (amap (fun t => t - toff) (Opsim_expmjd w))),
         w))
  /\ (let w := (initializeVariability false periodic_world).2 in
      exists path,
        load_template (VStr "lc.dat") VNone true None w
        = (fresh_template VNone true None (files w !! path),
           set_loadtxt_log (path :: loadtxt_log w) w)).
Proof.
  split.
  - apply (proj1 template_cache_reuse periodic_world loaded_world
             (set_Opsim_expmjd (Array [59002]) loaded_world) "lc.dat"
             VNone true None example_splines (VNum example_period)).
    + reflexivity.
    + reflexivity.
    + apply rtc_once, step_observe.
    + reflexivity.
  - apply (proj2 template_cache_reuse periodic_world
             (initializeVariability false periodic_world).2 "share").
    + reflexivity.
    + apply rtc_refl.
Defined.

Lemma phase_wraparound_witness :
  (forall e, fold_phase 2 e = e / 2 - IZR (Zfloor (e / 2))
             /\ 0 <= fold_phase 2 e < 1
             /\ fold_phase 2 (e + IZR 3 * 2) = fold_phase 2 e)
  /\ (applyStdPeriodic periodic_params periodic_keymap VNone true None
        (set_Opsim_expmjd
           (amap (fun t => t + IZR 3 * 2) (Opsim_expmjd cached_world))
           cached_world)).1
     = (applyStdPeriodic periodic_params periodic_keymap VNone true None
          cached_world).1.
Proof.
  apply (phase_wraparound cached_world cached_world periodic_params
           periodic_keymap VNone true None (VStr "lc.dat") (VNum 2)
           (six_bands (fun t => Ok (10 * t))) 2 3).
  - reflexivity.
  - reflexivity.
  - reflexivity.
  - lra.
Defined.

Lemma microlensing_symmetric_minimum_witness :
  let w := engine_at (Array [59000; 59003]) in
  (forall a,
     (applyMicrolens lens_params (set_Opsim_expmjd a w)).1
       = Ok (six_bands (amap (dmag_Microlens 59000 0.5 10) a))
     /\ (applyMicrolensing lens_params (set_Opsim_expmjd a w)).1
        = Ok (six_bands (amap (dmag_Microlensing 59000 0.5 10) a)))
  /\ (forall t, lens_u 0.5 10 (59000 - 59000) <= lens_u 0.5 10 (t - 59000))
  /\ (forall t, dmag_Microlens 59000 0.5 10 59000
                <= dmag_Microlens 59000 0.5 10 t
             /\ dmag_Microlensing 59000 0.5 10 59000
                <= dmag_Microlensing 59000 0.5 10 t)
  /\ (forall d : ndarray,
        (applyMicrolens lens_params
           (set_Opsim_expmjd (amap (fun x => 59000 + x) d) w)).1
        = (applyMicrolens lens_params
             (set_Opsim_expmjd (amap (fun x => 59000 - x) d) w)).1
        /\ (applyMicrolensing lens_params
              (set_Opsim_expmjd (amap (fun x => 59000 + x) d) w)).1
           = (applyMicrolensing lens_params
                (set_Opsim_expmjd (amap (fun x => 59000 - x) d) w)).1).
Proof.
  apply (microlensing_symmetric_minimum lens_params
           (engine_at (Array [59000; 59003])) 59000 0.5 10).
  - reflexivity.
  - reflexivity.
  - reflexivity.
  - lra.
  - lra.
Defined.

Lemma bh_microlens_outside_template_witness :
  let w := engine_at (Array [0; 500; 2000]) in
  exists dmag : list R,
    (applyBHMicrolens bh_params w).1 = Ok (six_bands (Array dmag))
    /\ length dmag = asize (Opsim_expmjd w)
    /\ forall (j : nat) (e : R),
         elems (Opsim_expmjd w) !! j = Some e ->
         let ep := e - 0 in
         (ep < 1 * 365 \/ 3 * 365 < ep ->
          bh_moff (1 * 365) (3 * 365) (fun _ => 2) ep = 1
          /\ dmag !! j = Some 0)
         /\ (1 * 365 <= ep <= 3 * 365 ->
             dmag !! j = Some (-2.5 * ln ((fun _ => 2) ep))).
Proof.
  apply (bh_microlens_outside_template bh_params
           (engine_at (Array [0; 500; 2000])) "LightCurves" "lc.dat"
           example_lc [1; 2; 3] [10; 20; 30] 1 2 3 0 (fun _ => 2)).
  - reflexivity.
  - reflexivity.
  - reflexivity.
  - reflexivity.
  - reflexivity.
  - reflexivity.
  - reflexivity.
  - reflexivity.
  - reflexivity.
  - reflexivity.
Defined.

Lemma example_outburst :
  amcvn_adds amcvn_params 10 [10957.5] = Ok [outburst_add].
Proof.
  rewrite (amcvn_adds_single_burst amcvn_params [10957.5] 0 3652.5);
    [reflexivity|reflexivity|reflexivity|lra].
Qed.

(** Two decay scales after the burst the pulse has decayed by exp(-1): it
    contributes. *)
Lemma example_outburst_contributes : outburst_add <> 0.
Proof.
  unfold outburst_add. cbv zeta.
  assert (Htmp : burst_tmp 3652.5 (0 + 3652.5) 10957.5 = exp (-1)).
  { unfold burst_tmp.
    replace (-1 * (10957.5 - (0 + 3652.5)) / 3652.5) with (-1 + -1) by lra.
    rewrite exp_plus. field. pose proof (exp_pos (-1)). lra. }
  rewrite Htmp. pose proof (exp_pos (-1)) as Hpos.
  assert (Hlt : exp (-1) < 1).
  { rewrite <- exp_0. apply exp_increasing. lra. }
  destruct (Rlt_dec (exp (-1)) 1.0); lra.
Qed.

Lemma amcvn_color_excess_weights_witness :
  (exists d,
     (applyAmcvn amcvn_params (engine_at (Scalar 10957.5))).1 = Ok d
     /\ forall b, b ∈ band_labels ->
          d !! b = Some (Array [0.1 * cos ((10957.5 - 0) / 1) + outburst_add
                                + color_excess_weight b * 1]))
  /\ (color_excess_weight "u" > color_excess_weight "g"
      /\ color_excess_weight "g" > color_excess_weight "r"
      /\ color_excess_weight "r" > color_excess_weight "i"
      /\ color_excess_weight "i" = color_excess_weight "z"
      /\ color_excess_weight "z" = color_excess_weight "y")
  /\ (forall b, b ∈ band_labels ->
        (color_excess_weight b = 0 <-> b = "i" \/ b = "z" \/ b = "y")).
Proof.
  apply (amcvn_color_excess_weights amcvn_params
           (engine_at (Scalar 10957.5)) 10957.5 0.1 0 1 1 outburst_add
           (VNum 0.1) (VBool true)).
  - reflexivity.
  - reflexivity.
  - reflexivity.
  - reflexivity.
  - reflexivity.
  - reflexivity.
  - reflexivity.
  - exact example_outburst.
  - exact example_outburst_contributes.
  - reflexivity.
Defined.

(** C6, the claim refuted: during the outburst of the example the band i
    returns the baseline plus the plain burst contribution, as z and y do,
    while u does not. *)
Lemma color_excess_counterexample :
  exists d,
    (applyAmcvn amcvn_params (engine_at (Scalar 10957.5))).1 = Ok d
    /\ amcvn_adds amcvn_params 10 [10957.5] = Ok [outburst_add]
    /\ d !! "u"
       <> Some (Array [0.1 * cos ((10957.5 - 0) / 1) + outburst_add])
    /\ ~ spec_plain_bands d
           (Array [0.1 * cos ((10957.5 - 0) / 1) + outburst_add]).
Proof.
  destruct (applyAmcvn_scalar amcvn_params (engine_at (Scalar 10957.5))
              10957.5 0.1 0 1 1 (VNum 0.1) (VBool true) [outburst_add])
    as (a & d & [= <-] & Hrun & Hbands);
    try reflexivity; [exact example_outburst|].
  pose proof example_outburst_contributes as Hne.
  destruct color_excess_weights as (Wu & _ & _ & Wi & _).
  exists d. split; [exact Hrun|]. split; [exact example_outburst|]. split.
  - assert (Hu : "u" ∈ band_labels) by (apply elem_of_band_labels; auto).
    rewrite (Hbands "u" Hu), Wu. intros [= H].
    assert (2 * 1 * outburst_add / outburst_add = 2) by (field; exact Hne).
    lra.
  - intros Hspec.
    assert (Hi : "i" ∈ band_labels) by (apply elem_of_band_labels; auto).
    specialize (Hbands "i" Hi). specialize (Hspec "i" Hi).
    destruct Hspec as [Hspec _].
    destruct Hspec as [H|H]; [|discriminate H|discriminate H].
    rewrite Hbands, Wi. do 3 f_equal. unfold Rdiv. ring.
Qed.

(** On an array of epochs the six bands of the example come out equal:
    the one shared array has taken all six updates. *)
Lemma amcvn_array_example :
  exists shared,
    (applyAmcvn amcvn_params (engine_at (Array [10957.5]))).1
      = Ok (six_bands (Array shared))
    /\ shared !! 0%nat
       = Some (0.1 * cos ((10957.5 - 0) / 1) + 6 * outburst_add
               + 3.5 * 1 * outburst_add / outburst_add).
Proof.
  destruct (applyAmcvn_array_shared amcvn_params
              (engine_at (Array [10957.5])) [10957.5] 0.1 0 1 1
              outburst_add (VNum 0.1) (VBool true) [outburst_add])
    as (shared & Hrun & Hshared);
    try reflexivity; [exact example_outburst|].
  exists shared. split; [exact Hrun|]. now apply Hshared.
Qed.

Lemma agn_deterministic_witness :
  let w1 := engine_at (Array [59000; 59001]) in
  let w2 := other_engine_at (Array [59000; 59001]) in
  (applyAgn agn_example_params w1).1 = (applyAgn agn_example_params w2).1
  /\ exists d,
       (applyAgn agn_example_params w1).1 = Ok d
       /\ exists (seed : Z) (g : rng_state) (nbins : nat)
                 (dt endepoch toff : R),
            (v ← getitem agn_example_params "seed"; py_int v) = Ok seed
            /\ random_seed seed = Some g
            /\ let es := (random_normal g nbins).1 in
               length es = nbins
               /\ Forall (fun bk : string * string =>
                    exists sf a,
                      agn_example_params !! bk.2 = Some sf
                      /\ agn_band nbins dt (sqrt dt) es endepoch
                           (amap (fun t => t - toff) (Opsim_expmjd w1)) sf
                         = Ok a
                      /\ d !! bk.1 = Some a) agn_bands.
Proof.
  intros w1 w2.
  destruct (agn_deterministic agn_example_params w1 w2 eq_refl)
    as [Hsame Hdraws].
  split; [exact Hsame|].
  destruct (applyAgn_returns agn_example_params w1 59000 (truncate 42)
              (VNum 0.6) (VNum 0.5) (VNum 0.4) (VNum 0.3) (VNum 0.2)
              (VNum 0.1) (VNum 100) 100) as [d Hd].
  - repeat split; reflexivity.
  - reflexivity.
  - lra.
  - rewrite truncate_IZR. cbn. eauto.
  - repeat constructor; eexists; reflexivity.
  - intros t [<-|[<-|[]]]; lra.
  - exists 59001. split; [right; now left|lra].
  - exists d. split; [exact Hd|]. exact (Hdraws d Hd).
Defined.

Lemma agn_raises_at_reference_time_witness :
  (applyAgn agn_example_params (engine_at (Array [59000]))).1
  = Raise ValueError.
Proof.
  apply (agn_raises_at_reference_time agn_example_params
           (engine_at (Array [59000])) 59000 (truncate 42)
           (VNum 0.6) (VNum 0.5) (VNum 0.4) (VNum 0.3) (VNum 0.2)
           (VNum 0.1) (VNum 100) 100).
  - repeat split; reflexivity.
  - reflexivity.
  - repeat constructor.
Defined.

Lemma amcvn_zero_minimum_before_first_burst_witness :
  amcvn_adds amcvn_params 10 [0] = Ok (repeat 0 (length [0]))
  /\ list_min (repeat 0 (length [0])) = Some 0.
Proof.
  apply (amcvn_zero_minimum_before_first_burst amcvn_params [0]
           0 3652.5 3652.5 1).
  - reflexivity.
  - reflexivity.
  - reflexivity.
  - reflexivity.
  - lra.
  - lra.
  - constructor; [lra|constructor].
  - discriminate.
Defined.

Lemma every_evaluator_fills_six_bands_witness :
  let w := (initializeVariability true
              (engine_at (Array [59000; 59003]))).2 in
  let d := six_bands (amap (dmag_Microlens 59000 0.5 10)
                        (Array [59000; 59003])) in
  dom d = band_labels
  /\ (forall b a, d !! b = Some a -> asize a = asize (Opsim_expmjd w))
  /\ (forall pars,
        applyMicrolens lens_params = applyMicrolens pars
        \/ applyMicrolens lens_params = applyMicrolensing pars
        \/ applyMicrolens lens_params = applyBHMicrolens pars ->
        exists a, d = six_bands a).
Proof.
  apply (every_evaluator_fills_six_bands
           (engine_at (Array [59000; 59003]))
           (initializeVariability true (engine_at (Array [59000; 59003]))).2
           true (applyMicrolens lens_params)).
  - apply rtc_refl.
  - apply (evaluator_registered "applyMicrolens" applyMicrolens lens_params).
    reflexivity.
  - reflexivity.
Defined.

End Witnesses.

(** * The rest of the class on the examples *)

Section MoreWitnesses.
#[local] Existing Instance example_externals.

Lemma applyVariability_unknown_model_witness :
  (applyVariability "applyNova" ∅ periodic_world).1 = Raise KeyError
  /\ variabilityInitialized
       (applyVariability "applyNova" ∅ periodic_world).2 = true
  /\ (variabilityInitialized periodic_world = true ->
      (applyVariability "applyNova" ∅ periodic_world).2 = periodic_world).
Proof.
  apply (applyVariability_unknown_model periodic_world "applyNova" ∅).
  - unfold registered_names. intros H.
    repeat (apply elem_of_cons in H as [H|H]; [discriminate|]).
    now apply elem_of_nil in H.
  - left. reflexivity.
Defined.

Lemma lazy_initialisation_never_caches_witness :
  let w1 := (applyVariability "applyMicrolens" lens_params fresh_engine).2 in
  let w' := set_Opsim_expmjd (Array [59002]) w1 in
  variabilityInitialized w' = true
  /\ variabilityCache w' = false
  /\ variabilityLcCache w' = ∅.
Proof.
  apply (lazy_initialisation_never_caches fresh_engine _ "applyMicrolens"
           lens_params).
  - reflexivity.
  - apply rtc_once, step_observe.
Defined.

Lemma failed_initialisation_is_not_retried_witness :
  let w1 := (applyVariability "applyMicrolens" lens_params bare_engine).2 in
  (applyVariability "applyMicrolens" lens_params bare_engine).1
  = Raise AttributeError
  /\ variabilityInitialized w1 = true
  /\ variabilityDataDir w1 = variabilityDataDir bare_engine
  /\ forall name' pars',
       applyVariability name' pars' w1
       = match variabilityMethods name' with
         | Some method => method pars' w1
         | None => (Raise KeyError, w1)
         end.
Proof.
  apply (failed_initialisation_is_not_retried bare_engine "applyMicrolens"
           lens_params).
  - reflexivity.
  - reflexivity.
Defined.

Lemma initializeVariability_forgets_templates_witness :
  let w1 := (initializeVariability true cached_world).2 in
  let dir := os_path_join (os_path_join "share" "data") "LightCurves" in
  initializeVariability true cached_world = (Ok tt, w1)
  /\ variabilityLcCache w1 = ∅
  /\ variabilityCache w1 = true
  /\ variabilityDataDir w1 = Some dir
  /\ initializeVariability true w1 = (Ok tt, w1)
  /\ loadtxt_log (load_template (VStr "lc.dat") VNone true None w1).2
     = (dir +:+ "/" +:+ "lc.dat") :: loadtxt_log cached_world.
Proof.
  apply (initializeVariability_forgets_templates cached_world true "share"
           "lc.dat" VNone true None).
  reflexivity.
Defined.

Lemma cached_templates_are_never_evicted_witness :
  let w' :=
    (applyVariability "applyMicrolens" lens_params cached_world).2 in
  (forall f t, variabilityLcCache cached_world !! f = Some t ->
               variabilityLcCache w' !! f = Some t)
  /\ (variabilityCache cached_world = false ->
      variabilityLcCache w' = variabilityLcCache cached_world).
Proof.
  apply (cached_templates_are_never_evicted cached_world).
  - reflexivity.
  - apply rtc_once, step_applyVariability.
Defined.

Lemma analytic_models_use_only_epochs_witness :
  let w := engine_at (Array [59000; 59003]) in
  let w' := other_engine_at (Array [59000; 59003]) in
  applyMicrolens lens_params w = ((applyMicrolens lens_params w').1, w)
  /\ applyMicrolensing lens_params w
     = ((applyMicrolensing lens_params w').1, w)
  /\ applyAmcvn lens_params w = ((applyAmcvn lens_params w').1, w).
Proof.
  apply (analytic_models_use_only_epochs lens_params
           (engine_at (Array [59000; 59003]))
           (other_engine_at (Array [59000; 59003]))).
  reflexivity.
Defined.

Lemma bh_microlens_reads_file_every_time_witness :
  let path := "LightCurves" +:+ "/" +:+ "lc.dat" in
  (applyBHMicrolens bh_params periodic_world).2
  = set_loadtxt_log (path :: loadtxt_log periodic_world) periodic_world
  /\ loadtxt_log
       (applyBHMicrolens bh_params
          (applyBHMicrolens bh_params periodic_world).2).2
     = path :: path :: loadtxt_log periodic_world.
Proof.
  apply (bh_microlens_reads_file_every_time bh_params periodic_world
           "lc.dat" "LightCurves" 0).
  - reflexivity.
  - reflexivity.
  - reflexivity.
Defined.

(** The AGN of the examples, observed at its reference time and one day
    later, is evaluated. *)
Lemma agn_example_returns :
  exists d,
    (applyAgn agn_example_params (engine_at (Array [59000; 59001]))).1
    = Ok d.
Proof.
  apply (applyAgn_returns agn_example_params _ 59000 (truncate 42)
           (VNum 0.6) (VNum 0.5) (VNum 0.4) (VNum 0.3) (VNum 0.2)
           (VNum 0.1) (VNum 100) 100).
  - repeat split; reflexivity.
  - reflexivity.
  - lra.
  - rewrite truncate_IZR. cbn. eauto.
  - repeat constructor; eexists; reflexivity.
  - intros t [<-|[<-|[]]]; lra.
  - exists 59001. split; [right; now left|lra].
Qed.

Lemma applyAgn_zero_at_reference_epoch_witness :
  exists d a,
    (applyAgn agn_example_params (engine_at (Array [59000; 59001]))).1
    = Ok d
    /\ d !! "u" = Some a
    /\ elems a !! 0%nat = Some 0.
Proof.
  destruct agn_example_returns as [d Hd].
  destruct (applyAgn_result _ _ d Hd) as [Hdom _].
  assert (Hu : "u" ∈ dom d).
  { rewrite Hdom. apply elem_of_band_labels. auto. }
  apply elem_of_dom in Hu as [a Ha].
  exists d, a. split; [exact Hd|]. split; [exact Ha|].
  apply (applyAgn_zero_at_reference_epoch agn_example_params
           (engine_at (Array [59000; 59001])) d 59000 0 "u" a Hd).
  - reflexivity.
  - reflexivity.
  - exact Ha.
Defined.

Lemma applyAgn_bands_scale_one_curve_witness :
  exists d,
    (applyAgn agn_example_params (engine_at (Array [59000; 59001]))).1
    = Ok d
    /\ exists unit : ndarray,
         asize unit = 2%nat
         /\ Forall (fun bk : string * string =>
              exists sf s,
                agn_example_params !! bk.2 = Some sf
                /\ py_num sf = Ok s
                /\ d !! bk.1 = Some (amap (Rmult s) unit)) agn_bands.
Proof.
  destruct agn_example_returns as [d Hd].
  exists d. split; [exact Hd|].
  exact (applyAgn_bands_scale_one_curve agn_example_params
           (engine_at (Array [59000; 59001])) d Hd).
Defined.

Lemma applyAgn_touches_only_generator_witness :
  let w := engine_at (Array [59000; 59001]) in
  let w' := other_engine_at (Array [59000; 59001]) in
  same_but_rng w (applyAgn agn_example_params w).2
  /\ (is_Ok (applyAgn agn_example_params w).1 ->
      rng (applyAgn agn_example_params w).2
      = rng (applyAgn agn_example_params w').2)
  /\ ((applyAgn agn_example_params w).1 = Raise InvalidParameters
      \/ (applyAgn agn_example_params w).1 = Raise KeyError ->
      (applyAgn agn_example_params w).2 = w).
Proof.
  apply (applyAgn_touches_only_generator agn_example_params
           (engine_at (Array [59000; 59001]))
           (other_engine_at (Array [59000; 59001]))).
  reflexivity.
Defined.

Lemma applyAgn_missing_parameter_witness :
  applyAgn agn_partial_params (engine_at (Array [58000]))
  = (Raise KeyError, engine_at (Array [58000])).
Proof.
  apply (applyAgn_missing_parameter agn_partial_params
           (engine_at (Array [58000])) "agn_sfu").
  - unfold agn_keys. apply elem_of_cons. right. apply elem_of_cons. right.
    apply elem_of_cons. left. reflexivity.
  - reflexivity.
  - intros v Hv.
    assert (E : agn_partial_params !! "t0_mjd" = Some (VNum 59000))
      by reflexivity.
    rewrite E in Hv. injection Hv as <-. eexists. reflexivity.
  - intros v Hv.
    assert (E : agn_partial_params !! "seed" = Some (VNum 42))
      by reflexivity.
    rewrite E in Hv. injection Hv as <-. eexists. reflexivity.
Defined.

Lemma applyMflare_reads_first_template_witness :
  let w := mflare_engine_at (Array [59001]) in
  applyMflare (<["lcfilename" := VStr ("flare" +:+ "3.dat")]> mflare_params)
    w
  = applyMflare (<["lcfilename" := VStr ("flare" +:+ "7.dat")]> mflare_params)
      w
  /\ forall dir toff vL,
       (v ← getitem mflare_params "t0"; py_float v) = Ok toff ->
       mflare_params !! "length" = Some vL ->
       variabilityInitialized w = true ->
       variabilityDataDir w = Some dir ->
       variabilityLcCache w !! ("mflare/" +:+ "flare" +:+ "1.dat") = None ->
       loadtxt_log
         (applyMflare
            (<["lcfilename" := VStr ("flare" +:+ "3.dat")]> mflare_params)
            w).2
       = (dir +:+ "/" +:+ ("mflare/" +:+ "flare" +:+ "1.dat"))
           :: loadtxt_log w.
Proof.
  apply (applyMflare_reads_first_template mflare_params
           (mflare_engine_at (Array [59001])) "flare" "3.dat" "7.dat").
  - reflexivity.
  - reflexivity.
Defined.

Lemma applyMflare_returns_iff_phases_in_template_witness :
  let w := mflare_engine_at (Array [59001]) in
  (Forall (phase_in_template 4 59000 0 2) (elems (Opsim_expmjd w)) ->
   is_Ok (applyMflare mflare_params w).1)
  /\ (Exists (fun e => ~ phase_in_template 4 59000 0 2 e)
        (elems (Opsim_expmjd w)) ->
      (applyMflare mflare_params w).1 = Raise ValueError).
Proof.
  apply (applyMflare_returns_iff_phases_in_template mflare_params
           (mflare_engine_at (Array [59001])) "flare3.dat" "LightCurves"
           59000 4 [0; 1; 2] [10; 20; 30] [11; 21; 31] [12; 22; 32]
           [13; 23; 33] [14; 24; 34] [15; 25; 35] 0 2).
  - reflexivity.
  - reflexivity.
  - reflexivity.
  - lra.
  - reflexivity.
  - reflexivity.
  - reflexivity.
  - reflexivity.
  - repeat constructor.
  - cbn. lia.
  - reflexivity.
  - reflexivity.
Defined.



Lemma periodic_missing_file_raises_IOError_witness :
  applyStdPeriodic missing_file_params periodic_keymap VNone true None
    periodic_world
  = (Raise IOError,
     set_loadtxt_log
       (("LightCurves" +:+ "/" +:+ "nofile.dat")
          :: loadtxt_log periodic_world) periodic_world).
Proof.
  apply (periodic_missing_file_raises_IOError missing_file_params
           periodic_keymap VNone true None periodic_world "nofile.dat"
           "LightCurves" 59000).
  - reflexivity.
  - reflexivity.
  - reflexivity.
  - reflexivity.
  - reflexivity.
  - reflexivity.
Defined.

Lemma applyCepheid_cached_period_wins_witness :
  let tpl := {| splines := six_bands (fun t => Ok (10 * t));
                period := VNum 2 |} in
  applyCepheid (<["period" := VNum 5]> cepheid_params) cached_world
  = applyCepheid (<["period" := VNum 7]> cepheid_params) cached_world
  /\ applyCepheid (<["period" := VNum 5]> cepheid_params) cached_world
     = (periodic_offsets (splines tpl) (period tpl) 59000
          (Opsim_expmjd cached_world), cached_world).
Proof.
  apply (applyCepheid_cached_period_wins cepheid_params cached_world
           "lc.dat"
           {| splines := six_bands (fun t => Ok (10 * t));
              period := VNum 2 |} (VNum 5) (VNum 7) 59000).
  - reflexivity.
  - reflexivity.
  - reflexivity.
  - reflexivity.
Defined.

Lemma applyEb_is_magnitude_of_flux_ratio_witness :
  let ratio :=
    applyRRly (<["tStartMjd" := VNum 59000]>
                 (<["filename" := VStr "lc.dat"]> ∅)) cached_world in
  applyEb cepheid_params cached_world
  = (to_magnitudes <$> ratio.1, ratio.2)
  /\ forall x,
       (x = 1 -> -2.5 * log10 x = 0)
       /\ (0 < x < 1 -> 0 < -2.5 * log10 x)
       /\ (1 < x -> -2.5 * log10 x < 0).
Proof.
  apply (applyEb_is_magnitude_of_flux_ratio cepheid_params cached_world
           (VStr "lc.dat") (VNum 59000)).
  - reflexivity.
  - reflexivity.
Defined.

Lemma amcvn_quiescent_is_sinusoid_witness :
  let w := engine_at (Array [0; 1]) in
  (applyAmcvn quiet_amcvn_params w).1
  = Ok (six_bands (amap (fun e => 0.1 * cos ((e - 0) / 2)) (Opsim_expmjd w)))
  /\ (forall k : nat,
        (applyAmcvn quiet_amcvn_params
           (set_Opsim_expmjd
              (amap (fun e => e + 2 * INR k * PI * 2) (Opsim_expmjd w)) w)).1
        = (applyAmcvn quiet_amcvn_params w).1)
  /\ (forall e, - Rabs 0.1 <= 0.1 * cos ((e - 0) / 2) <= Rabs 0.1).
Proof.
  apply (amcvn_quiescent_is_sinusoid quiet_amcvn_params
           (engine_at (Array [0; 1])) 0.1 0 2 (VNum 0.1) (VBool false)).
  - reflexivity.
  - reflexivity.
  - reflexivity.
  - reflexivity.
  - reflexivity.
  - reflexivity.
  - lra.
Defined.


Lemma amcvn_array_bands_coincide_witness :
  exists d,
    (applyAmcvn amcvn_params (engine_at (Array [10957.5]))).1 = Ok d
    /\ (forall b b', b ∈ band_labels -> b' ∈ band_labels ->
                     d !! b = d !! b')
    /\ forall b arr j e a,
         d !! b = Some arr -> [10957.5] !! j = Some e ->
         [outburst_add] !! j = Some a ->
         elems arr !! j
         = Some (0.1 * cos ((e - 0) / 1) + 6 * a
                 + 3.5 * 1 * a / outburst_add).
Proof.
  apply (amcvn_array_bands_coincide amcvn_params
           (engine_at (Array [10957.5])) [10957.5] 0.1 0 1 1 outburst_add
           3652.5 (VNum 0.1) (VBool true) [outburst_add]).
  - reflexivity.
  - reflexivity.
  - reflexivity.
  - reflexivity.
  - reflexivity.
  - reflexivity.
  - reflexivity.
  - exact example_outburst.
  - reflexivity.
  - reflexivity.
  - exact example_outburst_contributes.
  - lra.
  - reflexivity.
  - lra.
Defined.

Lemma applyAgn_returns_iff_witness :
  let w := engine_at (Array [59000; 59001]) in
  is_Ok (applyAgn agn_example_params w).1
  <-> 0 < 100
      /\ (forall t, In t (elems (Opsim_expmjd w)) -> 59000 <= t)
      /\ (exists t, In t (elems (Opsim_expmjd w)) /\ 59000 < t).
Proof.
  apply (applyAgn_returns_iff agn_example_params
           (engine_at (Array [59000; 59001])) 59000 (truncate 42)
           (VNum 0.6) (VNum 0.5) (VNum 0.4) (VNum 0.3) (VNum 0.2)
           (VNum 0.1) (VNum 100) 100).
  - repeat split; reflexivity.
  - reflexivity.
  - rewrite truncate_IZR. cbn. eauto.
  - repeat constructor; eexists; reflexivity.
Defined.


End MoreWitnesses.
